(** * PO extraction (v48) of the JSON invoice tool: model and properties

    A shallow embedding of the core of [stream.py]: the text normaliser
    [norm_advanced], the fourteen ordered regular expressions and the
    first-match loop of [advanced_po_extraction_v48], and the two functions
    that walk an invoice record, [extract_po_from_json] and
    [parse_json_fields].  The report that [main] builds from the
    result, with [format_datetime], and the login, [save_to_google_sheets]
    and [show_login_popup], come after them.

    Python strings are sequences of Unicode code points, so a string is a
    list of code points here.  What the program takes from the Python
    runtime (the Unicode character database behind [unicodedata], [str] and
    [re]; [json.loads]; [str()] of a value or of an exception) is a record
    of functions: the definitions and the general theorems are stated for
    any such record, and a sample of the real tables is given for the
    examples. *)

From Stdlib Require Import ZArith NArith List Bool Ascii String Lia.
From Corelib Require Import PrimFloat.
From stdpp Require Import base option list gmap strings pretty.

Local Open Scope N_scope.
Local Open Scope list_scope.

(** ** Python strings *)

(** A character is a code point, a [str] a list of them. *)
Abbreviation char := N.
Abbreviation str := (list N).

(** An ASCII literal of the source as a [str]. *)
Definition u (s : string) : str :=
  List.map N_of_ascii (list_ascii_of_string s).

(** [old in s] for two strings: [old] occurs in [s] as a substring. *)
Fixpoint is_prefix_of (p s : str) : bool :=
  match p, s with
  | [], _ => true
  | a :: p', b :: s' => (a =? b) && is_prefix_of p' s'
  | _ :: _, [] => false
  end.

Fixpoint contains_substring (s old : str) : bool :=
  is_prefix_of old s ||
  match s with
  | [] => false
  | _ :: s' => contains_substring s' old
  end.

(** [s.replace(old, new)] where [old] is one character. *)
Definition replace (old : char) (new : str) (s : str) : str :=
  s ≫= (λ ch, if ch =? old then new else [ch]).

(** [str.maketrans(a, b)] and [s.translate(table)]. *)
Definition maketrans (a b : str) : list (char * char) := zip a b.

Fixpoint table_get (table : list (char * char)) (ch : char) : option char :=
  match table with
  | [] => None
  | (k, v) :: table' => if ch =? k then Some v else table_get table' ch
  end.

Definition translate (table : list (char * char)) (s : str) : str :=
  List.map (λ ch, default ch (table_get table ch)) s.

(** [sep.join(parts)] on strings. *)
Fixpoint join (sep : str) (parts : list str) : str :=
  match parts with
  | [] => []
  | [p] => p
  | p :: parts' => p ++ sep ++ join sep parts'
  end.

(** ** The Unicode character database

    The functions of the database that the program reaches through
    [unicodedata], [str.strip] and [re]. *)
Record unicodedata := {
  (** [unicodedata.normalize("NFKC", s)] *)
  normalize_NFKC : str → str;
  (** [unicodedata.category(ch)] *)
  category : char → string;
  (** [ch.isspace()]: what [str.strip] removes and [\s] matches *)
  isspace : char → bool;
  (** what [\d] matches: the decimal digits of every script *)
  isdecimal : char → bool;
  (** [ch.isalnum()]: with the underscore, what [\w] matches *)
  isalnum : char → bool;
  (** simple case mappings, used by [re.IGNORECASE] *)
  tolower : char → char;
  toupper : char → char;
}.

(** ** The text normaliser *)

Definition ARABIC_DIGITS : list (char * char) :=
  maketrans
    [0x660; 0x661; 0x662; 0x663; 0x664; 0x665; 0x666; 0x667; 0x668; 0x669;
     0x6F0; 0x6F1; 0x6F2; 0x6F3; 0x6F4; 0x6F5; 0x6F6; 0x6F7; 0x6F8; 0x6F9]
    (u "01234567890123456789").

Definition BIDI_MARKS : str :=
  [0x200E; 0x200F; 0x202A; 0x202B; 0x202C; 0x202D; 0x202E].

(** [re.sub(r"[ \t]+", " ", s)]: every maximal run of spaces and tabs
    becomes one space.  [in_run] tells that the previous character was
    already part of the run being replaced. *)
Definition is_blank (ch : char) : bool := (ch =? 0x20) || (ch =? 0x09).

Fixpoint sub_blanks_from (in_run : bool) (s : str) : str :=
  match s with
  | [] => []
  | ch :: s' =>
      if is_blank ch
      then (if in_run then sub_blanks_from true s'
            else 0x20 :: sub_blanks_from true s')
      else ch :: sub_blanks_from false s'
  end.

Definition sub_blanks (s : str) : str := sub_blanks_from false s.

Fixpoint lstrip_by (sp : char → bool) (s : str) : str :=
  match s with
  | [] => []
  | ch :: s' => if sp ch then lstrip_by sp s' else s
  end.

Section Normaliser.
Variable U : unicodedata.

Definition strip_combining (s : str) : str :=
  filter (λ ch, category U ch ≠ "Mn"%string) s.

(** [s.strip()] *)
Definition strip (s : str) : str :=
  reverse (lstrip_by (isspace U) (reverse (lstrip_by (isspace U) s))).

Definition norm_advanced (s : str) : str :=
  match s with
  | [] => []
  | _ =>
      let s := normalize_NFKC U s in
      let s := strip_combining s in
      let s := replace 0xA0 (u " ") s in
      let s := translate ARABIC_DIGITS s in
      let s := foldl (λ s ch, replace ch [] s) s BIDI_MARKS in
      let s := replace 0x5D (u " ") (replace 0x5B (u " ")
                 (replace 0x29 (u " ") (replace 0x28 (u " ")
                   (replace 0x640 (u " ") (replace 0x2014 (u "-")
                     (replace 0x2013 (u "-") (replace 0xFF1A (u ":") s))))))) in
      strip (sub_blanks s)
  end.

End Normaliser.

(** ** Regular expressions

    The part of Python's [re] syntax that the fourteen rules use.  A
    repetition applies to one-character matchers only, as in every rule;
    an optional group is [Opt]. *)

(** A member of a bracketed class. *)
Inductive citem :=
| IChar (c : char)
| IDigit
| ISpace.

(** What matches one character.  [LitIgnore] and [ClassIgnore] are what
    [re.compile] makes of a cased literal and of a class with a cased
    member under [re.IGNORECASE]. *)
Inductive atom :=
| Lit (c : char)
| LitIgnore (lo : char)
| AnyChar
| Digit
| Space
| Class (neg : bool) (items : list citem)
| ClassIgnore (neg : bool) (items : list citem).

Inductive regex :=
| Eps
| One (a : atom)
| Rep (a : atom) (lo : nat) (hi : option nat) (greedy : bool)
| Seq (r1 r2 : regex)
| Alt (r1 r2 : regex)
| Opt (r : regex)
| Group (n : nat) (r : regex)
| WordB
| EndS.

(** Pattern syntax. *)
Definition seqs (rs : list regex) : regex := foldr Seq Eps rs.
Definition chars (s : str) : regex := seqs (List.map (λ c, One (Lit c)) s).
Definition lit (s : string) : regex := chars (u s).
Definition star (a : atom) : regex := Rep a 0 None true.
Definition plus (a : atom) : regex := Rep a 1 None true.
Definition lazy_star (a : atom) : regex := Rep a 0 None false.
Definition maybe (a : atom) : regex := Rep a 0 (Some 1%nat) true.
Definition times (a : atom) (lo hi : nat) : regex := Rep a lo (Some hi) true.
Definition one_of (s : string) : atom := Class false (List.map IChar (u s)).

(** The position of a match attempt: the character just before it (for
    [\b]), the text still to read, and the groups captured so far. *)
Record cursor := {
  before : option char;
  after : str;
  groups : list (nat * str);
}.

(** [m.group(n)]: the text of group [n], [None] when it took no part. *)
Fixpoint group (m : list (nat * str)) (n : nat) : option str :=
  match m with
  | [] => None
  | (i, s) :: m' => if Nat.eqb i n then Some s else group m' n
  end.

Definition may_repeat (hi : option nat) : bool :=
  match hi with
  | Some O => false
  | _ => true
  end.

(** Greedy repetition of a one-character matcher: as many as possible
    first, then one less at a time. *)
Fixpoint rep_greedy {A} (p : char → bool) (lo : nat) (hi : option nat)
    (k : option char → str → option A) (prev : option char) (s : str)
    : option A :=
  let stop := match lo with O => k prev s | S _ => None end in
  match s with
  | ch :: s' =>
      if may_repeat hi && p ch then
        match rep_greedy p (Nat.pred lo) (Nat.pred <$> hi) k (Some ch) s' with
        | Some m => Some m
        | None => stop
        end
      else stop
  | [] => stop
  end.

(** Lazy repetition: as few as possible first. *)
Fixpoint rep_lazy {A} (p : char → bool) (lo : nat) (hi : option nat)
    (k : option char → str → option A) (prev : option char) (s : str)
    : option A :=
  let more :=
    match s with
    | ch :: s' =>
        if may_repeat hi && p ch
        then rep_lazy p (Nat.pred lo) (Nat.pred <$> hi) k (Some ch) s'
        else None
    | [] => None
    end in
  match lo with
  | O => match k prev s with
         | Some m => Some m
         | None => more
         end
  | S _ => more
  end.

(** [$] without [re.MULTILINE]: the end of the text, or just before a
    newline that ends it. *)
Definition at_end (s : str) : bool :=
  match s with
  | [] => true
  | [ch] => ch =? 0x0A
  | _ => false
  end.

Section Regex.
Variable U : unicodedata.

Definition iscased (c : char) : bool :=
  negb (c =? tolower U c) || negb (c =? toupper U c).

Definition item_cased (it : citem) : bool :=
  match it with
  | IChar c => iscased c
  | _ => false
  end.

Definition item_lower (it : citem) : citem :=
  match it with
  | IChar c => IChar (tolower U c)
  | _ => it
  end.

(** What [re.compile] does to a one-character matcher when the flag
    [re.IGNORECASE] is given.  None of the letters of the rules is in the
    table of extra case equivalences that the compiler also consults. *)
Definition ignorecase_atom (a : atom) : atom :=
  match a with
  | Lit c => if iscased c then LitIgnore (tolower U c) else Lit c
  | Class neg items =>
      if existsb item_cased items
      then ClassIgnore neg (List.map item_lower items)
      else Class neg items
  | _ => a
  end.

Fixpoint ignorecase (r : regex) : regex :=
  match r with
  | One a => One (ignorecase_atom a)
  | Rep a lo hi greedy => Rep (ignorecase_atom a) lo hi greedy
  | Seq r1 r2 => Seq (ignorecase r1) (ignorecase r2)
  | Alt r1 r2 => Alt (ignorecase r1) (ignorecase r2)
  | Opt r1 => Opt (ignorecase r1)
  | Group n r1 => Group n (ignorecase r1)
  | _ => r
  end.

Inductive flag := NOFLAG | IGNORECASE.

Definition re_compile (r : regex) (f : flag) : regex :=
  match f with
  | NOFLAG => r
  | IGNORECASE => ignorecase r
  end.

Definition item_match (it : citem) (ch : char) : bool :=
  match it with
  | IChar c => ch =? c
  | IDigit => isdecimal U ch
  | ISpace => isspace U ch
  end.

Definition atom_match (a : atom) (ch : char) : bool :=
  match a with
  | Lit c => ch =? c
  | LitIgnore lo => tolower U ch =? lo
  | AnyChar => negb (ch =? 0x0A)
  | Digit => isdecimal U ch
  | Space => isspace U ch
  | Class neg items => xorb neg (existsb (λ it, item_match it ch) items)
  | ClassIgnore neg items =>
      xorb neg (existsb (λ it, item_match it (tolower U ch)) items)
  end.

(** [\w] and [\b]. *)
Definition is_word (ch : char) : bool := isalnum U ch || (ch =? 0x5F).

Definition at_boundary (prev : option char) (s : str) : bool :=
  xorb (from_option is_word false prev) (from_option is_word false (head s)).

(** The backtracking matcher: [rmatch r k c] matches [r] at [c] and hands
    the position reached to [k]; when [k] fails the next way of matching
    [r] is tried, in the order of Python's engine. *)
Fixpoint rmatch {A} (r : regex) (k : cursor → option A) (c : cursor)
    : option A :=
  match r with
  | Eps => k c
  | One a =>
      match after c with
      | ch :: s' =>
          if atom_match a ch
          then k {| before := Some ch; after := s'; groups := groups c |}
          else None
      | [] => None
      end
  | Rep a lo hi greedy =>
      (if greedy then rep_greedy else rep_lazy) (atom_match a) lo hi
        (λ prev s, k {| before := prev; after := s; groups := groups c |})
        (before c) (after c)
  | Seq r1 r2 => rmatch r1 (rmatch r2 k) c
  | Alt r1 r2 =>
      match rmatch r1 k c with
      | Some m => Some m
      | None => rmatch r2 k c
      end
  | Opt r1 =>
      match rmatch r1 k c with
      | Some m => Some m
      | None => k c
      end
  | Group n r1 =>
      rmatch r1
        (λ c', k {| before := before c'; after := after c';
                    groups := (n, take (length (after c) - length (after c'))
                                       (after c)) :: groups c' |})
        c
  | WordB => if at_boundary (before c) (after c) then k c else None
  | EndS => if at_end (after c) then k c else None
  end.

Definition match_at (r : regex) (prev : option char) (s : str)
    : option (list (nat * str)) :=
  rmatch r (λ c, Some (groups c))
    {| before := prev; after := s; groups := [] |}.

(** [pattern.search(text)]: the match at the first position that has
    one. *)
Fixpoint search_from (r : regex) (prev : option char) (s : str)
    : option (list (nat * str)) :=
  match match_at r prev s with
  | Some m => Some m
  | None =>
      match s with
      | [] => None
      | ch :: s' => search_from r (Some ch) s'
      end
  end.

Definition search (r : regex) (text : str) : option (list (nat * str)) :=
  search_from r None text.

(** ** The rules

    Each pattern is written as [re.compile] reads it; its Python text
    stands above it.  Arabic letters are given by their code points. *)

Definition digits (lo hi : nat) : regex := times Digit lo hi.

(** [\d{1,2}/\d{1,2}/\d{4}] *)
Definition date : regex :=
  seqs [digits 1 2; lit "/"; digits 1 2; lit "/"; digits 4 4].

(** [\bpo(?:\s*no\.?| reference)?\s*[:#/\-]?\s*(\d{4,6})]
    then the optional group [(?:[^\d\s]* )?] (written here with a space
    before its closing parenthesis), then [(?:\s*[-/]\s*(\d{4,6}))?\b],
    IGNORECASE *)
Definition RX_PO_PREFIX : regex :=
  re_compile
    (seqs [WordB; lit "po";
           Opt (Alt (seqs [star Space; lit "no"; maybe (Lit 0x2E)])
                    (lit " reference"));
           star Space; maybe (one_of ":#/-"); star Space;
           Group 1 (digits 4 6);
           Opt (star (Class true [IDigit; ISpace]));
           Opt (seqs [star Space; One (one_of "-/"); star Space;
                      Group 2 (digits 4 6)]);
           WordB])
    IGNORECASE.

(** [(?:\bcode\b|KAF WAW DAL)\s*[/:\-]?\s*(?:no\.?|number)?\s*(\d{4,6})],
    IGNORECASE *)
Definition RX_CODE_ANCHOR_LINE : regex :=
  re_compile
    (seqs [Alt (seqs [WordB; lit "code"; WordB])
               (chars [0x643; 0x648; 0x62F]);
           star Space; maybe (one_of "/:-"); star Space;
           Opt (Alt (seqs [lit "no"; maybe (Lit 0x2E)]) (lit "number"));
           star Space;
           Group 1 (digits 4 6)])
    IGNORECASE.

(** [(?:\bDAL\.?\s* )(\d{4,6})] (again with a space before the first
    closing parenthesis) *)
Definition RX_ARABIC_D_PREFIX : regex :=
  re_compile
    (seqs [WordB; chars [0x62F]; maybe (Lit 0x2E); star Space;
           Group 1 (digits 4 6)])
    NOFLAG.

(** [(\d{4,6})\s*DAL\.] *)
Definition RX_ARABIC_D_SUFFIX : regex :=
  re_compile
    (seqs [Group 1 (digits 4 6); star Space; chars [0x62F]; lit "."])
    NOFLAG.

(** [\bPO\s*/\s*(\d{4,6})\b], IGNORECASE *)
Definition RX_PO_SLASH : regex :=
  re_compile
    (seqs [WordB; lit "PO"; star Space; lit "/"; star Space;
           Group 1 (digits 4 6); WordB])
    IGNORECASE.

(** [\bpo\s*/\s*(\d{4,6})\b], IGNORECASE *)
Definition RX_PO_FORWARD_SLASH : regex :=
  re_compile
    (seqs [WordB; lit "po"; star Space; lit "/"; star Space;
           Group 1 (digits 4 6); WordB])
    IGNORECASE.

(** [\bPO\s*NUM\s*:\s*(\d{4,6})\b], IGNORECASE *)
Definition RX_PO_NUM_COLON : regex :=
  re_compile
    (seqs [WordB; lit "PO"; star Space; lit "NUM"; star Space; lit ":";
           star Space; Group 1 (digits 4 6); WordB])
    IGNORECASE.

(** [\((?:[^)]*?)(\d{4,6})(?:[^)]*?)\)] *)
Definition RX_PARENTHESES_NUM : regex :=
  re_compile
    (seqs [lit "("; lazy_star (Class true [IChar 0x29]);
           Group 1 (digits 4 6);
           lazy_star (Class true [IChar 0x29]); lit ")"])
    NOFLAG.

(** [\(.*?(\d{4,6})\s*\)$] *)
Definition RX_PARENTHESES_NUM_END : regex :=
  re_compile
    (seqs [lit "("; lazy_star AnyChar; Group 1 (digits 4 6); star Space;
           lit ")"; EndS])
    NOFLAG.

(** [taxpayer\s*name\s*[:#]?\s*(\d{4,6})], IGNORECASE *)
Definition RX_TAXPAYER_NAME_NUM : regex :=
  re_compile
    (seqs [lit "taxpayer"; star Space; lit "name"; star Space;
           maybe (one_of ":#"); star Space; Group 1 (digits 4 6)])
    IGNORECASE.

(** [\b(\d{4,6})\s+\d{1,2}/\d{1,2}/\d{4}\b] *)
Definition RX_NUM_DATE : regex :=
  re_compile
    (seqs [WordB; Group 1 (digits 4 6); plus Space; date; WordB])
    NOFLAG.

(** [\b(\d{6})\d{1,2}/\d{1,2}/\d{4}\b] *)
Definition RX_NUM_CONCAT_DATE : regex :=
  re_compile
    (seqs [WordB; Group 1 (digits 6 6); date; WordB])
    NOFLAG.

(** [\b(\d{6})\s*$] *)
Definition RX_STANDALONE_6DIGIT : regex :=
  re_compile
    (seqs [WordB; Group 1 (digits 6 6); star Space; EndS])
    NOFLAG.

(** [WAW JEEM BEH ALEF TEH\s*GHAIN THAL ALEF YEH-WITH-HAMZA YEH[HEH
    TEH-MARBUTA]\s+(?:DAL\.\s* )?(\d{4,6})], IGNORECASE *)
Definition RX_ARABIC_MEALS_NUM : regex :=
  re_compile
    (seqs [chars [0x648; 0x62C; 0x628; 0x627; 0x62A]; star Space;
           chars [0x63A; 0x630; 0x627; 0x626; 0x64A];
           One (Class false [IChar 0x647; IChar 0x629]); plus Space;
           Opt (seqs [chars [0x62F]; lit "."; star Space]);
           Group 1 (digits 4 6)])
    IGNORECASE.

(** ** The extractor *)

Definition patterns : list (string * regex) :=
  [("arabic-meals", RX_ARABIC_MEALS_NUM);
   ("po-num-colon", RX_PO_NUM_COLON);
   ("po-forward-slash", RX_PO_FORWARD_SLASH);
   ("num-concat-date", RX_NUM_CONCAT_DATE);
   ("num-date", RX_NUM_DATE);
   ("standalone-6digit", RX_STANDALONE_6DIGIT);
   ("po-slash", RX_PO_SLASH);
   ("taxpayer-name-num", RX_TAXPAYER_NAME_NUM);
   ("parentheses-end", RX_PARENTHESES_NUM_END);
   ("parentheses", RX_PARENTHESES_NUM);
   ("po-prefix", RX_PO_PREFIX);
   ("code-anchor", RX_CODE_ANCHOR_LINE);
   ("arabic-d-prefix", RX_ARABIC_D_PREFIX);
   ("arabic-d-suffix", RX_ARABIC_D_SUFFIX)]%string.

(** The [for] loop over the rules, with its early [return].  Group 1 takes
    part in every match of every rule ([group1_of_rule] below), so the
    default of [match.group(1)] is never used. *)
Fixpoint first_match (ps : list (string * regex)) (normalized_text : str)
    : str * str * str :=
  match ps with
  | [] => (u "", u "", u "no PO found")
  | (pattern_name, pattern) :: ps' =>
      match search pattern normalized_text with
      | Some m =>
          let po_number := default [] (group m 1) in
          (po_number, u "json (" ++ u pattern_name ++ u ")", u "")
      | None => first_match ps' normalized_text
      end
  end.

Definition advanced_po_extraction_v48 (text : str) : str * str * str :=
  match text with
  | [] => (u "", u "", u "no PO found")
  | _ =>
      let normalized_text := norm_advanced U text in
      first_match patterns normalized_text
  end.

End Regex.

(** ** JSON values and the Python operations on them

    The values that [json.load] builds: [None], [bool], [int], [float],
    [str], [list] and [dict].  A [dict] keeps its members in insertion
    order, as Python's does; lookups go by key. *)

Inductive number :=
| Int (z : Z)
| Float (f : float).

Local Unset Elimination Schemes.
Inductive json :=
| JNull
| JBool (b : bool)
| JNum (n : number)
| JStr (s : str)
| JArr (items : list json)
| JObj (members : list (str * json)).
Local Set Elimination Schemes.

(** The exceptions that the two record walkers can meet, by what raised
    them.  [JSONDecodeError msg doc pos] is the one of [json.loads]; the
    others say which operation was refused on which value. *)
Inductive exn :=
| JSONDecodeError (msg : string) (doc : str) (pos : nat)
| NotAContainer (v : json)        (** [k in v]: TypeError *)
| NotIterable (v : json)          (** [for x in v]: TypeError *)
| NotSubscriptable (v : json)     (** [v[k]]: TypeError *)
| BadIndex (v : json)             (** [v[k]], [v] a str or a list: TypeError *)
| KeyError (k : str)              (** [v[k]], [v] a dict without [k] *)
| NoAttribute (v : json) (attr : string)  (** [v.get]: AttributeError *)
| JoinItem (i : nat) (v : json)   (** [sep.join]: TypeError *)
| OtherError (msg : str).         (** anything else the runtime raises *)

Inductive result (A : Type) :=
| Ok (a : A)
| Raise (e : exn).
Arguments Ok {A} a.
Arguments Raise {A} e.

#[global] Instance result_ret : MRet result := λ A a, Ok a.
#[global] Instance result_bind : MBind result :=
  λ A B f m, match m with Ok a => f a | Raise e => Raise e end.

(** What the program takes from the Python runtime besides the character
    database. *)
Record runtime := {
  (** [json.loads(s)] *)
  json_loads : str → result json;
  (** what an f-string writes for [{v}] *)
  format_value : json → str;
  (** [str(e)] *)
  str_exn : exn → str;
}.

(** [d.get(k)] on the members of a dict. *)
Fixpoint dict_get (d : list (str * json)) (k : str) : option json :=
  match d with
  | [] => None
  | (k', v) :: d' => if bool_decide (k' = k) then Some v else dict_get d' k
  end.

(** [d[k] = v]: the member is replaced where it stands, or added last. *)
Fixpoint dict_set (d : list (str * json)) (k : str) (v : json)
    : list (str * json) :=
  match d with
  | [] => [(k, v)]
  | (k', v') :: d' =>
      if bool_decide (k' = k) then (k, v) :: d' else (k', v') :: dict_set d' k v
  end.

Definition is_str (v : json) (s : str) : bool :=
  match v with
  | JStr s' => bool_decide (s' = s)
  | _ => false
  end.

(** [k in v] for a str [k]. *)
Definition py_in (k : str) (v : json) : result bool :=
  match v with
  | JObj d => Ok (bool_decide (is_Some (dict_get d k)))
  | JArr items => Ok (existsb (λ x, is_str x k) items)
  | JStr s => Ok (contains_substring s k)
  | _ => Raise (NotAContainer v)
  end.

(** [v[k]] for a str [k]. *)
Definition py_getitem (v : json) (k : str) : result json :=
  match v with
  | JObj d =>
      match dict_get d k with
      | Some x => Ok x
      | None => Raise (KeyError k)
      end
  | JArr _ | JStr _ => Raise (BadIndex v)
  | _ => Raise (NotSubscriptable v)
  end.

(** [v.get(k, "")] *)
Definition py_get (v : json) (k : str) : result json :=
  match v with
  | JObj d => Ok (default (JStr []) (dict_get d k))
  | _ => Raise (NoAttribute v "get")
  end.

(** What [for x in v] goes through. *)
Definition py_iter (v : json) : result (list json) :=
  match v with
  | JArr items => Ok items
  | JObj d => Ok (List.map (λ kv, JStr kv.1) d)
  | JStr s => Ok (List.map (λ ch, JStr [ch]) s)
  | _ => Raise (NotIterable v)
  end.

(** [sep.join(parts)]: every part must be a str. *)
Fixpoint strs_from (i : nat) (parts : list json) : result (list str) :=
  match parts with
  | [] => Ok []
  | JStr s :: parts' => ss ← strs_from (S i) parts'; mret (s :: ss)
  | v :: _ => Raise (JoinItem i v)
  end.

Definition py_join (sep : str) (parts : list json) : result str :=
  ss ← strs_from 0 parts; mret (join sep ss).

(** The loop that both walkers run over [doc['invoiceLines']]:
    [[
      for line in doc['invoiceLines']:
          if 'description' in line:
              descriptions.append(line['description'])
    ]] *)
Fixpoint line_descriptions (lines : list json) : result (list json) :=
  match lines with
  | [] => Ok []
  | line :: lines' =>
      has ← py_in (u "description") line;
      d ← (if has : bool
           then x ← py_getitem line (u "description"); mret [x]
           else mret []);
      ds ← line_descriptions lines';
      mret (d ++ ds)
  end.

Definition invoice_line_descriptions (doc : json) : result (list json) :=
  has ← py_in (u "invoiceLines") doc;
  if has : bool
  then lines ← py_getitem doc (u "invoiceLines") ≫= py_iter;
       line_descriptions lines
  else mret [].

(** A [try] block that fills [fields]: the dict as it stands when the
    block ends or raises, and how it ended. *)
Definition block (A : Type) : Type :=
  gmap str json → gmap str json * result A.

#[global] Instance block_ret : MRet block := λ A a fields, (fields, Ok a).
#[global] Instance block_bind : MBind block :=
  λ A B f m fields,
    match m fields with
    | (fields', Ok a) => f a fields'
    | (fields', Raise e) => (fields', Raise e)
    end.

Definition eval {A} (r : result A) : block A := λ fields, (fields, r).

(** [fields[k] = v] *)
Definition store (k : string) (v : json) : block unit :=
  λ fields, (<[u k := v]> fields, Ok ()).

(** [try: body  except Exception: pass] *)
Definition try_pass (body : block unit) (fields : gmap str json)
    : gmap str json :=
  (body fields).1.

Section Walkers.
Variable U : unicodedata.
Variable P : runtime.

(** [json.loads(x) if isinstance(x, str) else x] *)
Definition load_document (x : json) : result json :=
  match x with
  | JStr s => json_loads P s
  | _ => Ok x
  end.

(** The body of the [try] of [extract_po_from_json] up to [full_text]. *)
Definition combined_text (json_data : json) : result str :=
  has ← py_in (u "document") json_data;
  text_parts ←
    (if has : bool
     then doc ← py_getitem json_data (u "document") ≫= load_document;
          invoice_line_descriptions doc
     else mret []);
  has ← py_in (u "issuerName") json_data;
  text_parts ←
    (if has : bool
     then x ← py_getitem json_data (u "issuerName"); mret (text_parts ++ [x])
     else mret text_parts);
  has ← py_in (u "receiverName") json_data;
  text_parts ←
    (if has : bool
     then x ← py_getitem json_data (u "receiverName");
          mret (text_parts ++ [x])
     else mret text_parts);
  has ← py_in (u "internalId") json_data;
  text_parts ←
    (if has : bool
     then x ← py_getitem json_data (u "internalId");
          mret (text_parts ++ [JStr (u "Internal ID: " ++ format_value P x)])
     else mret text_parts);
  py_join (u (String "010" "")) text_parts.

Definition extract_po_from_json (json_data : json) : str * str * str :=
  match combined_text json_data with
  | Ok full_text => advanced_po_extraction_v48 U full_text
  | Raise e => (u "", u "", u "extraction error: " ++ str_exn P e)
  end.

(** The f-string of the four address parts. *)
Definition format_address (addr : json) : result str :=
  street ← py_get addr (u "street");
  buildingNumber ← py_get addr (u "buildingNumber");
  regionCity ← py_get addr (u "regionCity");
  governate ← py_get addr (u "governate");
  mret (format_value P street ++ u " " ++ format_value P buildingNumber
        ++ u " " ++ format_value P regionCity ++ u " "
        ++ format_value P governate).

(** [if party in doc and 'address' in doc[party]: ...] *)
Definition store_address (doc : json) (party field : string) : block unit :=
  has ← eval (py_in (u party) doc);
  has ← (if has : bool
         then eval (py_getitem doc (u party) ≫= py_in (u "address"))
         else mret false);
  if has : bool
  then addr ← eval (py_getitem doc (u party) ≫= λ x, py_getitem x (u "address"));
       text ← eval (format_address addr);
       store field (JStr text)
  else mret ().

(** The inner [try] of [parse_json_fields]. *)
Definition document_details (json_data : json) : block unit :=
  doc ← eval (py_getitem json_data (u "document") ≫= load_document);
  x ← eval (py_get doc (u "documentType")); store "documentType" x;;
  x ← eval (py_get doc (u "documentTypeVersion"));
  store "documentTypeVersion" x;;
  x ← eval (py_get doc (u "taxpayerActivityCode"));
  store "taxpayerActivityCode" x;;
  descriptions ← eval (invoice_line_descriptions doc);
  text ← eval (py_join (u "; ") descriptions);
  store "descriptions" (JStr text);;
  store_address doc "issuer" "issuer_address";;
  store_address doc "receiver" "receiver_address".

Definition parse_json_fields (json_data : json) : gmap str json :=
  match json_data with
  | JObj d =>
      let get k := default (JStr []) (dict_get d (u k)) in
      let fields : gmap str json := ∅ in
      let fields := <[u "filename" := JStr (u "JSON_DATA")]> fields in
      let fields := <[u "STATUS" := get "status"]> fields in
      let fields := <[u "uuid" := get "uuid"]> fields in
      let fields := <[u "internalId" := get "internalId"]> fields in
      let fields := <[u "typeName" := get "typeName"]> fields in
      let fields := <[u "issuerId" := get "issuerId"]> fields in
      let fields := <[u "issuerName" := get "issuerName"]> fields in
      let fields := <[u "receiverId" := get "receiverId"]> fields in
      let fields := <[u "receiverName" := get "receiverName"]> fields in
      let fields := <[u "dateTimeIssued" := get "dateTimeIssued"]> fields in
      let fields := <[u "dateTimeReceived" := get "dateTimeReceived"]> fields in
      let fields :=
        <[u "serviceDeliveryDate" := get "serviceDeliveryDate"]> fields in
      let fields := <[u "totalSales" := get "totalSales"]> fields in
      let fields := <[u "totalDiscount" := get "totalDiscount"]> fields in
      let fields := <[u "netAmount" := get "netAmount"]> fields in
      let fields := <[u "total" := get "total"]> fields in
      let fields :=
        if bool_decide (is_Some (dict_get d (u "document")))
        then try_pass (document_details json_data) fields
        else fields in
      let '(po_number, po_source, po_note) := extract_po_from_json json_data in
      let fields := <[u "PO number" := JStr po_number]> fields in
      let fields := <[u "PO source" := JStr po_source]> fields in
      let fields := <[u "PO note" := JStr po_note]> fields in
      fields
  | _ =>
      (* [json_data.get] raises AttributeError, which the outer [except]
         turns into the error mapping *)
      {[ u "error" := JStr (str_exn P (NoAttribute json_data "get")) ]}
  end.

End Walkers.

(** ** The report of [main]

    What [main] does with a JSON value once the button is pressed: the
    mapping of [parse_json_fields], the six groups of labelled values,
    the lines of the tabs and the rows of the table for download.  The
    widgets that show them, and the files made of the table, are left
    out. *)

(** [bool(v)], which [if v] and [not v] test. *)
Definition truthy (v : json) : bool :=
  match v with
  | JNull => false
  | JBool b => b
  | JNum (Int z) => negb (z =? 0)%Z
  | JNum (Float f) => negb (PrimFloat.eqb f 0%float)
  | JStr s => match s with [] => false | _ => true end
  | JArr items => match items with [] => false | _ => true end
  | JObj members => match members with [] => false | _ => true end
  end.

(** What [dt.strftime] gives: a str when [dt] is one date, and an
    [Index] of pandas when [dt] holds the dates of a list. *)
Inductive formatted :=
| Text (s : str)
| Labels (labels : list json).

(** What [main] and [format_datetime] take from pandas. *)
Record pandas := {
  (** [pd.to_datetime(x).strftime("%Y-%m-%d %H:%M:%S")] *)
  strftime : json → result formatted;
  (** [bool(index)], which pandas refuses: the exception that it raises *)
  index_bool : exn;
  (** [str(index)] *)
  index_str : list json → str;
}.

(** A value of the report: one that came with the record, or an [Index]
    that [format_datetime] returned. *)
Inductive value :=
| Plain (v : json)
| Index (labels : list json).

Definition format_datetime (D : pandas) (dt_str : json) : value :=
  if truthy dt_str then
    match strftime D dt_str with
    | Ok (Text s) => Plain (JStr s)
    | Ok (Labels labels) => Index labels
    | Raise _ => Plain dt_str
    end
  else Plain (JStr (u "")).

(** [bool(v)] and [str(v)] for a value of the report. *)
Definition truth (D : pandas) (v : value) : result bool :=
  match v with
  | Plain j => Ok (truthy j)
  | Index _ => Raise (index_bool D)
  end.

Definition str_value (P : runtime) (D : pandas) (v : value) : str :=
  match v with
  | Plain j => format_value P j
  | Index labels => index_str D labels
  end.

Definition is_plain (v : value) : bool :=
  match v with
  | Plain _ => true
  | Index _ => false
  end.

(** [fields.get(k, "")] *)
Definition fields_get (fields : gmap str json) (k : string) : json :=
  default (JStr (u "")) (fields !! u k).

(** A row of the table: the dict with "Field", "Value" and "Category". *)
Record row := {
  Field : str;
  Value : json;
  Category : str;
}.

(** How the run ends: with the results, with the error message, or with
    an exception that nothing catches. *)
Inductive outcome :=
| Results (po_found : str) (tabs : list (list (string * value)))
    (df_data : list row)
| ErrorShown (msg : str)
| Uncaught (e : exn).

Section Report.
Variable U : unicodedata.
Variable P : runtime.
Variable D : pandas.

Definition basic_info (fields : gmap str json) : list (string * json) :=
  [("UUID", fields_get fields "uuid");
   ("Internal ID", fields_get fields "internalId");
   ("Status", fields_get fields "STATUS");
   ("Document Type", fields_get fields "documentType");
   ("Type Name", fields_get fields "typeName")]%string.

Definition parties_info (fields : gmap str json) : list (string * json) :=
  [("Issuer ID", fields_get fields "issuerId");
   ("Issuer Name", fields_get fields "issuerName");
   ("Issuer Address", fields_get fields "issuer_address");
   ("Receiver ID", fields_get fields "receiverId");
   ("Receiver Name", fields_get fields "receiverName");
   ("Receiver Address", fields_get fields "receiver_address")]%string.

Definition dates_info (fields : gmap str json) : list (string * value) :=
  [("Date Issued", format_datetime D (fields_get fields "dateTimeIssued"));
   ("Date Received", format_datetime D (fields_get fields "dateTimeReceived"));
   ("Service Delivery Date",
    format_datetime D (fields_get fields "serviceDeliveryDate"))]%string.

Definition financial_info (fields : gmap str json) : list (string * json) :=
  [("Total Sales", fields_get fields "totalSales");
   ("Total Discount", fields_get fields "totalDiscount");
   ("Net Amount", fields_get fields "netAmount");
   ("Total Amount", fields_get fields "total")]%string.

Definition po_info (fields : gmap str json) : list (string * json) :=
  [("PO Number", fields_get fields "PO number");
   ("PO Source", fields_get fields "PO source");
   ("PO Note", fields_get fields "PO note")]%string.

Definition other_info (fields : gmap str json) : list (string * json) :=
  [("Taxpayer Activity Code", fields_get fields "taxpayerActivityCode");
   ("Descriptions", fields_get fields "descriptions")]%string.

(** A group whose values came with the record. *)
Definition plain (info : list (string * json)) : list (string * value) :=
  (λ kv : string * json, (kv.1, Plain kv.2)) <$> info.

Definition categories (fields : gmap str json)
    : list (string * list (string * value)) :=
  [("Basic", plain (basic_info fields));
   ("Parties", plain (parties_info fields));
   ("Dates", dates_info fields);
   ("Financial", plain (financial_info fields));
   ("PO Details", plain (po_info fields));
   ("Other", plain (other_info fields))]%string.

(** The lines of a tab: [if value: st.write(...)] for each value in
    turn. *)
Fixpoint tab_lines (info : list (string * value))
    : result (list (string * value)) :=
  match info with
  | [] => mret []
  | kv :: info' =>
      shown ← truth D kv.2;
      lines ← tab_lines info';
      mret (if shown : bool then kv :: lines else lines)
  end.

(** The rows of the table; [str(value)] is what an f-string writes for
    [{value}] when the value came with the record. *)
Definition df_data (fields : gmap str json) : list row :=
  {| Field := u "UUID"; Value := fields_get fields "uuid";
     Category := u "Basic" |}
  :: (categories fields ≫= λ ci,
        (λ kv : string * value,
           {| Field := u kv.1; Value := JStr (str_value P D kv.2);
              Category := u ci.1 |}) <$> ci.2).

(** The metric "PO Number Found". *)
Definition po_found (fields : gmap str json) : str :=
  if truthy (fields_get fields "PO number") then u "Yes" else u "No".

(** [main] from [if json_data is not None] on, with the button pressed,
    up to the table [df]: the six tabs are filled one after the other,
    then the rows of the table are made. *)
Definition main (json_data : json) : option outcome :=
  match json_data with
  | JNull => None
  | _ =>
      let fields := parse_json_fields U P json_data in
      Some match fields !! u "error" with
           | None =>
               match mapM tab_lines (snd <$> categories fields) with
               | Ok tabs => Results (po_found fields) tabs (df_data fields)
               | Raise e => Uncaught e
               end
           | Some e =>
               ErrorShown (u "Error processing JSON: " ++ format_value P e)
           end
  end.

End Report.

(** ** The login

    [save_to_google_sheets] and [show_login_popup].  The network and the
    clock are functions of a record; what the user does with the form
    (the button, the two text inputs) is the input of one run of the
    script, [st.session_state] is a mapping that goes from one run to the
    next, and the requests that a run sends are part of its result.  The
    messages on the page are left out. *)

(** The answer to a request: [response.status_code] and
    [response.json()]. *)
Record response := {
  status_code : Z;
  response_json : result json;
}.

(** A request [requests.post(url, json=data, timeout=10)]. *)
Record request := {
  url : str;
  data : list (str * json);
}.

Record network := {
  (** the answer to a request, or the exception that it raises *)
  requests_post : request → result response;
  (** [datetime.now().strftime("%Y-%m-%d %H:%M:%S")] *)
  now : str;
}.

Definition web_app_url : str :=
  u "https://script.google.com/macros/s/AKfycbwQ909UHv_3oRim9UdOz9LJQmLW-qGR-XCFf5QH-7doo5gz7U2YCwKMYCgWDfeUvR23/exec".

(** [v.get(k, default)] *)
Definition py_get_or (v : json) (k : str) (dflt : json) : result json :=
  match v with
  | JObj d => Ok (default dflt (dict_get d k))
  | _ => Raise (NoAttribute v "get")
  end.

(** The value returned and the request sent. *)
Definition save_to_google_sheets (N : network) (email password : str)
    : json * list request :=
  let data := [(u "user", JStr email); (u "pass", JStr password);
               (u "time", JStr (now N))] in
  let sent := {| url := web_app_url; data := data |} in
  let returned :=
    response ← requests_post N sent;
    if (status_code response =? 200)%Z
    then result ← response_json response;
         py_get_or result (u "success") (JBool false)
    else mret (JBool false) in
  (match returned with
   | Ok v => v
   | Raise _ => JBool false
   end, [sent]).

(** The form as the user leaves it in one run. *)
Record login_form := {
  login_button : bool;
  email : str;
  password : str;
}.

(** How a run of [show_login_popup] ends: with a value, or with
    [st.rerun()], which stops the run and starts the script again. *)
Inductive flow :=
| Returned (b : bool)
| Rerun.

Definition show_login_popup (N : network) (session_state : gmap str json)
    (form : login_form) : gmap str json * list request * flow :=
  let session_state :=
    match session_state !! u "authenticated" with
    | None => <[u "authenticated" := JBool false]> session_state
    | Some _ => session_state
    end in
  if negb (truthy (default JNull (session_state !! u "authenticated"))) then
    if login_button form then
      if truthy (JStr (email form)) && truthy (JStr (password form)) then
        let session_state :=
          <[u "user_email" := JStr (email form)]> session_state in
        let session_state :=
          <[u "user_password" := JStr (password form)]> session_state in
        let session_state :=
          <[u "authenticated" := JBool true]> session_state in
        let '(saved, sent) :=
          save_to_google_sheets N (email form) (password form) in
        (session_state, sent, Rerun)
      else (session_state, [], Returned false)
    else (session_state, [], Returned false)
  else (session_state, [], Returned true).

(** ** A sample of the Python runtime

    The character database on a few blocks, with the values of Unicode
    14.0.0 (the version of CPython 3.11): Basic Latin and the C1 controls,
    the no-break space, Arabic, the Devanagari digits, Hangul Jamo and
    Hangul Syllables, the spaces, dashes and directional marks of General
    Punctuation, the ideographic space and the fullwidth forms of ASCII.
    The blocks are closed under NFKC; every other code point stands as an
    unassigned one.  The examples take their characters from these
    blocks. *)

Fixpoint range_get {A} (table : list (N * N * A)) (c : char) : option A :=
  match table with
  | [] => None
  | (lo, hi, a) :: table' =>
      if (lo <=? c) && (c <=? hi) then Some a else range_get table' c
  end.

Definition sample_categories : list (N * N * string) :=
  [ (0x0, 0x1F, "Cc"); (0x20, 0x20, "Zs"); (0x21, 0x23, "Po");
    (0x24, 0x24, "Sc"); (0x25, 0x27, "Po"); (0x28, 0x28, "Ps");
    (0x29, 0x29, "Pe"); (0x2A, 0x2A, "Po"); (0x2B, 0x2B, "Sm");
    (0x2C, 0x2C, "Po"); (0x2D, 0x2D, "Pd"); (0x2E, 0x2F, "Po");
    (0x30, 0x39, "Nd"); (0x3A, 0x3B, "Po"); (0x3C, 0x3E, "Sm");
    (0x3F, 0x40, "Po"); (0x41, 0x5A, "Lu"); (0x5B, 0x5B, "Ps");
    (0x5C, 0x5C, "Po"); (0x5D, 0x5D, "Pe"); (0x5E, 0x5E, "Sk");
    (0x5F, 0x5F, "Pc"); (0x60, 0x60, "Sk"); (0x61, 0x7A, "Ll");
    (0x7B, 0x7B, "Ps"); (0x7C, 0x7C, "Sm"); (0x7D, 0x7D, "Pe");
    (0x7E, 0x7E, "Sm"); (0x7F, 0x9F, "Cc"); (0xA0, 0xA0, "Zs");
    (0x600, 0x605, "Cf"); (0x606, 0x608, "Sm"); (0x609, 0x60A, "Po");
    (0x60B, 0x60B, "Sc"); (0x60C, 0x60D, "Po"); (0x60E, 0x60F, "So");
    (0x610, 0x61A, "Mn"); (0x61B, 0x61B, "Po"); (0x61C, 0x61C, "Cf");
    (0x61D, 0x61F, "Po"); (0x620, 0x63F, "Lo"); (0x640, 0x640, "Lm");
    (0x641, 0x64A, "Lo"); (0x64B, 0x65F, "Mn"); (0x660, 0x669, "Nd");
    (0x66A, 0x66D, "Po"); (0x66E, 0x66F, "Lo"); (0x670, 0x670, "Mn");
    (0x671, 0x6D3, "Lo"); (0x6D4, 0x6D4, "Po"); (0x6D5, 0x6D5, "Lo");
    (0x6D6, 0x6DC, "Mn"); (0x6DD, 0x6DD, "Cf"); (0x6DE, 0x6DE, "So");
    (0x6DF, 0x6E4, "Mn"); (0x6E5, 0x6E6, "Lm"); (0x6E7, 0x6E8, "Mn");
    (0x6E9, 0x6E9, "So"); (0x6EA, 0x6ED, "Mn"); (0x6EE, 0x6EF, "Lo");
    (0x6F0, 0x6F9, "Nd"); (0x6FA, 0x6FC, "Lo"); (0x6FD, 0x6FE, "So");
    (0x6FF, 0x6FF, "Lo"); (0x966, 0x96F, "Nd"); (0x1100, 0x11FF, "Lo");
    (0x1680, 0x1680, "Zs"); (0x2000, 0x200A, "Zs"); (0x200B, 0x200F, "Cf");
    (0x2010, 0x2015, "Pd"); (0x2028, 0x2028, "Zl"); (0x2029, 0x2029, "Zp");
    (0x202A, 0x202E, "Cf"); (0x202F, 0x202F, "Zs"); (0x205F, 0x205F, "Zs");
    (0x3000, 0x3000, "Zs"); (0xAC00, 0xD7A3, "Lo"); (0xFF01, 0xFF03, "Po");
    (0xFF04, 0xFF04, "Sc"); (0xFF05, 0xFF07, "Po"); (0xFF08, 0xFF08, "Ps");
    (0xFF09, 0xFF09, "Pe"); (0xFF0A, 0xFF0A, "Po"); (0xFF0B, 0xFF0B, "Sm");
    (0xFF0C, 0xFF0C, "Po"); (0xFF0D, 0xFF0D, "Pd"); (0xFF0E, 0xFF0F, "Po");
    (0xFF10, 0xFF19, "Nd"); (0xFF1A, 0xFF1B, "Po"); (0xFF1C, 0xFF1E, "Sm");
    (0xFF1F, 0xFF20, "Po"); (0xFF21, 0xFF3A, "Lu"); (0xFF3B, 0xFF3B, "Ps");
    (0xFF3C, 0xFF3C, "Po"); (0xFF3D, 0xFF3D, "Pe"); (0xFF3E, 0xFF3E, "Sk");
    (0xFF3F, 0xFF3F, "Pc"); (0xFF40, 0xFF40, "Sk"); (0xFF41, 0xFF5A, "Ll");
    (0xFF5B, 0xFF5B, "Ps"); (0xFF5C, 0xFF5C, "Sm"); (0xFF5D, 0xFF5D, "Pe");
    (0xFF5E, 0xFF5E, "Sm") ]%string.

Definition sample_category (c : char) : string :=
  default "Cn"%string (range_get sample_categories c).

(** Canonical combining classes other than 0. *)
Definition sample_combining : list (N * N * N) :=
  [ (0x610, 0x617, 230); (0x618, 0x618, 30); (0x619, 0x619, 31);
    (0x61A, 0x61A, 32); (0x64B, 0x64B, 27); (0x64C, 0x64C, 28);
    (0x64D, 0x64D, 29); (0x64E, 0x64E, 30); (0x64F, 0x64F, 31);
    (0x650, 0x650, 32); (0x651, 0x651, 33); (0x652, 0x652, 34);
    (0x653, 0x654, 230); (0x655, 0x656, 220); (0x657, 0x65B, 230);
    (0x65C, 0x65C, 220); (0x65D, 0x65E, 230); (0x65F, 0x65F, 220);
    (0x670, 0x670, 35); (0x6D6, 0x6DC, 230); (0x6DF, 0x6E2, 230);
    (0x6E3, 0x6E3, 220); (0x6E4, 0x6E4, 230); (0x6E7, 0x6E8, 230);
    (0x6EA, 0x6EA, 220); (0x6EB, 0x6EC, 230); (0x6ED, 0x6ED, 220) ].

Definition combining (c : char) : N := default 0 (range_get sample_combining c).

(** Hangul syllables are decomposed and composed by arithmetic. *)
Definition SBase : N := 0xAC00.
Definition LBase : N := 0x1100.
Definition VBase : N := 0x1161.
Definition TBase : N := 0x11A7.
Definition LCount : N := 19.
Definition VCount : N := 21.
Definition TCount : N := 28.
Definition NCount : N := VCount * TCount.
Definition SCount : N := LCount * NCount.

Definition between (lo hi c : N) : bool := (lo <=? c) && (c <=? hi).

(** The full compatibility decomposition of one character. *)
Definition decompose_char (c : char) : str :=
  if (SBase <=? c) && (c <? SBase + SCount) then
    let si := c - SBase in
    let l := LBase + si / NCount in
    let v := VBase + (si mod NCount) / TCount in
    let t := TBase + si mod TCount in
    if si mod TCount =? 0 then [l; v] else [l; v; t]
  else if between 0xFF01 0xFF5E c then [c - 0xFEE0]
  else if between 0x2000 0x200A c then [0x20]
  else
    match c with
    | 0xA0 | 0x202F | 0x205F | 0x3000 => [0x20]
    | 0x2011 => [0x2010]
    | 0x622 => [0x627; 0x653]
    | 0x623 => [0x627; 0x654]
    | 0x624 => [0x648; 0x654]
    | 0x625 => [0x627; 0x655]
    | 0x626 => [0x64A; 0x654]
    | 0x675 => [0x627; 0x674]
    | 0x676 => [0x648; 0x674]
    | 0x677 => [0x6C7; 0x674]
    | 0x678 => [0x64A; 0x674]
    | 0x6C0 => [0x6D5; 0x654]
    | 0x6C2 => [0x6C1; 0x654]
    | 0x6D3 => [0x6D2; 0x654]
    | _ => [c]
    end.

(** Canonical ordering: a combining mark moves before the marks of a
    higher class that precede it.  [done] is the text so far, reversed. *)
Fixpoint insert_mark (c : char) (done : str) : str :=
  match done with
  | d :: done' =>
      if (0 <? combining c) && (combining c <? combining d)
      then d :: insert_mark c done'
      else c :: done
  | [] => [c]
  end.

Definition reorder (s : str) : str :=
  reverse (foldl (λ done c, insert_mark c done) [] s).

(** The primary composite of a pair, if it has one. *)
Definition compose_pair (a b : char) : option char :=
  if (LBase <=? a) && (a <? LBase + LCount)
     && (VBase <=? b) && (b <? VBase + VCount)
  then Some (SBase + ((a - LBase) * VCount + (b - VBase)) * TCount)
  else if (SBase <=? a) && (a <? SBase + SCount)
          && ((a - SBase) mod TCount =? 0)
          && (TBase <? b) && (b <? TBase + TCount)
  then Some (a + (b - TBase))
  else
    match a, b with
    | 0x627, 0x653 => Some 0x622
    | 0x627, 0x654 => Some 0x623
    | 0x627, 0x655 => Some 0x625
    | 0x648, 0x654 => Some 0x624
    | 0x64A, 0x654 => Some 0x626
    | 0x6C1, 0x654 => Some 0x6C2
    | 0x6D2, 0x654 => Some 0x6D3
    | 0x6D5, 0x654 => Some 0x6C0
    | _, _ => None
    end.

(** Canonical composition.  The state is the finished text (reversed),
    the last starter with the marks kept after it (reversed), and the
    class of the last character kept. *)
Definition compose_step (st : str * option (char * str) * N) (ch : char)
    : str * option (char * str) * N :=
  let '(done, cur, last) := st in
  let keep :=
    if combining ch =? 0 then
      (match cur with
       | Some (starter, marks) => marks ++ starter :: done
       | None => done
       end, Some (ch, []), 0)
    else
      (match cur with
       | Some (starter, marks) => (done, Some (starter, ch :: marks))
       | None => (ch :: done, None)
       end, combining ch) in
  match cur with
  | Some (starter, marks) =>
      match compose_pair starter ch with
      | Some composite =>
          if (last <? combining ch) || (last =? 0)
          then (done, Some (composite, marks), last)
          else keep
      | None => keep
      end
  | None => keep
  end.

Definition compose (s : str) : str :=
  let '(done, cur, _) := foldl compose_step ([], None, 0) s in
  reverse (match cur with
           | Some (starter, marks) => marks ++ starter :: done
           | None => done
           end).

Definition sample_NFKC (s : str) : str :=
  compose (reorder (s ≫= decompose_char)).

Definition sample_isspace (c : char) : bool :=
  bool_decide (c ∈ [0x09; 0x0A; 0x0B; 0x0C; 0x0D; 0x1C; 0x1D; 0x1E; 0x1F;
                    0x20; 0x85; 0xA0; 0x1680; 0x2000; 0x2001; 0x2002;
                    0x2003; 0x2004; 0x2005; 0x2006; 0x2007; 0x2008; 0x2009;
                    0x200A; 0x2028; 0x2029; 0x202F; 0x205F; 0x3000]).

Definition sample_isdecimal (c : char) : bool :=
  String.eqb (sample_category c) "Nd".

Definition sample_isalnum (c : char) : bool :=
  match sample_category c with
  | String "L" _ | String "N" _ => true
  | _ => false
  end.

Definition sample_tolower (c : char) : char :=
  if between 0x41 0x5A c || between 0xFF21 0xFF3A c then c + 0x20 else c.

Definition sample_toupper (c : char) : char :=
  if between 0x61 0x7A c || between 0xFF41 0xFF5A c then c - 0x20 else c.

Definition ucd : unicodedata := {|
  normalize_NFKC := sample_NFKC;
  category := sample_category;
  isspace := sample_isspace;
  isdecimal := sample_isdecimal;
  isalnum := sample_isalnum;
  tolower := sample_tolower;
  toupper := sample_toupper;
|}.

(** [json.loads] on documents made of objects, arrays, strings with the
    one-letter escapes, integers and the three literals; it follows the
    scanner of the [json] package, with its messages and positions.
    Fractions, exponents and [\u] escapes are outside the sample. *)

Definition is_ws (ch : char) : bool :=
  (ch =? 0x20) || (ch =? 0x09) || (ch =? 0x0A) || (ch =? 0x0D).

Fixpoint leading_ws (s : str) : nat :=
  match s with
  | ch :: s' => if is_ws ch then S (leading_ws s') else O
  | [] => O
  end.

(** The end of the whitespace that starts at [idx]. *)
Definition skip_ws (doc : str) (idx : nat) : nat :=
  (idx + leading_ws (drop idx doc))%nat.

Definition char_at (doc : str) (idx : nat) : option char := doc !! idx.

Inductive scanned :=
| Scanned (v : json) (end_ : nat)
| StopIteration (idx : nat)
| Failed (e : exn).

Definition unescape (esc : char) : option char :=
  match esc with
  | 0x22 => Some 0x22
  | 0x5C => Some 0x5C
  | 0x2F => Some 0x2F
  | 0x62 => Some 0x08
  | 0x66 => Some 0x0C
  | 0x6E => Some 0x0A
  | 0x72 => Some 0x0D
  | 0x74 => Some 0x09
  | _ => None
  end.

Definition outside_sample : exn := OtherError (u "outside the sample").

(** [scanstring]: [s] is the text from [idx] on, [begin] the position of
    the opening quote, [acc] the characters read so far, reversed. *)
Fixpoint scan_chars (doc : str) (begin : nat) (s : str) (idx : nat)
    (acc : str) : scanned :=
  match s with
  | [] => Failed (JSONDecodeError "Unterminated string starting at" doc begin)
  | ch :: s' =>
      if ch =? 0x22 then Scanned (JStr (reverse acc)) (S idx)
      else if ch =? 0x5C then
        match s' with
        | [] =>
            Failed (JSONDecodeError "Unterminated string starting at" doc begin)
        | esc :: s'' =>
            match unescape esc with
            | Some c => scan_chars doc begin s'' (S (S idx)) (c :: acc)
            | None =>
                if esc =? 0x75 then Failed outside_sample
                else Failed (JSONDecodeError "Invalid \escape" doc idx)
            end
        end
      else if ch <? 0x20
      then Failed (JSONDecodeError "Invalid control character at" doc idx)
      else scan_chars doc begin s' (S idx) (ch :: acc)
  end.

Definition scanstring (doc : str) (idx : nat) : scanned :=
  scan_chars doc (Nat.pred idx) (drop idx doc) idx [].

Definition is_ascii_digit (ch : char) : bool := (0x30 <=? ch) && (ch <=? 0x39).

Fixpoint leading_digits (s : str) : str :=
  match s with
  | ch :: s' => if is_ascii_digit ch then ch :: leading_digits s' else []
  | [] => []
  end.

Definition int_of_digits (ds : str) : Z :=
  foldl (λ z ch, 10 * z + Z.of_N (ch - 0x30))%Z 0%Z ds.

(** The number at [idx], if one starts there. *)
Definition scan_number (doc : str) (idx : nat) : scanned :=
  let s := drop idx doc in
  let neg := bool_decide (head s = Some 0x2D) in
  let s := if neg then drop 1 s else s in
  let ds := match s with
            | 0x30 :: _ => [0x30]
            | _ => leading_digits s
            end in
  match ds with
  | [] => StopIteration idx
  | _ =>
      let rest := drop (length ds) s in
      let fraction :=
        match rest with
        | 0x2E :: d :: _ => is_ascii_digit d
        | _ => false
        end in
      let exponent :=
        match rest with
        | e :: rest' =>
            ((e =? 0x65) || (e =? 0x45)) &&
            match rest' with
            | d :: rest'' =>
                is_ascii_digit d ||
                (((d =? 0x2B) || (d =? 0x2D)) &&
                 from_option is_ascii_digit false (head rest''))
            | [] => false
            end
        | [] => false
        end in
      if fraction || exponent then Failed outside_sample
      else
        let z := int_of_digits ds in
        Scanned (JNum (Int (if neg then - z else z)%Z))
                (idx + (if neg then 1 else 0) + length ds)%nat
  end.

Definition expecting_value (doc : str) (r : scanned) : scanned :=
  match r with
  | StopIteration idx => Failed (JSONDecodeError "Expecting value" doc idx)
  | _ => r
  end.

(** [scan_once] with the loops of [JSONObject] and [JSONArray]: [members]
    and [elements] start at a key's opening quote and at a value. *)
Fixpoint scan_once (fuel : nat) (doc : str) (idx : nat) : scanned :=
  match fuel with
  | O => Failed outside_sample
  | S fuel =>
      let s := drop idx doc in
      match s with
      | [] => StopIteration idx
      | 0x22 :: _ => scanstring doc (S idx)
      | 0x7B :: _ =>
          let end_ := S idx in
          let end_ := if from_option is_ws false (char_at doc end_)
                      then skip_ws doc end_ else end_ in
          match char_at doc end_ with
          | Some 0x22 => members fuel doc end_ []
          | Some 0x7D => Scanned (JObj []) (S end_)
          | _ =>
              Failed (JSONDecodeError
                        "Expecting property name enclosed in double quotes"
                        doc end_)
          end
      | 0x5B :: _ =>
          let end_ := skip_ws doc (S idx) in
          match char_at doc end_ with
          | Some 0x5D => Scanned (JArr []) (S end_)
          | _ => elements fuel doc end_ []
          end
      | _ =>
          if is_prefix_of (u "null") s then Scanned JNull (idx + 4)
          else if is_prefix_of (u "true") s then Scanned (JBool true) (idx + 4)
          else if is_prefix_of (u "false") s
          then Scanned (JBool false) (idx + 5)
          else scan_number doc idx
      end
  end

with members (fuel : nat) (doc : str) (idx : nat) (pairs : list (str * json))
    : scanned :=
  match fuel with
  | O => Failed outside_sample
  | S fuel =>
      match scanstring doc (S idx) with
      | Scanned (JStr key) end_ =>
          let end_ := skip_ws doc end_ in
          match char_at doc end_ with
          | Some 0x3A =>
              let end_ := skip_ws doc (S end_) in
              match expecting_value doc (scan_once fuel doc end_) with
              | Scanned value end_ =>
                  let pairs := dict_set pairs key value in
                  let end_ := skip_ws doc end_ in
                  match char_at doc end_ with
                  | Some 0x7D => Scanned (JObj pairs) (S end_)
                  | Some 0x2C =>
                      let end_ := skip_ws doc (S end_) in
                      match char_at doc end_ with
                      | Some 0x22 => members fuel doc end_ pairs
                      | _ =>
                          Failed
                            (JSONDecodeError
                               "Expecting property name enclosed in double quotes"
                               doc end_)
                      end
                  | _ =>
                      Failed (JSONDecodeError "Expecting ',' delimiter" doc end_)
                  end
              | r => r
              end
          | _ => Failed (JSONDecodeError "Expecting ':' delimiter" doc end_)
          end
      | r => r
      end
  end

with elements (fuel : nat) (doc : str) (idx : nat) (values : list json)
    : scanned :=
  match fuel with
  | O => Failed outside_sample
  | S fuel =>
      match expecting_value doc (scan_once fuel doc idx) with
      | Scanned value end_ =>
          let values := values ++ [value] in
          let end_ := skip_ws doc end_ in
          match char_at doc end_ with
          | Some 0x5D => Scanned (JArr values) (S end_)
          | Some 0x2C => elements fuel doc (skip_ws doc (S end_)) values
          | _ => Failed (JSONDecodeError "Expecting ',' delimiter" doc end_)
          end
      | r => r
      end
  end.

Definition sample_json_loads (doc : str) : result json :=
  match expecting_value doc
          (scan_once (2 * length doc + 2) doc (skip_ws doc 0)) with
  | Scanned obj end_ =>
      let end_ := skip_ws doc end_ in
      if bool_decide (end_ = length doc) then Ok obj
      else Raise (JSONDecodeError "Extra data" doc end_)
  | StopIteration _ => Raise outside_sample
  | Failed e => Raise e
  end.

(** [str(v)] for [None], booleans, integers and strings; floats and
    containers are outside the sample. *)
Definition sample_format_value (v : json) : str :=
  match v with
  | JStr s => s
  | JNull => u "None"
  | JBool true => u "True"
  | JBool false => u "False"
  | JNum (Int z) => u (pretty z)
  | _ => u "..."
  end.

Definition type_name (v : json) : string :=
  match v with
  | JNull => "NoneType"
  | JBool _ => "bool"
  | JNum (Int _) => "int"
  | JNum (Float _) => "float"
  | JStr _ => "str"
  | JArr _ => "list"
  | JObj _ => "dict"
  end.

(** [str(e)], with the messages of CPython 3.11. *)
Definition sample_str_exn (e : exn) : str :=
  let quoted s := u "'" ++ s ++ u "'" in
  match e with
  | JSONDecodeError msg doc pos =>
      let head := take pos doc in
      let lineno := S (length (filter (λ ch, ch = 0x0A) head)) in
      let before_line :=
        length (lstrip_by (λ ch, negb (ch =? 0x0A)) (reverse head)) in
      let colno := S (length head - before_line) in
      u msg ++ u ": line " ++ u (pretty lineno) ++ u " column "
        ++ u (pretty colno) ++ u " (char " ++ u (pretty pos) ++ u ")"
  | NotAContainer v =>
      u "argument of type " ++ quoted (u (type_name v)) ++ u " is not iterable"
  | NotIterable v => quoted (u (type_name v)) ++ u " object is not iterable"
  | NotSubscriptable v =>
      quoted (u (type_name v)) ++ u " object is not subscriptable"
  | BadIndex (JStr _) => u "string indices must be integers, not 'str'"
  | BadIndex _ => u "list indices must be integers or slices, not str"
  | KeyError k => quoted k
  | NoAttribute v attr =>
      quoted (u (type_name v)) ++ u " object has no attribute "
        ++ quoted (u attr)
  | JoinItem i v =>
      u "sequence item " ++ u (pretty i) ++ u ": expected str instance, "
        ++ u (type_name v) ++ u " found"
  | OtherError msg => msg
  end.

Definition python : runtime := {|
  json_loads := sample_json_loads;
  format_value := sample_format_value;
  str_exn := sample_str_exn;
|}.

(** ** Notions used in the statements *)

(** The text between two positions of one attempt. *)
Definition consumed (c c' : cursor) : str :=
  take (length (after c) - length (after c')) (after c).

(** [run U r c c']: one way for [r] to match from [c] ends at [c']. *)
Fixpoint run (U : unicodedata) (r : regex) (c c' : cursor) : Prop :=
  match r with
  | Eps => c' = c
  | One a =>
      ∃ ch, after c = ch :: after c' ∧ atom_match U a ch = true
            ∧ before c' = Some ch ∧ groups c' = groups c
  | Rep a lo hi _ =>
      ∃ taken, after c = taken ++ after c'
               ∧ (lo ≤ length taken)%nat
               ∧ (∀ h, hi = Some h → (length taken ≤ h)%nat)
               ∧ Forall (λ ch, atom_match U a ch = true) taken
               ∧ before c' = from_option Some (before c) (last taken)
               ∧ groups c' = groups c
  | Seq r1 r2 => ∃ c1, run U r1 c c1 ∧ run U r2 c1 c'
  | Alt r1 r2 => run U r1 c c' ∨ run U r2 c c'
  | Opt r1 => run U r1 c c' ∨ c' = c
  | Group n r1 =>
      ∃ c1, run U r1 c c1
            ∧ c' = {| before := before c1; after := after c1;
                      groups := (n, consumed c c1) :: groups c1 |}
  | WordB => c' = c ∧ at_boundary U (before c) (after c) = true
  | EndS => c' = c ∧ at_end (after c) = true
  end.

(** What a captured PO number is: four to six decimal digits. *)
Definition po_digits (U : unicodedata) (d : str) : Prop :=
  (4 ≤ length d ≤ 6)%nat ∧ Forall (λ ch, isdecimal U ch = true) d.

(** [\d{lo,hi}] with [4 ≤ lo] and [hi ≤ 6]. *)
Definition digit_group (r : regex) : bool :=
  match r with
  | Rep Digit lo (Some hi) _ => (4 <=? lo)%nat && (hi <=? 6)%nat
  | _ => false
  end.

(** [r] has no group 1. *)
Fixpoint keeps_group1 (r : regex) : bool :=
  match r with
  | Seq r1 r2 | Alt r1 r2 => keeps_group1 r1 && keeps_group1 r2
  | Opt r1 => keeps_group1 r1
  | Group n r1 => negb (Nat.eqb n 1) && keeps_group1 r1
  | _ => true
  end.

(** Every match of [r] goes through a group 1 of four to six digits and
    through no other group 1 after it. *)
Fixpoint sets_group1 (r : regex) : bool :=
  match r with
  | Seq r1 r2 => (sets_group1 r1 && keeps_group1 r2) || sets_group1 r2
  | Alt r1 r2 => sets_group1 r1 && sets_group1 r2
  | Group n r1 => Nat.eqb n 1 && digit_group r1
  | _ => false
  end.

(** [r] can only match at a character [x]. *)
Fixpoint starts_with (x : char) (r : regex) : bool :=
  match r with
  | One (Lit c) => c =? x
  | Seq r1 _ => starts_with x r1
  | Group _ r1 => starts_with x r1
  | _ => false
  end.

(** The steps of [norm_advanced] between [strip_combining] and the
    collapsing of blanks: each works on one character at a time. *)
Definition fold_chars (s : str) : str :=
  let s := replace 0xA0 (u " ") s in
  let s := translate ARABIC_DIGITS s in
  let s := foldl (λ s ch, replace ch [] s) s BIDI_MARKS in
  replace 0x5D (u " ") (replace 0x5B (u " ")
    (replace 0x29 (u " ") (replace 0x28 (u " ")
      (replace 0x640 (u " ") (replace 0x2014 (u "-")
        (replace 0x2013 (u "-") (replace 0xFF1A (u ":") s))))))).

(** The characters that these steps replace or delete ... *)
Definition folded : str :=
  [0xA0] ++ List.map fst ARABIC_DIGITS ++ BIDI_MARKS
    ++ [0xFF1A; 0x2013; 0x2014; 0x640; 0x28; 0x29; 0x5B; 0x5D].

(** ... and the characters that they put in. *)
Definition fillers : str := u " 0123456789:-".

(** No blank follows a blank, and no blank is a tab; [after_blank] tells
    whether the text comes after a blank. *)
Fixpoint single_spaced (after_blank : bool) (t : str) : Prop :=
  match t with
  | [] => True
  | ch :: t' =>
      (is_blank ch = true → after_blank = false ∧ ch = 0x20)
      ∧ single_spaced (is_blank ch) t'
  end.

(** No ASCII character is a combining mark. *)
Definition ascii_not_Mn (U : unicodedata) : Prop :=
  ∀ ch, ch < 0x80 → category U ch ≠ "Mn"%string.

Definition ascii_lower (c : char) : char :=
  if between 0x41 0x5A c then c + 0x20 else c.

Definition ascii_upper (c : char) : char :=
  if between 0x61 0x7A c then c - 0x20 else c.

(** On ASCII the case mappings are the ASCII ones. *)
Definition ascii_cases (U : unicodedata) : Prop :=
  ∀ c, c < 0x80 → tolower U c = ascii_lower c ∧ toupper U c = ascii_upper c.

(** [ch.isspace()] and [ch.isalnum()] on ASCII. *)
Definition ascii_space (c : char) : bool :=
  between 0x09 0x0D c || between 0x1C 0x20 c.

Definition ascii_alnum (c : char) : bool :=
  between 0x30 0x39 c || between 0x41 0x5A c || between 0x61 0x7A c.

(** On ASCII the classes of characters are the ASCII ones. *)
Definition ascii_classes (U : unicodedata) : Prop :=
  ∀ c, c < 0x80 →
    isspace U c = ascii_space c ∧ isdecimal U c = is_ascii_digit c
    ∧ isalnum U c = ascii_alnum c.

(** What [\d] matches, [\w] matches. *)
Definition decimals_alnum (U : unicodedata) : Prop :=
  ∀ c, isdecimal U c = true → isalnum U c = true.

(** The output keys that [parse_json_fields] copies from the record, with
    the record key of each. *)
Definition record_fields : list (string * string) :=
  [("STATUS", "status"); ("uuid", "uuid"); ("internalId", "internalId");
   ("typeName", "typeName"); ("issuerId", "issuerId");
   ("issuerName", "issuerName"); ("receiverId", "receiverId");
   ("receiverName", "receiverName"); ("dateTimeIssued", "dateTimeIssued");
   ("dateTimeReceived", "dateTimeReceived");
   ("serviceDeliveryDate", "serviceDeliveryDate");
   ("totalSales", "totalSales"); ("totalDiscount", "totalDiscount");
   ("netAmount", "netAmount"); ("total", "total")]%string.

(** The output keys that come from the document. *)
Definition document_fields : list string :=
  ["documentType"; "documentTypeVersion"; "taxpayerActivityCode";
   "descriptions"; "issuer_address"; "receiver_address"]%string.

(** A block that stores under the keys [K] only. *)
Definition writes_only {A} (K : list str) (b : block A) : Prop :=
  ∀ fields k, k ∉ K → (b fields).1 !! k = fields !! k.

(** The member [k] of [d] is a str whenever it is there. *)
Definition str_if_present (d : list (str * json)) (k : string) : Prop :=
  ∀ v, dict_get d (u k) = Some v → ∃ s, v = JStr s.

(** The line of text that a str member contributes. *)
Definition str_part (d : list (str * json)) (k : string) : list str :=
  match dict_get d (u k) with
  | Some (JStr s) => [s]
  | _ => []
  end.

(** An invoice line is an object whose description, if any, is a str. *)
Definition line_with_text (line : json) : Prop :=
  ∃ members, line = JObj members ∧ str_if_present members "description".

Definition descriptions (lines : list json) : list str :=
  lines ≫= (λ line, match line with
                    | JObj members => str_part members "description"
                    | _ => []
                    end).

Definition invoice_lines (doc : list (str * json)) : list json :=
  match dict_get doc (u "invoiceLines") with
  | Some (JArr lines) => lines
  | _ => []
  end.

Definition internal_id_part (P : runtime) (d : list (str * json)) : list str :=
  match dict_get d (u "internalId") with
  | Some v => [u "Internal ID: " ++ format_value P v]
  | None => []
  end.

(** A JSON text of the examples, written with ['] for the double quote. *)
Definition json_text (s : string) : str :=
  (λ ch, if ch =? 0x27 then 0x22 else ch) <$> u s.

(** Records of the examples. *)
Definition sample_document_text : str :=
  json_text "{'documentType': 'I', 'invoiceLines': [{'description': 'PO NUM: 7906'}, {'quantity': 2}]}".

Definition sample_document : list (str * json) :=
  [(u "documentType", JStr (u "I"));
   (u "invoiceLines",
    JArr [JObj [(u "description", JStr (u "PO NUM: 7906"))];
          JObj [(u "quantity", JNum (Int 2))]])].

Definition sample_record : list (str * json) :=
  [(u "uuid", JStr (u "ABC"));
   (u "issuerName", JStr (u "ACME"));
   (u "internalId", JStr (u "173128"));
   (u "total", JNum (Int 100))].

Definition record_with_empty_name : list (str * json) :=
  [(u "document", JObj []);
   (u "issuerName", JStr (u ""));
   (u "receiverName", JStr (u "ACME"))].

(** ASCII texts: the database leaves them as they are. *)
Definition is_ascii (ch : char) : Prop := ch < 0x80.

Definition ascii_chars : str := N.of_nat <$> seq 0 128.

(** The text of the meals scenario: the Arabic phrase, DAL with a full
    stop, and the number. *)
Definition arabic_meals_text : str :=
  [0x648; 0x62C; 0x628; 0x627; 0x62A; 0x20;
   0x63A; 0x630; 0x627; 0x626; 0x64A; 0x629; 0x20; 0x62F]
  ++ u ". 173417".

(** [d] stands in [text]: [d in text] for two strings, as a proposition. *)
Definition occurs_in (d text : str) : Prop := ∃ a b, text = a ++ d ++ b.

(** The number of decimal digits that [s] starts with, and the length of
    the longest run of decimal digits in [s]. *)
Fixpoint digit_run (U : unicodedata) (s : str) : nat :=
  match s with
  | ch :: s' => if isdecimal U ch then S (digit_run U s') else O
  | [] => O
  end.

Fixpoint max_digit_run (U : unicodedata) (s : str) : nat :=
  match s with
  | [] => O
  | _ :: s' => Nat.max (digit_run U s) (max_digit_run U s')
  end.

(** What a member of the record adds to [text_parts]: its value when it
    is there. *)
Definition member_part (d : list (str * json)) (k : string) : list json :=
  match dict_get d (u k) with
  | Some v => [v]
  | None => []
  end.

(** The descriptions that the loop over the invoice lines of the record's
    document collects. *)
Definition document_lines (P : runtime) (d : list (str * json))
    : result (list json) :=
  match dict_get d (u "document") with
  | Some x => load_document P x ≫= invoice_line_descriptions
  | None => Ok []
  end.

(** The part of [text_parts] that comes from the record itself. *)
Definition record_parts (P : runtime) (d : list (str * json)) : list json :=
  member_part d "issuerName" ++ member_part d "receiverName"
    ++ match dict_get d (u "internalId") with
       | Some v => [JStr (u "Internal ID: " ++ format_value P v)]
       | None => []
       end.

(** [None], a [bool] or a number: a value that [in] refuses. *)
Definition scalar (v : json) : Prop :=
  match v with
  | JNull | JBool _ | JNum _ => True
  | _ => False
  end.

Definition not_str (v : json) : Prop := ∀ s, v ≠ JStr s.

(** A record whose second invoice line has a number as its description. *)
Definition record_with_numeric_description : list (str * json) :=
  [(u "issuerName", JStr (u "PO NUM: 7906"));
   (u "document",
    JObj [(u "documentType", JStr (u "I"));
          (u "invoiceLines",
           JArr [JObj [(u "description", JStr (u "Meals"))];
                 JObj [(u "description", JNum (Int 7906))]]);
          (u "issuer",
           JObj [(u "address", JObj [(u "street", JStr (u "Nile St"))])])])].

(** Matchers that name no ASCII letter: what is left of a pattern once
    [re.IGNORECASE] has compiled its letters away, and what a pattern
    without the flag may hold if it is to ignore case. *)
Definition ascii_letter (c : char) : bool :=
  between 0x41 0x5A c || between 0x61 0x7A c.

Definition item_caseless (it : citem) : bool :=
  match it with
  | IChar c => negb (ascii_letter c)
  | _ => true
  end.

Definition atom_caseless (a : atom) : bool :=
  match a with
  | Lit c => negb (ascii_letter c)
  | Class _ items => forallb item_caseless items
  | _ => true
  end.

Fixpoint all_atoms (ok : atom → bool) (r : regex) : bool :=
  match r with
  | One a | Rep a _ _ _ => ok a
  | Seq r1 r2 | Alt r1 r2 => all_atoms ok r1 && all_atoms ok r2
  | Opt r1 | Group _ r1 => all_atoms ok r1
  | _ => true
  end.

(** A position of a match attempt in the text with every character
    mapped by [f]. *)
Definition map_groups (f : char → char) (m : list (nat * str))
    : list (nat * str) :=
  (λ g : nat * str, (g.1, f <$> g.2)) <$> m.

Definition map_cursor (f : char → char) (c : cursor) : cursor :=
  {| before := f <$> before c; after := f <$> after c;
     groups := map_groups f (groups c) |}.

(** The Arabic phrase of the first rule. *)
Definition meals_phrase : str :=
  [0x648; 0x62C; 0x628; 0x627; 0x62A; 0x20;
   0x63A; 0x630; 0x627; 0x626; 0x64A; 0x629].

#[global] Instance citem_eq_dec : EqDecision citem.
Proof. solve_decision. Defined.

#[global] Instance atom_eq_dec : EqDecision atom.
Proof. solve_decision. Defined.

(** Every match of [r] reads a character that [a] matches. *)
Fixpoint needs (a : atom) (r : regex) : bool :=
  match r with
  | One a' => bool_decide (a' = a)
  | Rep a' lo _ _ => bool_decide (a' = a) && (1 <=? lo)%nat
  | Seq r1 r2 => needs a r1 || needs a r2
  | Alt r1 r2 => needs a r1 && needs a r2
  | Group _ r1 => needs a r1
  | _ => false
  end.

(** A digit that the normaliser turns into an ASCII digit or leaves as
    one: an ASCII digit or a digit of the table [ARABIC_DIGITS]. *)
Definition table_digit (ch : char) : bool :=
  is_ascii_digit ch || between 0x660 0x669 ch || between 0x6F0 0x6F9 ch.

Definition table_digits : str := u "0123456789" ++ List.map fst ARABIC_DIGITS.

(** ASCII and the digits of the table. *)
Definition plain_chars : str := ascii_chars ++ List.map fst ARABIC_DIGITS.

(** The address of a party of the document, when the party is an object
    with an address that is an object. *)
Definition party_address (dm : list (str * json)) (party : string)
    : option (list (str * json)) :=
  match dict_get dm (u party) with
  | Some (JObj pm) =>
      match dict_get pm (u "address") with
      | Some (JObj am) => Some am
      | _ => None
      end
  | _ => None
  end.

(** The party is missing, or is an object whose address is missing or an
    object. *)
Definition party_ok (dm : list (str * json)) (party : string) : Prop :=
  match dict_get dm (u party) with
  | None => True
  | Some (JObj pm) =>
      match dict_get pm (u "address") with
      | None | Some (JObj _) => True
      | _ => False
      end
  | _ => False
  end.

(** The four parts of an address with a space between them, a missing
    part standing as the empty string. *)
Definition address_text (P : runtime) (am : list (str * json)) : str :=
  let part k := format_value P (default (JStr (u "")) (dict_get am (u k))) in
  part "street" ++ u " " ++ part "buildingNumber" ++ u " "
    ++ part "regionCity" ++ u " " ++ part "governate".

(** A record with a document whose issuer has an address. *)
Definition record_with_address : list (str * json) :=
  [(u "document",
    JObj [(u "invoiceLines",
           JArr [JObj [(u "description", JStr (u "Meals"))];
                 JObj [(u "quantity", JNum (Int 2))];
                 JObj [(u "description", JStr (u "PO NUM: 7906"))]]);
          (u "issuer",
           JObj [(u "address",
                  JObj [(u "street", JStr (u "Nile St"));
                        (u "governate", JStr (u "Cairo"))])]);
          (u "receiver", JObj [(u "name", JStr (u "ACME"))])])].

(** The characters of a date written with digits: the ASCII digits and
    the slash. *)
Definition date_chars : str := u "0123456789/".

(** * Properties *)

(** ** Reading a match *)

Lemma rep_greedy_sound {A} p lo hi (k : option char → str → option A) prev s m :
  rep_greedy p lo hi k prev s = Some m →
  ∃ taken s', s = taken ++ s'
    ∧ (lo ≤ length taken)%nat
    ∧ (∀ h, hi = Some h → (length taken ≤ h)%nat)
    ∧ Forall (λ ch, p ch = true) taken
    ∧ k (from_option Some prev (last taken)) s' = Some m.
Proof.
  revert lo hi prev.
  induction s as [|ch s IH]; intros lo hi prev H; simpl in H.
  - destruct lo; [|done].
    exists [], []. repeat split; simpl; try done; try lia; try (intros; simpl; lia).
  - assert (Hstop : match lo with O => k prev (ch :: s) | S _ => None end = Some m →
                    ∃ taken s', ch :: s = taken ++ s' ∧ (lo ≤ length taken)%nat
                      ∧ (∀ h, hi = Some h → (length taken ≤ h)%nat)
                      ∧ Forall (λ ch, p ch = true) taken
                      ∧ k (from_option Some prev (last taken)) s' = Some m).
    { destruct lo; [|done]. intros Hk.
      exists [], (ch :: s). repeat split; simpl; try done; try lia; try (intros; simpl; lia). }
    destruct (may_repeat hi && p ch) eqn:Hgo; [|auto].
    apply andb_true_iff in Hgo as [Hhi Hp].
    destruct (rep_greedy p (Nat.pred lo) (Nat.pred <$> hi) k (Some ch) s) eqn:Hrec;
      [|auto].
    injection H as ->.
    apply IH in Hrec as (taken & s' & -> & Hlo & Hh & Hall & Hk).
    exists (ch :: taken), s'. repeat split.
    + simpl. lia.
    + intros h ->. simpl. destruct h; [done|].
      specialize (Hh h eq_refl). lia.
    + by constructor.
    + rewrite last_cons. by destruct (last taken).
Qed.

Lemma rep_lazy_sound {A} p lo hi (k : option char → str → option A) prev s m :
  rep_lazy p lo hi k prev s = Some m →
  ∃ taken s', s = taken ++ s'
    ∧ (lo ≤ length taken)%nat
    ∧ (∀ h, hi = Some h → (length taken ≤ h)%nat)
    ∧ Forall (λ ch, p ch = true) taken
    ∧ k (from_option Some prev (last taken)) s' = Some m.
Proof.
  revert lo hi prev.
  induction s as [|ch s IH]; intros lo hi prev H; simpl in H.
  - destruct lo; [|done]. destruct (k prev []) eqn:Hk; [|done].
    exists [], []. repeat split; simpl; try done; try lia; try (intros; simpl; lia). by rewrite <- H.
  - assert (Hmore : (if may_repeat hi && p ch
                     then rep_lazy p (Nat.pred lo) (Nat.pred <$> hi) k (Some ch) s
                     else None) = Some m →
                    ∃ taken s', ch :: s = taken ++ s' ∧ (lo ≤ length taken)%nat
                      ∧ (∀ h, hi = Some h → (length taken ≤ h)%nat)
                      ∧ Forall (λ ch, p ch = true) taken
                      ∧ k (from_option Some prev (last taken)) s' = Some m).
    { destruct (may_repeat hi && p ch) eqn:Hgo; [|done].
      apply andb_true_iff in Hgo as [Hhi Hp]. intros Hrec.
      apply IH in Hrec as (taken & s' & -> & Hlo & Hh & Hall & Hk).
      exists (ch :: taken), s'. repeat split.
      + simpl. lia.
      + intros h ->. simpl. destruct h; [done|].
        specialize (Hh h eq_refl). lia.
      + by constructor.
      + rewrite last_cons. by destruct (last taken). }
    destruct lo; [|auto].
    destruct (k prev (ch :: s)) eqn:Hk; [|auto].
    injection H as ->.
    exists [], (ch :: s). repeat split; simpl; try done; try lia; try (intros; simpl; lia).
Qed.

Lemma rmatch_sound {A} U r (k : cursor → option A) c m :
  rmatch U r k c = Some m → ∃ c', run U r c c' ∧ k c' = Some m.
Proof.
  revert k c.
  induction r as [|a|a lo hi greedy|r1 IH1 r2 IH2|r1 IH1 r2 IH2|r1 IH1|n r1 IH1| |];
    intros k c H; simpl in H.
  - by exists c.
  - destruct (after c) as [|ch s'] eqn:Hs; [done|].
    destruct (atom_match U a ch) eqn:Hm; [|done].
    eexists. split; [|exact H]. exists ch. by rewrite Hs.
  - assert (∃ taken s', after c = taken ++ s'
      ∧ (lo ≤ length taken)%nat
      ∧ (∀ h, hi = Some h → (length taken ≤ h)%nat)
      ∧ Forall (λ ch, atom_match U a ch = true) taken
      ∧ k {| before := from_option Some (before c) (last taken); after := s';
             groups := groups c |} = Some m) as (taken & s' & ? & ? & ? & ? & Hk).
    { destruct greedy; [apply rep_greedy_sound in H|apply rep_lazy_sound in H];
        exact H. }
    eexists. split; [|exact Hk]. by exists taken.
  - apply IH1 in H as (c1 & H1 & H). apply IH2 in H as (c' & H2 & H).
    exists c'. split; [by exists c1|done].
  - destruct (rmatch U r1 k c) eqn:H1.
    + injection H as ->. apply IH1 in H1 as (c' & ? & ?). exists c'. simpl. auto.
    + apply IH2 in H as (c' & ? & ?). exists c'. simpl. auto.
  - destruct (rmatch U r1 k c) eqn:H1.
    + injection H as ->. apply IH1 in H1 as (c' & ? & ?). exists c'. simpl. auto.
    + exists c. simpl. auto.
  - apply IH1 in H as (c1 & H1 & H).
    eexists. split; [|exact H]. by exists c1.
  - destruct (at_boundary U (before c) (after c)) eqn:Hb; [|done]. by exists c.
  - destruct (at_end (after c)) eqn:Hb; [|done]. by exists c.
Qed.

(** ** Which rules capture a PO number *)

Section RegexFacts.
Variable U : unicodedata.

Lemma consumed_app c c' taken :
  after c = taken ++ after c' → consumed c c' = taken.
Proof.
  intros H. unfold consumed. rewrite H, length_app.
  replace (length taken + length (after c') - length (after c'))%nat
    with (length taken) by lia.
  by rewrite take_app_length.
Qed.

Lemma run_keeps r c c' :
  keeps_group1 r = true → run U r c c' →
  group (groups c') 1 = group (groups c) 1.
Proof.
  revert c c'.
  induction r as [|a|a lo hi greedy|r1 IH1 r2 IH2|r1 IH1 r2 IH2|r1 IH1|n r1 IH1| |];
    intros c c' Hk Hr; simpl in *.
  - by subst.
  - destruct Hr as (? & ? & ? & ? & ->). done.
  - destruct Hr as (? & ? & ? & ? & ? & ? & ->). done.
  - apply andb_true_iff in Hk as [? ?]. destruct Hr as (c1 & ? & ?).
    rewrite (IH2 c1 c'), (IH1 c c1); auto.
  - apply andb_true_iff in Hk as [? ?]. destruct Hr; auto.
  - destruct Hr as [?| ->]; auto.
  - apply andb_true_iff in Hk as [Hn ?]. destruct Hr as (c1 & ? & ->). simpl.
    destruct (Nat.eqb n 1); [done|]. auto.
  - by destruct Hr as [-> _].
  - by destruct Hr as [-> _].
Qed.

Lemma run_digit_group r c c' :
  digit_group r = true → run U r c c' → po_digits U (consumed c c').
Proof.
  destruct r as [|a|a lo hi greedy| | | | | |]; try done.
  destruct a; try done. destruct hi as [hi|]; try done.
  intros Hb Hr. cbv [digit_group] in Hb. simpl in Hr.
  destruct Hr as (taken & Hs & Hlo & Hhi & Hall & _).
  apply andb_true_iff in Hb as [H4 H6].
  apply Nat.leb_le in H4, H6. specialize (Hhi hi eq_refl).
  rewrite (consumed_app _ _ _ Hs). split; [lia|done].
Qed.

Lemma run_sets r c c' :
  sets_group1 r = true → run U r c c' →
  ∃ d, group (groups c') 1 = Some d ∧ po_digits U d.
Proof.
  revert c c'.
  induction r as [|a|a lo hi greedy|r1 IH1 r2 IH2|r1 IH1 r2 IH2|r1 IH1|n r1 IH1| |];
    intros c c' Hs Hr; simpl in *; try done.
  - destruct Hr as (c1 & H1 & H2).
    apply orb_true_iff in Hs as [Hs|Hs]; [|eauto].
    apply andb_true_iff in Hs as [Hs Hk].
    rewrite (run_keeps r2 c1 c' Hk H2). eauto.
  - apply andb_true_iff in Hs as [? ?]. destruct Hr; eauto.
  - apply andb_true_iff in Hs as [Hn Hd]. destruct Hr as (c1 & H1 & ->).
    simpl. rewrite Hn. eexists. split; [done|].
    by apply run_digit_group with r1.
Qed.

Lemma run_starts_with x r c c' :
  starts_with x r = true → run U r c c' → head (after c) = Some x.
Proof.
  revert c c'.
  induction r as [|a|a lo hi greedy|r1 IH1 r2 IH2|r1 IH1 r2 IH2|r1 IH1|n r1 IH1| |];
    intros c c' Hs Hr; simpl in *; try done.
  - destruct a; try done. destruct Hr as (ch & -> & Hm & _). simpl in *.
    apply N.eqb_eq in Hs, Hm. by subst.
  - destruct Hr as (c1 & H1 & _). eauto.
  - destruct Hr as (c1 & H1 & _). eauto.
Qed.

(** Compiling with [re.IGNORECASE] changes literals only. *)
Lemma ignorecase_atom_Digit a :
  match ignorecase_atom U a with Digit => a = Digit | _ => a ≠ Digit end.
Proof.
  destruct a; simpl; try done.
  - by destruct (iscased U c).
  - by destruct (existsb _ _).
Qed.

Lemma digit_group_ignorecase r : digit_group (ignorecase U r) = digit_group r.
Proof.
  destruct r as [|a|a lo hi greedy| | | | | |]; try done. simpl.
  pose proof (ignorecase_atom_Digit a) as H.
  destruct (ignorecase_atom U a), a; try done; by destruct H.
Qed.

Lemma keeps_group1_ignorecase r :
  keeps_group1 (ignorecase U r) = keeps_group1 r.
Proof. induction r; simpl; congruence. Qed.

Lemma sets_group1_ignorecase r :
  sets_group1 (ignorecase U r) = sets_group1 r.
Proof.
  induction r; simpl; try done.
  - by rewrite IHr1, IHr2, keeps_group1_ignorecase.
  - congruence.
  - by rewrite digit_group_ignorecase.
Qed.

Lemma sets_group1_compile r f :
  sets_group1 (re_compile U r f) = sets_group1 r.
Proof. destruct f; [done|apply sets_group1_ignorecase]. Qed.

Lemma search_from_sound r prev s m :
  search_from U r prev s = Some m →
  ∃ prev' s1 s2, s = s1 ++ s2 ∧ match_at U r prev' s2 = Some m.
Proof.
  revert prev. induction s as [|ch s IH]; intros prev H; simpl in H.
  - destruct (match_at U r prev []) eqn:Hm; [|done].
    exists prev, [], []. by rewrite <- H.
  - destruct (match_at U r prev (ch :: s)) eqn:Hm.
    + exists prev, [], (ch :: s). by rewrite <- H.
    + apply IH in H as (prev' & s1 & s2 & -> & ?).
      by exists prev', (ch :: s1), s2.
Qed.

Lemma search_sound r text m :
  search U r text = Some m →
  ∃ c c', run U r c c' ∧ groups c = [] ∧ m = groups c'
          ∧ ∃ s1, text = s1 ++ after c.
Proof.
  intros H. apply search_from_sound in H as (prev & s1 & s2 & -> & H).
  apply rmatch_sound in H as (c' & Hr & [= <-]).
  eexists _, c'. split; [exact Hr|]. simpl. eauto.
Qed.

(** Every rule captures its PO number in group 1. *)
Lemma rules_set_group1 :
  Forall (λ p, sets_group1 p.2 = true) (patterns U).
Proof.
  unfold patterns, RX_ARABIC_MEALS_NUM, RX_PO_NUM_COLON, RX_PO_FORWARD_SLASH,
    RX_NUM_CONCAT_DATE, RX_NUM_DATE, RX_STANDALONE_6DIGIT, RX_PO_SLASH,
    RX_TAXPAYER_NAME_NUM, RX_PARENTHESES_NUM_END, RX_PARENTHESES_NUM,
    RX_PO_PREFIX, RX_CODE_ANCHOR_LINE, RX_ARABIC_D_PREFIX, RX_ARABIC_D_SUFFIX.
  repeat (apply Forall_cons; split;
          [cbn [snd]; rewrite sets_group1_compile; reflexivity|]).
  by apply Forall_nil.
Qed.

Lemma group1_of_rule name rx text m :
  (name, rx) ∈ patterns U → search U rx text = Some m →
  ∃ d, group m 1 = Some d ∧ po_digits U d.
Proof.
  intros Hin Hs.
  pose proof rules_set_group1 as Hall. rewrite Forall_forall in Hall.
  specialize (Hall _ Hin). simpl in Hall.
  apply search_sound in Hs as (c & c' & Hr & _ & -> & _).
  by apply run_sets with rx c.
Qed.

(** A rule that starts with a literal finds nothing in a text without it. *)
Lemma search_starts_with x r text :
  starts_with x r = true → Forall (λ ch, ch ≠ x) text → search U r text = None.
Proof.
  intros Hs Hall. destruct (search U r text) as [m|] eqn:H; [|done].
  apply search_sound in H as (c & c' & Hr & _ & _ & s1 & ->).
  apply (run_starts_with x) in Hr; [|done].
  apply Forall_app in Hall as [_ Hall].
  destruct (after c) as [|ch s]; [done|]. injection Hr as ->.
  by inversion Hall.
Qed.

(** The loop returns the first rule that matches. *)
Lemma first_match_spec ps text :
  (first_match U ps text = (u "", u "", u "no PO found")
   ∧ Forall (λ p, search U p.2 text = None) ps)
  ∨ ∃ ps1 name rx ps2 m,
      ps = ps1 ++ (name, rx) :: ps2
      ∧ Forall (λ p, search U p.2 text = None) ps1
      ∧ search U rx text = Some m
      ∧ first_match U ps text
        = (default [] (group m 1), u "json (" ++ u name ++ u ")", u "").
Proof.
  induction ps as [|[name rx] ps IH]; simpl.
  - left. by split.
  - destruct (search U rx text) as [m|] eqn:Hs.
    + right. by exists [], name, rx, ps, m.
    + destruct IH as [[-> Hall]|(ps1 & name' & rx' & ps2 & m & -> & Hall & Hm & ->)].
      * left. split; [done|]. by constructor.
      * right. exists ((name, rx) :: ps1), name', rx', ps2, m.
        repeat split; try done. by constructor.
Qed.

End RegexFacts.

(** ** Reading the normaliser *)

Section StepFacts.

Lemma filter_all (P : char → Prop) `{!∀ ch, Decision (P ch)} (s : str) :
  Forall P s → filter P s = s.
Proof.
  induction 1 as [|ch s Hch Hs IH]; [done|].
  by rewrite filter_cons_True, IH.
Qed.

Lemma replace_Forall (P : char → Prop) old new s :
  Forall P new → Forall P s → Forall P (replace old new s).
Proof.
  intros Hnew Hs. unfold replace. apply Forall_bind.
  eapply Forall_impl; [exact Hs|]. intros ch Hch. simpl.
  destruct (ch =? old); [done|]. by constructor.
Qed.

Lemma replace_removes old new s :
  old ∉ new → old ∉ replace old new s.
Proof.
  intros Hnew. unfold replace. rewrite list_elem_of_bind.
  intros (ch & Hin & _). destruct (ch =? old) eqn:E; [done|].
  apply N.eqb_neq in E. apply list_elem_of_singleton in Hin. congruence.
Qed.

Lemma replace_id old new s : old ∉ s → replace old new s = s.
Proof.
  unfold replace. induction s as [|ch s IH]; [done|].
  rewrite not_elem_of_cons. intros [Hne Hs]. simpl.
  destruct (ch =? old) eqn:E.
  - apply N.eqb_eq in E. congruence.
  - simpl. f_equal. by apply IH.
Qed.

Lemma table_get_Some table ch v :
  table_get table ch = Some v → (ch, v) ∈ table.
Proof.
  induction table as [|[k w] table IH]; [done|]. simpl.
  destruct (ch =? k) eqn:E.
  - apply N.eqb_eq in E. intros [= ->]. subst. left.
  - intros H. right. auto.
Qed.

Lemma table_get_None table ch :
  ch ∉ List.map fst table → table_get table ch = None.
Proof.
  induction table as [|[k w] table IH]; [done|]. simpl.
  rewrite not_elem_of_cons. intros [Hne Hs].
  destruct (ch =? k) eqn:E; [|auto].
  apply N.eqb_eq in E. congruence.
Qed.

Lemma translate_Forall (P : char → Prop) table s :
  Forall P (List.map snd table) → Forall P s → Forall P (translate table s).
Proof.
  intros Ht Hs. unfold translate. rewrite Forall_forall in Ht.
  induction Hs as [|ch s Hch Hs IH]; simpl; constructor; [|done].
  destruct (table_get table ch) as [v|] eqn:E; [|done]. simpl.
  apply Ht. apply table_get_Some in E.
  change v with (snd (ch, v)). apply list_elem_of_In, in_map, list_elem_of_In, E.
Qed.

Lemma translate_removes table s k :
  k ∈ List.map fst table → k ∉ List.map snd table → k ∉ translate table s.
Proof.
  intros Hk Hv. unfold translate. induction s as [|ch s IH]; simpl.
  - apply not_elem_of_nil.
  - apply not_elem_of_cons. split; [|done].
    destruct (table_get table ch) as [v|] eqn:E; simpl.
    + intros ->. apply Hv. apply table_get_Some in E.
      change v with (snd (ch, v)).
      apply list_elem_of_In, in_map, list_elem_of_In, E.
    + intros ->. destruct (decide (ch ∈ List.map fst table)) as [Hin|Hout]; [|done].
      clear -E Hin. induction table as [|[k w] table IH]; simpl in *.
      * by apply elem_of_nil in Hin.
      * destruct (ch =? k) eqn:E'; [done|]. apply N.eqb_neq in E'.
        apply elem_of_cons in Hin as [?|?]; [done|auto].
Qed.

Lemma translate_id table s :
  Forall (λ ch, ch ∉ List.map fst table) s → translate table s = s.
Proof.
  unfold translate. induction 1 as [|ch s Hch Hs IH]; simpl; [done|].
  by rewrite (table_get_None _ _ Hch), IH.
Qed.

Lemma sub_blanks_from_Forall (P : char → Prop) b s :
  P 0x20 → Forall P s → Forall P (sub_blanks_from b s).
Proof.
  intros Hsp Hs. revert b.
  induction Hs as [|ch s Hch Hs IH]; intros b; simpl; [done|].
  destruct (is_blank ch); [destruct b|]; auto.
Qed.

Lemma sub_blanks_from_spaced b s : single_spaced b (sub_blanks_from b s).
Proof.
  revert b. induction s as [|ch s IH]; intros b; simpl; [done|].
  destruct (is_blank ch) eqn:E.
  - destruct b; [apply IH|]. simpl. split; [done|apply IH].
  - simpl. rewrite E. split; [done|apply IH].
Qed.

Lemma single_spaced_fixed b t : single_spaced b t → sub_blanks_from b t = t.
Proof.
  revert b. induction t as [|ch t IH]; intros b; simpl; [done|].
  intros [Hch Ht]. destruct (is_blank ch) eqn:E.
  - destruct (Hch eq_refl) as [-> ->]. f_equal. by apply IH.
  - f_equal. by apply IH.
Qed.

Lemma single_spaced_weaken b t : single_spaced b t → single_spaced false t.
Proof.
  destruct t as [|ch t]; [done|]. simpl. intros [H ?]. split; [|done].
  intros Hb. by destruct (H Hb) as [_ ->].
Qed.

Lemma single_spaced_app b t1 t2 :
  single_spaced b (t1 ++ t2) → single_spaced b t1 ∧ single_spaced false t2.
Proof.
  revert b. induction t1 as [|ch t1 IH]; intros b; simpl.
  - intros H. split; [done|]. by apply single_spaced_weaken with b.
  - intros [Hch H]. apply IH in H as [? ?]. done.
Qed.

Lemma single_spaced_pair b t1 x y t2 :
  single_spaced b (t1 ++ x :: y :: t2) →
  ¬ (is_blank x = true ∧ is_blank y = true).
Proof.
  intros H. apply single_spaced_app in H as [_ H]. simpl in H.
  destruct H as [_ [Hy _]]. intros [Hx Hy']. rewrite Hx in Hy.
  by destruct (Hy Hy').
Qed.

(** [lstrip_by] and [strip] *)
Lemma lstrip_by_suffix sp s : ∃ l, s = l ++ lstrip_by sp s.
Proof.
  induction s as [|ch s [l IH]]; simpl; [by exists []|].
  destruct (sp ch); [|by exists []].
  exists (ch :: l). simpl. by f_equal.
Qed.

Lemma lstrip_by_head sp s ch : head (lstrip_by sp s) = Some ch → sp ch = false.
Proof.
  induction s as [|x s IH]; simpl; [done|].
  destruct (sp x) eqn:E; [done|]. simpl. by intros [= <-].
Qed.

Lemma lstrip_by_id sp s :
  (∀ ch, head s = Some ch → sp ch = false) → lstrip_by sp s = s.
Proof. destruct s as [|x s]; [done|]. simpl. intros H. by rewrite (H x). Qed.

End StepFacts.

Section StripFacts.
Variable U : unicodedata.

Lemma strip_segment s : ∃ l r, s = l ++ strip U s ++ r.
Proof.
  unfold strip.
  destruct (lstrip_by_suffix (isspace U) s) as [l Hl].
  destruct (lstrip_by_suffix (isspace U) (reverse (lstrip_by (isspace U) s)))
    as [r Hr].
  exists l, (reverse r). rewrite <- reverse_app, <- Hr, reverse_involutive.
  exact Hl.
Qed.

Lemma strip_last s ch : last (strip U s) = Some ch → isspace U ch = false.
Proof.
  unfold strip. rewrite last_reverse. apply lstrip_by_head.
Qed.

Lemma strip_head s ch : head (strip U s) = Some ch → isspace U ch = false.
Proof.
  unfold strip. intros H.
  destruct (lstrip_by_suffix (isspace U) (reverse (lstrip_by (isspace U) s)))
    as [r Hr].
  apply (f_equal reverse) in Hr. rewrite reverse_involutive, reverse_app in Hr.
  apply (lstrip_by_head (isspace U) s). rewrite Hr.
  destruct (reverse (lstrip_by (isspace U) (reverse (lstrip_by (isspace U) s))));
    [done|]. done.
Qed.

Lemma strip_idempotent s : strip U (strip U s) = strip U s.
Proof.
  pose proof (strip_head s) as Hh. pose proof (strip_last s) as Hl.
  set (t := strip U s) in *. unfold strip.
  rewrite (lstrip_by_id _ t Hh).
  rewrite lstrip_by_id; [apply reverse_involutive|].
  intros ch. rewrite head_reverse. apply Hl.
Qed.

Lemma strip_Forall (P : char → Prop) s : Forall P s → Forall P (strip U s).
Proof.
  destruct (strip_segment s) as (l & r & Hs). intros H. rewrite Hs in H.
  apply Forall_app in H as [_ H]. by apply Forall_app in H as [H _].
Qed.

Lemma strip_spaced s : single_spaced false s → single_spaced false (strip U s).
Proof.
  destruct (strip_segment s) as (l & r & Hs). intros H. rewrite Hs in H.
  apply single_spaced_app in H as [_ H]. by apply single_spaced_app in H as [H _].
Qed.

End StripFacts.

(** ** Facts of the character database that the theorems assume *)

(** Deciding a closed statement by evaluation. *)
Ltac decide_closed := apply (bool_decide_unpack _); vm_compute; exact I.

Lemma below_enum (n : nat) (ch : N) :
  ch < N.of_nat n → ch ∈ (N.of_nat <$> seq 0 n).
Proof.
  intros H. apply list_elem_of_fmap. exists (N.to_nat ch).
  split; [by rewrite N2Nat.id|]. apply elem_of_seq. lia.
Qed.

Lemma ucd_ascii_not_Mn : ascii_not_Mn ucd.
Proof.
  intros ch H. apply (below_enum 128) in H. revert ch H.
  apply Forall_forall. decide_closed.
Qed.

Lemma ucd_ascii_cases : ascii_cases ucd.
Proof.
  intros ch H. apply (below_enum 128) in H. revert ch H.
  apply Forall_forall. decide_closed.
Qed.

Section NormaliserFacts.
Variable U : unicodedata.

Lemma replace_keeps_out x old new s :
  x ∉ new → x ∉ s → x ∉ replace old new s.
Proof.
  intros Hn Hs Hin.
  assert (Forall (λ ch, ch ≠ x) (replace old new s)) as H.
  { apply replace_Forall; apply Forall_forall; intros ch ? ->; done. }
  rewrite Forall_forall in H. by apply (H x).
Qed.

Lemma translate_keeps_out x table s :
  x ∉ List.map snd table → x ∉ s → x ∉ translate table s.
Proof.
  intros Hn Hs Hin.
  assert (Forall (λ ch, ch ≠ x) (translate table s)) as H.
  { apply translate_Forall; apply Forall_forall; intros ch ? ->; done. }
  rewrite Forall_forall in H. by apply (H x).
Qed.

Lemma fold_chars_Forall (P : char → Prop) s :
  Forall P fillers → Forall P s → Forall P (fold_chars s).
Proof.
  intros Hf Hs. rewrite Forall_forall in Hf.
  assert (∀ l, Forall (λ x, x ∈ fillers) l → Forall P l) as Hsub.
  { intros l Hl. eapply Forall_impl; [exact Hl|auto]. }
  unfold fold_chars. cbn [foldl BIDI_MARKS].
  repeat first
    [ apply replace_Forall; [apply Hsub; decide_closed|]
    | apply translate_Forall; [apply Hsub; decide_closed|] ].
  exact Hs.
Qed.

Ltac folded_out :=
  first
    [ apply replace_removes; decide_closed
    | apply translate_removes; decide_closed
    | apply replace_keeps_out; [decide_closed|folded_out]
    | apply translate_keeps_out; [decide_closed|folded_out] ].

Lemma fold_chars_removes x s : x ∈ folded → x ∉ fold_chars s.
Proof.
  intros Hx. vm_compute in Hx.
  unfold fold_chars. cbn [foldl BIDI_MARKS].
  repeat (apply elem_of_cons in Hx as [->|Hx]; [folded_out|]).
  by apply elem_of_nil in Hx.
Qed.

Lemma fold_chars_id s : Forall (λ ch, ch ∉ folded) s → fold_chars s = s.
Proof.
  intros H.
  assert (∀ x, x ∈ folded → x ∉ s) as Hout.
  { intros x Hx Hin. rewrite Forall_forall in H. by apply (H x). }
  unfold fold_chars. cbn [foldl BIDI_MARKS].
  rewrite (replace_id 0xA0) by (apply Hout; decide_closed).
  rewrite translate_id.
  2:{ eapply Forall_impl; [exact H|]. intros ch Hch Hin. apply Hch.
      unfold folded. rewrite !elem_of_app. auto. }
  repeat (rewrite (replace_id _ _ s) by (apply Hout; decide_closed)).
  done.
Qed.

Lemma norm_advanced_unfold s :
  norm_advanced U s =
  match s with
  | [] => []
  | _ => strip U (sub_blanks (fold_chars
           (strip_combining U (normalize_NFKC U s))))
  end.
Proof. by destruct s. Qed.

Lemma norm_advanced_steps s :
  ∃ x, norm_advanced U s
       = strip U (sub_blanks (fold_chars (strip_combining U x))).
Proof.
  rewrite norm_advanced_unfold. destruct s; [by exists []|eauto].
Qed.

Lemma norm_advanced_folded s :
  Forall (λ ch, ch ∉ folded) (norm_advanced U s).
Proof.
  destruct (norm_advanced_steps s) as [x ->].
  apply strip_Forall, sub_blanks_from_Forall; [decide_closed|].
  apply Forall_forall. intros ch Hin Hf.
  by apply (fold_chars_removes ch (strip_combining U x)).
Qed.

Lemma norm_advanced_not_Mn s :
  ascii_not_Mn U →
  Forall (λ ch, category U ch ≠ "Mn"%string) (norm_advanced U s).
Proof.
  intros HU. destruct (norm_advanced_steps s) as [x ->].
  apply strip_Forall, sub_blanks_from_Forall; [by apply HU|].
  apply fold_chars_Forall.
  - apply Forall_forall. intros ch Hin. apply HU.
    revert ch Hin. apply Forall_forall. decide_closed.
  - unfold strip_combining. apply Forall_forall. intros ch Hin.
    by apply list_elem_of_filter in Hin as [? _].
Qed.

Lemma norm_advanced_spaced s : single_spaced false (norm_advanced U s).
Proof.
  destruct (norm_advanced_steps s) as [x ->].
  apply strip_spaced, sub_blanks_from_spaced.
Qed.

Lemma norm_advanced_stripped s :
  strip U (norm_advanced U s) = norm_advanced U s.
Proof.
  destruct (norm_advanced_steps s) as [x ->]. apply strip_idempotent.
Qed.

End NormaliserFacts.

(** ** The normaliser: invariant and idempotence *)




(** C4 (as the code has it): a second normalisation changes nothing
    whenever NFKC leaves the normalised text as it is. *)
Theorem norm_advanced_idempotent (U : unicodedata) (x : str) :
  ascii_not_Mn U →
  normalize_NFKC U (norm_advanced U x) = norm_advanced U x →
  norm_advanced U (norm_advanced U x) = norm_advanced U x.
Proof.
  intros HU Hnfkc. rewrite (norm_advanced_unfold U (norm_advanced U x)).
  destruct (norm_advanced U x) as [|ch t] eqn:Ht; [done|].
  rewrite <- Ht in *. rewrite Hnfkc.
  assert (strip_combining U (norm_advanced U x) = norm_advanced U x) as ->.
  { unfold strip_combining. apply filter_all.
    by apply norm_advanced_not_Mn. }
  rewrite fold_chars_id by apply norm_advanced_folded.
  unfold sub_blanks.
  rewrite single_spaced_fixed by apply norm_advanced_spaced.
  apply norm_advanced_stripped.
Qed.

Lemma norm_advanced_idempotent_witness :
  norm_advanced ucd (u "  PO (NUM) : " ++ [0x661; 0x6F2; 0x64E; 0x200F; 0xFF13])
  = u "PO NUM : 123"
  ∧ norm_advanced ucd
      (norm_advanced ucd
         (u "  PO (NUM) : " ++ [0x661; 0x6F2; 0x64E; 0x200F; 0xFF13]))
    = norm_advanced ucd
        (u "  PO (NUM) : " ++ [0x661; 0x6F2; 0x64E; 0x200F; 0xFF13]).
Proof.
  split; [vm_compute; reflexivity|].
  apply (norm_advanced_idempotent ucd
           (u "  PO (NUM) : " ++ [0x661; 0x6F2; 0x64E; 0x200F; 0xFF13])
           ucd_ascii_not_Mn).
  vm_compute; reflexivity.
Defined.

(** C4, counterexample: once the left-to-right mark between them is
    deleted, the Hangul jamo KIYEOK and A stand next to each other, and
    the NFKC step of a second normalisation composes them into the
    syllable GA. *)
Lemma norm_advanced_not_idempotent :
  norm_advanced ucd [0x1100; 0x200E; 0x1161] = [0x1100; 0x1161]
  ∧ norm_advanced ucd (norm_advanced ucd [0x1100; 0x200E; 0x1161]) = [0xAC00]
  ∧ norm_advanced ucd (norm_advanced ucd [0x1100; 0x200E; 0x1161])
    ≠ norm_advanced ucd [0x1100; 0x200E; 0x1161].
Proof.
  split; [vm_compute; reflexivity|].
  split; [vm_compute; reflexivity|vm_compute; discriminate].
Qed.

(** ** The extractor *)

(** C1 (as the code has it): the result is the failure triple, when the
    text is empty or no rule matches its normal form, or else the triple
    of the first rule that matches: the text of its group 1, which is
    four to six decimal digits of any script, its name between
    ["json ("] and [")"], and an empty note. *)
Theorem extraction_result_shape (U : unicodedata) (text : str) :
  (advanced_po_extraction_v48 U text = (u "", u "", u "no PO found")
   ∧ (text = []
      ∨ Forall (λ p, search U p.2 (norm_advanced U text) = None) (patterns U)))
  ∨ ∃ earlier name rx later m d,
      text ≠ []
      ∧ patterns U = earlier ++ (name, rx) :: later
      ∧ Forall (λ p, search U p.2 (norm_advanced U text) = None) earlier
      ∧ search U rx (norm_advanced U text) = Some m
      ∧ group m 1 = Some d
      ∧ po_digits U d
      ∧ advanced_po_extraction_v48 U text
        = (d, u "json (" ++ u name ++ u ")", u "").
Proof.
  destruct text as [|ch text]; [left; split; [reflexivity|by left]|].
  unfold advanced_po_extraction_v48.
  set (t := norm_advanced U (ch :: text)).
  destruct (first_match_spec U (patterns U) t)
    as [[-> Hall]|(ps1 & name & rx & ps2 & m & Hps & Hall & Hm & ->)].
  - left. split; [done|by right].
  - right.
    destruct (group1_of_rule U name rx t m) as (d & Hd & Hpo); [|done|].
    { rewrite Hps. apply elem_of_app. right. left. }
    exists ps1, name, rx, ps2, m, d. rewrite Hd.
    repeat (split; [done|]). done.
Qed.

(** C1, counterexample: the digits that [\d] captures need not be ASCII
    digits. *)
Lemma po_number_of_devanagari_digits :
  advanced_po_extraction_v48 ucd (u "PO/" ++ [0x967; 0x968; 0x969; 0x96A])
  = ([0x967; 0x968; 0x969; 0x96A], u "json (po-forward-slash)", u "")
  ∧ ¬ Forall (λ ch, 0x30 ≤ ch ≤ 0x39) [0x967; 0x968; 0x969; 0x96A].
Proof.
  split; [vm_compute; reflexivity|].
  intros H. apply Forall_cons in H as [H _]. lia.
Qed.

(** The source of a result names a rule that matched. *)
Lemma source_names_rule (U : unicodedata) (text : str) :
  (advanced_po_extraction_v48 U text).1.2 = u ""
  ∨ ∃ name rx m,
      (name, rx) ∈ patterns U
      ∧ search U rx (norm_advanced U text) = Some m
      ∧ (advanced_po_extraction_v48 U text).1.2
        = u "json (" ++ u name ++ u ")".
Proof.
  destruct text as [|ch text]; [by left|].
  unfold advanced_po_extraction_v48.
  destruct (first_match_spec U (patterns U) (norm_advanced U (ch :: text)))
    as [[-> _]|(ps1 & name & rx & ps2 & m & Hps & _ & Hm & ->)]; [by left|].
  right. exists name, rx, m. split; [|done].
  rewrite Hps. apply elem_of_app. right. left.
Qed.

(** C8: the two rules whose patterns open with a parenthesis never give
    the result, and never match at all, because the normalised text has
    no parenthesis. *)
Theorem parentheses_rules_never_match (U : unicodedata) (text : str) :
  (advanced_po_extraction_v48 U text).1.2 ≠ u "json (parentheses-end)"
  ∧ (advanced_po_extraction_v48 U text).1.2 ≠ u "json (parentheses)"
  ∧ search U (RX_PARENTHESES_NUM_END U) (norm_advanced U text) = None
  ∧ search U (RX_PARENTHESES_NUM U) (norm_advanced U text) = None.
Proof.
  assert (Forall (λ ch, ch ≠ 0x28) (norm_advanced U text)) as Hno.
  { eapply Forall_impl; [apply norm_advanced_folded|].
    intros ch Hch ->. apply Hch. decide_closed. }
  assert (search U (RX_PARENTHESES_NUM_END U) (norm_advanced U text) = None)
    as Hend by (by apply (search_starts_with U 0x28)).
  assert (search U (RX_PARENTHESES_NUM U) (norm_advanced U text) = None)
    as Hany by (by apply (search_starts_with U 0x28)).
  assert (∀ rule,
            rule = "parentheses-end"%string ∨ rule = "parentheses"%string →
            (advanced_po_extraction_v48 U text).1.2
            ≠ u "json (" ++ u rule ++ u ")") as Hsrc.
  { intros rule Hrule Hsrc.
    destruct (source_names_rule U text)
      as [Hnone|(name & rx & m & Hin & Hm & Hname)].
    - rewrite Hnone in Hsrc. destruct Hrule as [-> | ->]; discriminate Hsrc.
    - rewrite Hname in Hsrc. unfold patterns in Hin.
      repeat (apply elem_of_cons in Hin as [[= -> ->]|Hin];
              [destruct Hrule as [-> | ->];
               first [vm_compute in Hsrc; discriminate Hsrc | congruence]|]).
      by apply elem_of_nil in Hin. }
  split; [apply (Hsrc "parentheses-end"%string); by left|].
  split; [apply (Hsrc "parentheses"%string); by right|done].
Qed.

Lemma ignorecase_ascii_lit (U : unicodedata) (c : char) :
  ascii_cases U → c < 0x80 →
  ignorecase_atom U (Lit c)
  = if negb (c =? ascii_lower c) || negb (c =? ascii_upper c)
    then LitIgnore (ascii_lower c) else Lit c.
Proof.
  intros HU Hc. destruct (HU c Hc) as [Hl Hu].
  unfold ignorecase_atom, iscased. by rewrite Hl, Hu.
Qed.

Lemma po_slash_is_po_forward_slash (U : unicodedata) :
  ascii_cases U → RX_PO_SLASH U = RX_PO_FORWARD_SLASH U.
Proof.
  intros HU. unfold RX_PO_SLASH, RX_PO_FORWARD_SLASH, re_compile.
  cbn [seqs foldr ignorecase]. do 2 f_equal.
  unfold lit. change (u "PO") with [0x50; 0x4F]. change (u "po") with [0x70; 0x6F].
  unfold chars. cbn [seqs List.map foldr ignorecase].
  by rewrite !(ignorecase_ascii_lit U _ HU) by done.
Qed.

(** C9: under [re.IGNORECASE] the rule [po-slash] is the rule
    [po-forward-slash], which is tried before it, so it never gives the
    result. *)
Theorem po_slash_never_matches (U : unicodedata) (text : str) :
  ascii_cases U →
  (∀ t, search U (RX_PO_SLASH U) t = search U (RX_PO_FORWARD_SLASH U) t)
  ∧ (advanced_po_extraction_v48 U text).1.2 ≠ u "json (po-slash)".
Proof.
  intros HU. pose proof (po_slash_is_po_forward_slash U HU) as Heq.
  split; [intros t; by rewrite Heq|].
  destruct text as [|ch text]; [done|].
  unfold advanced_po_extraction_v48, patterns. cbn [first_match].
  rewrite Heq.
  repeat case_match; cbn [fst snd]; try congruence;
    intros Hsrc; vm_compute in Hsrc; discriminate Hsrc.
Qed.

Lemma po_slash_never_matches_witness :
  advanced_po_extraction_v48 ucd (u "PO / 173822")
  = (u "173822", u "json (po-forward-slash)", u "")
  ∧ (advanced_po_extraction_v48 ucd (u "PO / 173822")).1.2
    ≠ u "json (po-slash)".
Proof.
  split; [vm_compute; reflexivity|].
  apply (po_slash_never_matches ucd (u "PO / 173822") ucd_ascii_cases).
Defined.

(** ** The extractor on ASCII texts *)

Lemma is_ascii_enum ch : is_ascii ch → ch ∈ ascii_chars.
Proof. apply (below_enum 128). Qed.

Lemma ascii_all (P : char → Prop) :
  Forall P ascii_chars → ∀ ch, is_ascii ch → P ch.
Proof.
  intros Hall ch Hch. rewrite Forall_forall in Hall.
  by apply Hall, is_ascii_enum.
Qed.

(** Characters that NFKC leaves alone *)

Section Inert.
Variable inert : list char.
Hypothesis inert_decompose : Forall (λ c, decompose_char c = [c]) inert.
Hypothesis inert_combining : Forall (λ c, combining c = 0) inert.
Hypothesis inert_compose :
  Forall (λ a, Forall (λ b, compose_pair a b = None) inert) inert.

Lemma decompose_inert s :
  Forall (λ c, c ∈ inert) s → s ≫= decompose_char = s.
Proof.
  induction 1 as [|ch s Hch Hs IH]; [done|].
  rewrite bind_cons, IH. rewrite Forall_forall in inert_decompose.
  by rewrite (inert_decompose ch Hch).
Qed.

Lemma combining_inert ch : ch ∈ inert → combining ch = 0.
Proof. rewrite Forall_forall in inert_combining. apply inert_combining. Qed.

Lemma compose_pair_inert a b :
  a ∈ inert → b ∈ inert → compose_pair a b = None.
Proof.
  intros Ha Hb. rewrite Forall_forall in inert_compose.
  specialize (inert_compose a Ha). rewrite Forall_forall in inert_compose.
  by apply inert_compose.
Qed.

Lemma reorder_inert s : Forall (λ c, c ∈ inert) s → reorder s = s.
Proof.
  intros Hs. unfold reorder.
  assert (∀ acc, foldl (λ acc c, insert_mark c acc) acc s
                 = reverse s ++ acc) as ->.
  { induction Hs as [|ch s Hch Hs IH]; intros acc; [done|].
    cbn [foldl]. rewrite IH, reverse_cons, <- app_assoc.
    destruct acc as [|d acc]; [done|]. cbn [insert_mark].
    by rewrite (combining_inert ch Hch). }
  by rewrite app_nil_r, reverse_involutive.
Qed.

Lemma compose_from_inert s acc st :
  Forall (λ c, c ∈ inert) s → st ∈ inert →
  (let '(acc', cur, _) := foldl compose_step (acc, Some (st, []), 0) s in
   reverse (match cur with
            | Some (starter, marks) => marks ++ starter :: acc'
            | None => acc'
            end))
  = reverse acc ++ st :: s.
Proof.
  intros Hs. revert acc st.
  induction Hs as [|ch s Hch Hs IH]; intros acc st Hst.
  - cbn [foldl app]. by rewrite reverse_cons.
  - cbn [foldl]. unfold compose_step at 2.
    rewrite (compose_pair_inert st ch Hst Hch), (combining_inert ch Hch).
    cbn [app N.eqb].
    by rewrite (IH (st :: acc) ch Hch), reverse_cons, <- app_assoc.
Qed.

Lemma compose_inert s : Forall (λ c, c ∈ inert) s → compose s = s.
Proof.
  intros Hs. unfold compose.
  destruct Hs as [|ch s Hch Hs]; [done|].
  cbn [foldl]. unfold compose_step at 2.
  rewrite (combining_inert ch Hch). cbn [app N.eqb].
  by rewrite (compose_from_inert s [] ch Hs Hch).
Qed.

Lemma sample_NFKC_inert s : Forall (λ c, c ∈ inert) s → sample_NFKC s = s.
Proof.
  intros Hs. unfold sample_NFKC.
  by rewrite (decompose_inert s Hs), (reorder_inert s Hs), (compose_inert s Hs).
Qed.

End Inert.

Lemma sample_NFKC_ascii s : Forall is_ascii s → sample_NFKC s = s.
Proof.
  intros Hs. apply (sample_NFKC_inert ascii_chars); [decide_closed..|].
  eapply Forall_impl; [exact Hs|]. apply is_ascii_enum.
Qed.

Lemma replace_app old new s1 s2 :
  replace old new (s1 ++ s2) = replace old new s1 ++ replace old new s2.
Proof. apply bind_app. Qed.

Lemma translate_app table s1 s2 :
  translate table (s1 ++ s2) = translate table s1 ++ translate table s2.
Proof. apply map_app. Qed.

Lemma fold_chars_app s1 s2 :
  fold_chars (s1 ++ s2) = fold_chars s1 ++ fold_chars s2.
Proof.
  unfold fold_chars. cbn [foldl BIDI_MARKS].
  by rewrite !replace_app, translate_app, !replace_app.
Qed.

Lemma lstrip_by_app sp s1 s2 :
  lstrip_by sp (s1 ++ s2)
  = match lstrip_by sp s1 with
    | [] => lstrip_by sp s2
    | x => x ++ s2
    end.
Proof.
  induction s1 as [|ch s1 IH]; [done|]. cbn. by destruct (sp ch).
Qed.

Lemma norm_advanced_Forall (U : unicodedata) (P : char → Prop) s :
  Forall P fillers → Forall P (normalize_NFKC U s) →
  Forall P (norm_advanced U s).
Proof.
  intros Hf Hs. rewrite norm_advanced_unfold. destruct s; [done|].
  apply strip_Forall, sub_blanks_from_Forall.
  { rewrite Forall_forall in Hf. apply Hf. compute_done. }
  apply fold_chars_Forall; [done|].
  unfold strip_combining. apply Forall_forall. intros ch Hin.
  apply list_elem_of_filter in Hin as [_ Hin].
  rewrite Forall_forall in Hs. by apply Hs.
Qed.

(** The normal form of an ASCII text that starts with the label. *)
Lemma norm_advanced_label rest :
  Forall is_ascii rest →
  ∃ z, norm_advanced ucd (u "PO NUM: 7906 " ++ rest) = u "PO NUM: 7906" ++ z
       ∧ (z = [] ∨ ∃ z', z = 0x20 :: z')
       ∧ Forall is_ascii z.
Proof.
  intros Hrest.
  assert (Forall is_ascii (u "PO NUM: 7906 " ++ rest)) as Htext.
  { apply Forall_app. split; [|done]. unfold is_ascii. decide_closed. }
  assert (Forall is_ascii (norm_advanced ucd (u "PO NUM: 7906 " ++ rest)))
    as Hascii.
  { apply norm_advanced_Forall; [unfold is_ascii; decide_closed|].
    cbn [normalize_NFKC ucd]. by rewrite sample_NFKC_ascii. }
  revert Hascii. rewrite norm_advanced_unfold.
  change (u "PO NUM: 7906 " ++ rest) with (0x50 :: (u "O NUM: 7906 " ++ rest)).
  cbv iota. change (0x50 :: (u "O NUM: 7906 " ++ rest))
    with (u "PO NUM: 7906 " ++ rest).
  cbn [normalize_NFKC ucd]. rewrite (sample_NFKC_ascii _ Htext).
  assert (strip_combining ucd (u "PO NUM: 7906 " ++ rest)
          = u "PO NUM: 7906 " ++ rest) as ->.
  { apply filter_all. eapply Forall_impl; [exact Htext|].
    intros ch Hch. by apply ucd_ascii_not_Mn. }
  rewrite fold_chars_app.
  change (fold_chars (u "PO NUM: 7906 ")) with (u "PO NUM: 7906 ").
  set (w := sub_blanks_from true (fold_chars rest)).
  change (sub_blanks (u "PO NUM: 7906 " ++ fold_chars rest))
    with (u "PO NUM: 7906 " ++ w).
  unfold strip.
  change (lstrip_by (isspace ucd) (u "PO NUM: 7906 " ++ w))
    with (u "PO NUM: 7906 " ++ w).
  rewrite reverse_app, lstrip_by_app.
  destruct (lstrip_by (isspace ucd) (reverse w)) as [|x xs] eqn:E.
  - intros _. exists []. split; [|split; [by left|done]].
    by rewrite app_nil_r.
  - intros Hascii. exists (0x20 :: reverse (x :: xs)).
    assert (reverse ((x :: xs) ++ reverse (u "PO NUM: 7906 "))
            = u "PO NUM: 7906" ++ 0x20 :: reverse (x :: xs)) as Heq.
    { rewrite reverse_app, reverse_involutive.
      by change (u "PO NUM: 7906 ") with (u "PO NUM: 7906" ++ [0x20]);
        rewrite <- app_assoc. }
    split; [exact Heq|]. split; [by right; eexists|].
    rewrite Heq in Hascii. by apply Forall_app in Hascii as [_ ?].
Qed.

(** X1: on an ASCII text that starts with "PO NUM: 7906 " the label is
    found whatever follows it, a number at the end of the text
    included. *)
Theorem po_num_label_wins (rest : str) :
  Forall is_ascii rest →
  advanced_po_extraction_v48 ucd (u "PO NUM: 7906 " ++ rest)
  = (u "7906", u "json (po-num-colon)", u "").
Proof.
  intros Hrest.
  destruct (norm_advanced_label rest Hrest) as (z & Hnorm & Hz & Hascii).
  assert (search ucd (RX_ARABIC_MEALS_NUM ucd) (u "PO NUM: 7906" ++ z) = None)
    as Hmeals.
  { apply (search_starts_with ucd 0x648); [done|].
    apply Forall_app. split; [decide_closed|].
    eapply Forall_impl; [exact Hascii|]. unfold is_ascii. intros ch ? ->. lia. }
  assert (search ucd (RX_PO_NUM_COLON ucd) (u "PO NUM: 7906" ++ z)
          = Some [(1%nat, u "7906")]) as Hcolon.
  { destruct Hz as [->|[z' ->]]; [vm_compute; reflexivity|].
    unfold search. lazy -[take length Nat.sub].
    do 3 f_equal. cbn [length].
    replace (S (S (S (S (S (length z'))))) - S (length z'))%nat
      with 4%nat by lia.
    reflexivity. }
  unfold advanced_po_extraction_v48.
  change (u "PO NUM: 7906 " ++ rest) with (0x50 :: (u "O NUM: 7906 " ++ rest)).
  cbv iota. change (0x50 :: (u "O NUM: 7906 " ++ rest))
    with (u "PO NUM: 7906 " ++ rest).
  rewrite Hnorm. unfold patterns. cbn [first_match].
  by rewrite Hmeals, Hcolon.
Qed.

Lemma po_num_label_wins_witness :
  advanced_po_extraction_v48 ucd (u "PO NUM: 7906 " ++ u "(ref) 173128")
  = (u "7906", u "json (po-num-colon)", u "").
Proof.
  apply (po_num_label_wins (u "(ref) 173128")). unfold is_ascii. decide_closed.
Defined.

(** The four end-to-end scenarios, evaluated on the sample
    database: the meals phrase, [PO/] with a number, a number glued to
    a date, and a text with no number. *)
Example end_to_end_scenarios :
  advanced_po_extraction_v48 ucd arabic_meals_text
  = (u "173417", u "json (arabic-meals)", u "")
  ∧ advanced_po_extraction_v48 ucd (u "PO/172237 other content")
    = (u "172237", u "json (po-forward-slash)", u "")
  ∧ advanced_po_extraction_v48 ucd (u "17418015/8/2025")
    = (u "174180", u "json (num-concat-date)", u "")
  ∧ advanced_po_extraction_v48 ucd (u "Regular invoice text with no numbers")
    = (u "", u "", u "no PO found").
Proof. repeat split; vm_compute; reflexivity. Qed.


(** ** Reading the record walkers *)

Ltac keys_differ := let H := fresh in intros H; vm_compute in H; discriminate H.

Lemma has_Some (x : json) : bool_decide (is_Some (Some x)) = true.
Proof. done. Qed.

Lemma has_None : bool_decide (is_Some (@None json)) = false.
Proof. done. Qed.

Lemma dict_get_set_eq d k v : dict_get (dict_set d k v) k = Some v.
Proof.
  induction d as [|[k' v'] d IH]; simpl.
  - by rewrite bool_decide_eq_true_2.
  - destruct (bool_decide (k' = k)) eqn:E; simpl.
    + by rewrite bool_decide_eq_true_2.
    + by rewrite E.
Qed.

Lemma dict_get_set_ne d k v k' :
  k ≠ k' → dict_get (dict_set d k v) k' = dict_get d k'.
Proof.
  intros Hne. induction d as [|[k0 v0] d IH]; simpl.
  - by rewrite bool_decide_eq_false_2.
  - destruct (bool_decide (k0 = k)) eqn:E; simpl.
    + apply bool_decide_eq_true_1 in E. subst k0.
      by rewrite !bool_decide_eq_false_2.
    + by rewrite IH.
Qed.

Section WalkerFacts.
Variable U : unicodedata.
Variable P : runtime.

(** C10: when the document is a string that [json.loads] rejects, the
    exception leaves the [try] before any other field is read: the result
    is the error triple, its note starts with "extraction error: " and
    ends with the message of the exception, and nothing else of the
    record counts. *)
Theorem invalid_document_aborts_extraction (d : list (str * json))
    (s : str) (e : exn) :
  dict_get d (u "document") = Some (JStr s) →
  json_loads P s = Raise e →
  extract_po_from_json U P (JObj d)
  = (u "", u "", u "extraction error: " ++ str_exn P e)
  ∧ (extract_po_from_json U P (JObj d)).2 ≠ u "no PO found".
Proof.
  intros Hdoc Hloads.
  assert (extract_po_from_json U P (JObj d)
          = (u "", u "", u "extraction error: " ++ str_exn P e)) as ->.
  { unfold extract_po_from_json, combined_text. cbn [py_in py_getitem].
    rewrite Hdoc. cbn. by rewrite Hloads. }
  split; [done|]. cbn [snd]. intros H. vm_compute in H. discriminate H.
Qed.

Lemma document_resolved_same d s D :
  json_loads P s = Ok (JObj D) →
  py_getitem (JObj (dict_set d (u "document") (JStr s))) (u "document")
    ≫= load_document P
  = py_getitem (JObj (dict_set d (u "document") (JObj D))) (u "document")
    ≫= load_document P.
Proof.
  intros H. cbn [py_getitem]. rewrite !dict_get_set_eq. cbn. by rewrite H.
Qed.

Lemma combined_text_same d s D :
  json_loads P s = Ok (JObj D) →
  combined_text P (JObj (dict_set d (u "document") (JStr s)))
  = combined_text P (JObj (dict_set d (u "document") (JObj D))).
Proof.
  intros H. unfold combined_text.
  rewrite (document_resolved_same d s D H).
  cbn [py_in py_getitem].
  rewrite !dict_get_set_eq.
  by rewrite !dict_get_set_ne by keys_differ.
Qed.

(** C5: a document given as a JSON text and the object that the text
    decodes to give the same field mapping and the same PO result. *)
Theorem document_string_transparent (d D : list (str * json)) (s : str) :
  json_loads P s = Ok (JObj D) →
  parse_json_fields U P (JObj (dict_set d (u "document") (JStr s)))
  = parse_json_fields U P (JObj (dict_set d (u "document") (JObj D)))
  ∧ extract_po_from_json U P (JObj (dict_set d (u "document") (JStr s)))
    = extract_po_from_json U P (JObj (dict_set d (u "document") (JObj D))).
Proof.
  intros H.
  assert (extract_po_from_json U P (JObj (dict_set d (u "document") (JStr s)))
          = extract_po_from_json U P (JObj (dict_set d (u "document") (JObj D))))
    as Hpo.
  { unfold extract_po_from_json. by rewrite (combined_text_same d s D H). }
  split; [|done].
  unfold parse_json_fields. rewrite Hpo.
  unfold document_details. rewrite (document_resolved_same d s D H).
  rewrite !dict_get_set_eq.
  by rewrite !dict_get_set_ne by keys_differ.
Qed.

(** The text that [extract_po_from_json] assembles *)

Lemma strs_from_strs i (ss : list str) : strs_from i (JStr <$> ss) = Ok ss.
Proof.
  revert i. induction ss as [|s ss IH]; intros i; [done|].
  cbn. by rewrite IH.
Qed.

Lemma py_join_strs sep (ss : list str) :
  py_join sep (JStr <$> ss) = Ok (join sep ss).
Proof. unfold py_join. by rewrite strs_from_strs. Qed.

Lemma line_descriptions_text lines :
  Forall line_with_text lines →
  line_descriptions lines = Ok (JStr <$> descriptions lines).
Proof.
  induction 1 as [|line lines (members & -> & Hd) Hl IH]; [done|].
  cbn [line_descriptions py_in]. unfold descriptions. rewrite bind_cons.
  fold (descriptions lines). rewrite fmap_app.
  unfold str_part. specialize (Hd).
  destruct (dict_get members (u "description")) as [v|] eqn:E.
  - destruct (Hd v) as [s ->]; [done|].
    rewrite has_Some. cbn [mbind result_bind py_getitem].
    rewrite E, IH. done.
  - rewrite has_None.
    cbn. rewrite IH. done.
Qed.

Lemma invoice_line_descriptions_text dm :
  (∀ v, dict_get dm (u "invoiceLines") = Some v → ∃ lines, v = JArr lines) →
  Forall line_with_text (invoice_lines dm) →
  invoice_line_descriptions (JObj dm)
  = Ok (JStr <$> descriptions (invoice_lines dm)).
Proof.
  intros Harr Hlines. unfold invoice_line_descriptions, invoice_lines in *.
  cbn [py_in py_getitem].
  destruct (dict_get dm (u "invoiceLines")) as [v|] eqn:E.
  - destruct (Harr v) as [lines ->]; [done|].
    rewrite has_Some. cbn.
    by apply line_descriptions_text.
  - by rewrite has_None.
Qed.

(** C7 (as the code has it): for a record whose document resolves to an
    object, with an array of line objects and with names that are
    strings, the text handed to the extractor is the descriptions in
    array order, then issuerName, receiverName and "Internal ID: " with
    internalId, joined by newlines.  A member that is missing gives no
    line; a member that is there gives its line, empty or not. *)
Theorem text_handed_to_extractor (d dm : list (str * json)) (x : json) :
  dict_get d (u "document") = Some x →
  load_document P x = Ok (JObj dm) →
  (∀ v, dict_get dm (u "invoiceLines") = Some v → ∃ lines, v = JArr lines) →
  Forall line_with_text (invoice_lines dm) →
  str_if_present d "issuerName" →
  str_if_present d "receiverName" →
  let parts :=
    descriptions (invoice_lines dm) ++ str_part d "issuerName"
      ++ str_part d "receiverName" ++ internal_id_part P d in
  combined_text P (JObj d) = Ok (join [0x0A] parts)
  ∧ extract_po_from_json U P (JObj d)
    = advanced_po_extraction_v48 U (join [0x0A] parts).
Proof.
  intros Hdoc Hload Harr Hlines Hissuer Hreceiver parts.
  assert (combined_text P (JObj d) = Ok (join [0x0A] parts)) as Htext.
  { unfold combined_text. cbn [py_in py_getitem]. rewrite Hdoc.
    rewrite has_Some.
    cbn [mbind result_bind]. rewrite Hload. cbn [mbind result_bind].
    rewrite (invoice_line_descriptions_text dm Harr Hlines).
    subst parts. unfold str_part, internal_id_part.
    set (ds := descriptions (invoice_lines dm)).
    destruct (dict_get d (u "issuerName")) as [v1|] eqn:E1;
      [destruct (Hissuer v1 E1) as [s1 ->];
       rewrite has_Some
      |rewrite has_None];
    (destruct (dict_get d (u "receiverName")) as [v2|] eqn:E2;
      [destruct (Hreceiver v2 E2) as [s2 ->];
       rewrite has_Some
      |rewrite has_None]);
    (destruct (dict_get d (u "internalId")) as [v3|] eqn:E3;
      [rewrite has_Some
      |rewrite has_None]);
    cbn [mbind result_bind mret result_ret];
    match goal with
    | |- py_join _ ?l = Ok (join _ ?ps) =>
        trans (py_join [0x0A] (JStr <$> ps));
        [f_equal; rewrite ?fmap_app, <- ?app_assoc; simpl;
         rewrite ?app_nil_r; reflexivity
        |apply py_join_strs]
    end. }
  split; [done|]. unfold extract_po_from_json. by rewrite Htext.
Qed.

(** What [parse_json_fields] stores *)

Lemma writes_only_ret {A} K (a : A) : writes_only K (mret a).
Proof. by intros fields k _. Qed.

Lemma writes_only_eval {A} K (r : result A) : writes_only K (eval r).
Proof. by intros fields k _. Qed.

Lemma writes_only_store K k v : u k ∈ K → writes_only K (store k v).
Proof.
  intros Hk fields k' Hk'. cbn. apply lookup_insert_ne. by intros <-.
Qed.

Lemma writes_only_bind {A B} K (m : block A) (f : A → block B) :
  writes_only K m → (∀ a, writes_only K (f a)) → writes_only K (m ≫= f).
Proof.
  intros Hm Hf fields k Hk. unfold mbind, block_bind.
  specialize (Hm fields k Hk).
  destruct (m fields) as [fields' [a|e]]; cbn in *; [|done].
  by rewrite (Hf a fields' k Hk).
Qed.

Lemma writes_only_lookup {A} K (b : block A) fields k :
  writes_only K b → k ∉ K → (b fields).1 !! k = fields !! k.
Proof. intros Hb Hk. by apply Hb. Qed.

Lemma store_address_writes K doc party field :
  u field ∈ K → writes_only K (store_address P doc party field).
Proof.
  intros Hf. unfold store_address.
  repeat first
    [ apply writes_only_ret
    | apply writes_only_eval
    | apply writes_only_store; exact Hf
    | apply writes_only_bind; [|intros ?]
    | match goal with |- writes_only _ (if ?b then _ else _) => destruct b end ].
Qed.

Lemma document_details_writes json_data :
  writes_only (u <$> document_fields) (document_details P json_data).
Proof.
  unfold document_details.
  repeat first
    [ apply store_address_writes; compute_done
    | apply writes_only_ret
    | apply writes_only_eval
    | apply writes_only_store; compute_done
    | apply writes_only_bind; [|intros ?] ].
Qed.

(** The inner [try] when the document does not resolve. *)
Lemma document_details_raise d s e fields :
  dict_get d (u "document") = Some (JStr s) →
  json_loads P s = Raise e →
  try_pass (document_details P (JObj d)) fields = fields.
Proof.
  intros Hdoc Hloads. unfold try_pass, document_details.
  cbn [py_getitem]. rewrite Hdoc. cbn. by rewrite Hloads.
Qed.

Lemma bind_eval_ok {A B} (a : A) (f : A → block B) fields :
  (eval (Ok a) ≫= f) fields = f a fields.
Proof. done. Qed.

Lemma bind_store {B} k v (f : () → block B) fields :
  (store k v ≫= f) fields = f () (<[u k := v]> fields).
Proof. done. Qed.

(** When it resolves to an object, the first three stores are done. *)
Lemma document_details_types d x dm fields k :
  dict_get d (u "document") = Some x →
  load_document P x = Ok (JObj dm) →
  k ∈ ["documentType"; "documentTypeVersion"; "taxpayerActivityCode"]%string →
  try_pass (document_details P (JObj d)) fields !! u k
  = Some (default (JStr []) (dict_get dm (u k))).
Proof.
  intros Hdoc Hload Hk.
  assert (py_getitem (JObj d) (u "document") ≫= load_document P
          = Ok (JObj dm)) as Hres.
  { cbn [py_getitem]. rewrite Hdoc. exact Hload. }
  unfold try_pass, document_details. rewrite Hres.
  rewrite bind_eval_ok. cbn [py_get].
  rewrite bind_eval_ok, bind_store, bind_eval_ok, bind_store, bind_eval_ok,
    bind_store.
  cbv beta.
  lazymatch goal with
  | |- (?b ?f).1 !! ?k' = _ =>
      rewrite (writes_only_lookup
                 (u <$> ["descriptions"; "issuer_address";
                         "receiver_address"]%string) b f k')
  end.
  - repeat (apply elem_of_cons in Hk as [->|Hk]);
      [| |  |by apply elem_of_nil in Hk].
    + rewrite !lookup_insert_ne by keys_differ. apply lookup_insert_eq.
    + rewrite !lookup_insert_ne by keys_differ. apply lookup_insert_eq.
    + apply lookup_insert_eq.
  - repeat first
      [ apply store_address_writes; compute_done
      | apply writes_only_ret
      | apply writes_only_eval
      | apply writes_only_store; compute_done
      | apply writes_only_bind; [|intros ?] ].
  - repeat (apply elem_of_cons in Hk as [->|Hk]);
      [compute_done..|by apply elem_of_nil in Hk].
Qed.

Ltac lookup_inserted :=
  repeat first
    [ rewrite lookup_insert_eq
    | rewrite lookup_insert_ne by keys_differ
    | rewrite lookup_empty ].

(** C6 (as the code has it): for a record that is an object the result
    is a mapping, not the error mapping.  It always holds "filename", the
    fifteen fields copied from the record (the record's own value, or the
    empty string when the record has none) and the three PO fields, which
    are strings.  The six fields of the document are left out when the
    record has no document or when the document is a string that
    [json.loads] rejects; when the document resolves to an object, the
    three type and activity fields are there. *)
Theorem parse_json_fields_keys (d : list (str * json)) :
  let fields := parse_json_fields U P (JObj d) in
  fields !! u "filename" = Some (JStr (u "JSON_DATA"))
  ∧ (∀ k k', (k, k') ∈ record_fields →
       fields !! u k = Some (default (JStr []) (dict_get d (u k'))))
  ∧ (fields !! u "PO number"
       = Some (JStr (extract_po_from_json U P (JObj d)).1.1)
     ∧ fields !! u "PO source"
       = Some (JStr (extract_po_from_json U P (JObj d)).1.2)
     ∧ fields !! u "PO note"
       = Some (JStr (extract_po_from_json U P (JObj d)).2))
  ∧ fields !! u "error" = None
  ∧ ((dict_get d (u "document") = None
      ∨ ∃ s e, dict_get d (u "document") = Some (JStr s)
               ∧ json_loads P s = Raise e) →
     ∀ k, k ∈ document_fields → fields !! u k = None)
  ∧ (∀ x dm, dict_get d (u "document") = Some x →
       load_document P x = Ok (JObj dm) →
       ∀ k, k ∈ ["documentType"; "documentTypeVersion";
                 "taxpayerActivityCode"]%string →
         fields !! u k = Some (default (JStr []) (dict_get dm (u k)))).
Proof.
  intros fields. subst fields. unfold parse_json_fields.
  destruct (extract_po_from_json U P (JObj d)) as [[po_number po_source] po_note].
  cbn [fst snd].
  set (get := λ k : string, default (JStr []) (dict_get d (u k))).
  match goal with
  | |- context [<[u "PO number" := _]> ?f] => set (mid := f)
  end.
  match type of mid with
  | _ => match eval unfold mid in mid with
         | if _ then try_pass _ ?f else _ => set (top := f) in *
         end
  end.
  assert (∀ k, k ∉ (u <$> document_fields) → mid !! k = top !! k) as Hmid.
  { intros k Hk. subst mid. destruct (bool_decide _); [|done].
    by apply document_details_writes. }
  split; [|split; [|split; [|split; [|split]]]].
  - lookup_inserted. rewrite Hmid by compute_done. subst top. by lookup_inserted.
  - intros k k' Hk. unfold record_fields in Hk.
    repeat (apply elem_of_cons in Hk as [[= -> ->]|Hk];
            [lookup_inserted; rewrite Hmid by compute_done; subst top;
             by lookup_inserted|]).
    by apply elem_of_nil in Hk.
  - by lookup_inserted.
  - lookup_inserted. rewrite Hmid by compute_done. subst top. by lookup_inserted.
  - intros Hdoc k Hk.
    assert (mid = top) as ->.
    { subst mid. destruct Hdoc as [Hdoc|(s & e & Hdoc & Hloads)]; rewrite Hdoc.
      - done.
      - rewrite has_Some. by apply document_details_raise with s e. }
    unfold document_fields in Hk.
    repeat (apply elem_of_cons in Hk as [->|Hk];
            [subst top; by lookup_inserted|]).
    by apply elem_of_nil in Hk.
  - intros x dm Hdoc Hload k Hk.
    assert (mid !! u k = Some (default (JStr []) (dict_get dm (u k)))) as Hv.
    { subst mid. rewrite Hdoc, has_Some.
      by apply document_details_types with x. }
    repeat (apply elem_of_cons in Hk as [->|Hk]);
      [by lookup_inserted..|by apply elem_of_nil in Hk].
Qed.

End WalkerFacts.

Lemma invalid_document_aborts_extraction_witness :
  extract_po_from_json ucd python
    (JObj [(u "document", JStr (u "not json"));
           (u "issuerName", JStr (u "PO NUM: 7906"))])
  = (u "", u "",
     u "extraction error: Expecting value: line 1 column 1 (char 0)")
  ∧ (extract_po_from_json ucd python
       (JObj [(u "document", JStr (u "not json"));
              (u "issuerName", JStr (u "PO NUM: 7906"))])).2
    ≠ u "no PO found".
Proof.
  apply (invalid_document_aborts_extraction ucd python
           [(u "document", JStr (u "not json"));
            (u "issuerName", JStr (u "PO NUM: 7906"))]
           (u "not json")
           (JSONDecodeError "Expecting value" (u "not json") 0));
    vm_compute; reflexivity.
Defined.

Lemma document_string_transparent_witness :
  json_loads python sample_document_text = Ok (JObj sample_document)
  ∧ parse_json_fields ucd python
      (JObj (dict_set sample_record (u "document") (JStr sample_document_text)))
    = parse_json_fields ucd python
        (JObj (dict_set sample_record (u "document") (JObj sample_document)))
  ∧ extract_po_from_json ucd python
      (JObj (dict_set sample_record (u "document") (JStr sample_document_text)))
    = extract_po_from_json ucd python
        (JObj (dict_set sample_record (u "document") (JObj sample_document))).
Proof.
  split; [vm_compute; reflexivity|].
  apply (document_string_transparent ucd python sample_record sample_document
           sample_document_text).
  vm_compute; reflexivity.
Defined.

Lemma text_handed_to_extractor_witness :
  combined_text python
    (JObj (dict_set sample_record (u "document") (JStr sample_document_text)))
  = Ok (u "PO NUM: 7906" ++ [0x0A] ++ u "ACME" ++ [0x0A]
        ++ u "Internal ID: 173128")
  ∧ extract_po_from_json ucd python
      (JObj (dict_set sample_record (u "document") (JStr sample_document_text)))
    = (u "7906", u "json (po-num-colon)", u "").
Proof.
  apply (text_handed_to_extractor ucd python
           (dict_set sample_record (u "document") (JStr sample_document_text))
           sample_document (JStr sample_document_text)).
  - vm_compute; reflexivity.
  - vm_compute; reflexivity.
  - intros v H. vm_compute in H. injection H as <-. eexists; reflexivity.
  - repeat constructor; eexists; (split; [reflexivity|]);
      intros v H; vm_compute in H; first [discriminate H | injection H as <-];
      eexists; reflexivity.
  - intros v H. vm_compute in H. injection H as <-. eexists; reflexivity.
  - intros v H. vm_compute in H. discriminate H.
Defined.

(** C7, counterexample: an issuerName that is there and empty gives an
    empty first line; it is not left out. *)
Lemma empty_name_gives_blank_line :
  combined_text python (JObj record_with_empty_name) = Ok (0x0A :: u "ACME")
  ∧ combined_text python (JObj record_with_empty_name) ≠ Ok (u "ACME").
Proof. split; [vm_compute; reflexivity|vm_compute; discriminate]. Qed.

(** C6, counterexamples: with a document that is not valid JSON the
    mapping has no "documentType"; and a total that is a number in the
    record is a number in the mapping. *)
Lemma parse_json_fields_missing_keys :
  parse_json_fields ucd python (JObj [(u "document", JStr (u "not json"))])
    !! u "documentType" = None
  ∧ parse_json_fields ucd python (JObj sample_record) !! u "total"
    = Some (JNum (Int 100)).
Proof. split; vm_compute; reflexivity. Qed.

(** * Further properties *)

Ltac lookup_inserted :=
  repeat first
    [ rewrite lookup_insert_eq
    | rewrite lookup_insert_ne by keys_differ
    | rewrite lookup_empty ].

(** ** The PO number and the normalised text *)

Section MatchFacts.
Variable U : unicodedata.

Lemma run_suffix r c c' : run U r c c' → ∃ t, after c = t ++ after c'.
Proof.
  revert c c'.
  induction r as [|a|a lo hi greedy|r1 IH1 r2 IH2|r1 IH1 r2 IH2|r1 IH1|n r1 IH1| |];
    intros c c' Hr; simpl in Hr.
  - subst. by exists [].
  - destruct Hr as (ch & -> & _). by exists [ch].
  - destruct Hr as (taken & -> & _). by exists taken.
  - destruct Hr as (c1 & H1 & H2).
    apply IH1 in H1 as [t1 ->]. apply IH2 in H2 as [t2 ->].
    exists (t1 ++ t2). by rewrite app_assoc.
  - destruct Hr; eauto.
  - destruct Hr as [?| ->]; [eauto|by exists []].
  - destruct Hr as (c1 & H1 & ->). simpl. eauto.
  - destruct Hr as [-> _]. by exists [].
  - destruct Hr as [-> _]. by exists [].
Qed.

Lemma occurs_in_suffix d a s : occurs_in d s → occurs_in d (a ++ s).
Proof. intros (x & y & ->). exists (a ++ x), y. by rewrite app_assoc. Qed.

Lemma consumed_occurs c c' :
  (∃ t, after c = t ++ after c') → occurs_in (consumed c c') (after c).
Proof.
  intros [t Ht]. rewrite (consumed_app _ _ _ Ht). exists [], (after c').
  by rewrite Ht.
Qed.

(** Every group of a match holds a piece of the text. *)
Lemma run_captures text r c c' :
  run U r c c' →
  (∃ a, text = a ++ after c) →
  Forall (λ g, occurs_in g.2 text) (groups c) →
  Forall (λ g, occurs_in g.2 text) (groups c').
Proof.
  revert c c'.
  induction r as [|a|a lo hi greedy|r1 IH1 r2 IH2|r1 IH1 r2 IH2|r1 IH1|n r1 IH1| |];
    intros c c' Hr Hin Hg; simpl in Hr.
  - by subst.
  - destruct Hr as (? & ? & ? & ? & ->). done.
  - destruct Hr as (? & ? & ? & ? & ? & ? & ->). done.
  - destruct Hr as (c1 & H1 & H2).
    apply (IH2 c1 c' H2); [|by apply (IH1 c c1)].
    destruct Hin as [a ->]. destruct (run_suffix _ _ _ H1) as [t ->].
    exists (a ++ t). by rewrite app_assoc.
  - destruct Hr; eauto.
  - destruct Hr as [?| ->]; eauto.
  - destruct Hr as (c1 & H1 & ->). simpl. constructor; [|eauto].
    simpl. destruct Hin as [a ->]. apply occurs_in_suffix, consumed_occurs.
    by apply run_suffix with r1.
  - by destruct Hr as [-> _].
  - by destruct Hr as [-> _].
Qed.

Lemma group_elem (m : list (nat * str)) n d :
  group m n = Some d → (n, d) ∈ m.
Proof.
  induction m as [|[i s] m IH]; [done|]. simpl.
  destruct (Nat.eqb i n) eqn:E.
  - apply Nat.eqb_eq in E. intros [= ->]. subst. left.
  - intros H. right. auto.
Qed.

Lemma search_group_occurs r text m n d :
  search U r text = Some m → group m n = Some d → occurs_in d text.
Proof.
  intros Hs Hd. apply search_sound in Hs as (c & c' & Hr & Hg & -> & s1 & Ht).
  apply group_elem in Hd.
  assert (Forall (λ g, occurs_in g.2 text) (groups c')) as Hall.
  { apply (run_captures text r c c' Hr); [by exists s1|]. by rewrite Hg. }
  rewrite Forall_forall in Hall. by apply (Hall (n, d)).
Qed.

Lemma digit_run_prefix d b :
  Forall (λ ch, isdecimal U ch = true) d → (length d ≤ digit_run U (d ++ b))%nat.
Proof.
  induction 1 as [|ch d Hch Hd IH]; simpl; [lia|]. rewrite Hch. lia.
Qed.

Lemma digit_run_le_max s : (digit_run U s ≤ max_digit_run U s)%nat.
Proof. destruct s; simpl; lia. Qed.

Lemma max_digit_run_occurs d text :
  occurs_in d text → Forall (λ ch, isdecimal U ch = true) d →
  (length d ≤ max_digit_run U text)%nat.
Proof.
  intros (a & b & ->) Hd. induction a as [|x a IH]; simpl.
  - pose proof (digit_run_prefix d b Hd).
    pose proof (digit_run_le_max (d ++ b)). lia.
  - lia.
Qed.

(** A rule finds nothing in a text without four digits in a row. *)
Lemma rule_needs_digits name rx text :
  (name, rx) ∈ patterns U → (max_digit_run U text < 4)%nat →
  search U rx text = None.
Proof.
  intros Hin Hrun. destruct (search U rx text) as [m|] eqn:Hs; [|done].
  destruct (group1_of_rule U name rx text m Hin Hs) as (d & Hd & [Hlen Hdig]).
  pose proof (search_group_occurs rx text m 1 d Hs Hd) as Hocc.
  pose proof (max_digit_run_occurs d text Hocc Hdig). lia.
Qed.

Lemma first_match_none ps text :
  Forall (λ p, search U p.2 text = None) ps →
  first_match U ps text = (u "", u "", u "no PO found").
Proof.
  induction 1 as [|[name rx] ps Hp Hps IH]; [done|]. simpl in *.
  by rewrite Hp.
Qed.

Lemma first_match_needs_digits text :
  (max_digit_run U text < 4)%nat →
  first_match U (patterns U) text = (u "", u "", u "no PO found").
Proof.
  intros Hrun. apply first_match_none, Forall_forall. intros [name rx] Hin.
  by apply rule_needs_digits with name.
Qed.

End MatchFacts.

(** X2: the PO number that is returned stands in the normalised text. *)
Theorem po_number_in_normalised_text (U : unicodedata) (text : str) :
  occurs_in (advanced_po_extraction_v48 U text).1.1 (norm_advanced U text).
Proof.
  destruct text as [|ch text]; [by exists [], []|].
  unfold advanced_po_extraction_v48.
  set (t := norm_advanced U (ch :: text)).
  destruct (first_match_spec U (patterns U) t)
    as [[-> _]|(ps1 & name & rx & ps2 & m & Hps & _ & Hm & ->)].
  - exists [], t. done.
  - cbn [fst]. destruct (group m 1) as [d|] eqn:Hd.
    + by apply (search_group_occurs U rx t m 1 d).
    + exists [], t. done.
Qed.

(** X3: without four decimal digits in a row in the normalised text, no PO
    number is found. *)
Theorem no_digit_run_no_po (U : unicodedata) (text : str) :
  (max_digit_run U (norm_advanced U text) < 4)%nat →
  advanced_po_extraction_v48 U text = (u "", u "", u "no PO found").
Proof.
  intros Hrun. destruct text as [|ch text]; [done|].
  unfold advanced_po_extraction_v48. by apply first_match_needs_digits.
Qed.

Lemma no_digit_run_no_po_witness :
  max_digit_run ucd (norm_advanced ucd (u "Invoice 123 of 15/8/25, PO 987")) = 3%nat
  ∧ advanced_po_extraction_v48 ucd (u "Invoice 123 of 15/8/25, PO 987")
    = (u "", u "", u "no PO found").
Proof.
  split; [vm_compute; reflexivity|].
  apply (no_digit_run_no_po ucd (u "Invoice 123 of 15/8/25, PO 987")).
  vm_compute. lia.
Defined.

(** A text that is its own normal form. *)
Lemma norm_advanced_fixed (U : unicodedata) (t : str) :
  normalize_NFKC U t = t →
  Forall (λ ch, category U ch ≠ "Mn"%string) t →
  Forall (λ ch, ch ∉ folded) t →
  single_spaced false t →
  strip U t = t →
  norm_advanced U t = t.
Proof.
  intros Hnfkc Hmn Hf Hsp Hst. rewrite norm_advanced_unfold.
  destruct t as [|ch t]; [done|]. rewrite Hnfkc.
  assert (strip_combining U (ch :: t) = ch :: t) as ->.
  { unfold strip_combining. by apply filter_all. }
  rewrite fold_chars_id by done. unfold sub_blanks.
  by rewrite single_spaced_fixed.
Qed.

(** X4: normalising the text beforehand does not change the result. *)
Theorem extraction_of_normalised_text (U : unicodedata) (text : str) :
  ascii_not_Mn U →
  normalize_NFKC U (norm_advanced U text) = norm_advanced U text →
  advanced_po_extraction_v48 U (norm_advanced U text)
  = advanced_po_extraction_v48 U text.
Proof.
  intros HU Hnfkc.
  assert (norm_advanced U (norm_advanced U text) = norm_advanced U text) as Hfix.
  { apply norm_advanced_fixed; [done|by apply norm_advanced_not_Mn|
      apply norm_advanced_folded|apply norm_advanced_spaced|
      apply norm_advanced_stripped]. }
  destruct text as [|ch text]; [done|].
  unfold advanced_po_extraction_v48 at 2.
  destruct (norm_advanced U (ch :: text)) as [|x t] eqn:Ht.
  - symmetry. apply first_match_needs_digits. simpl. lia.
  - unfold advanced_po_extraction_v48. by rewrite Hfix.
Qed.

Lemma extraction_of_normalised_text_witness :
  norm_advanced ucd (u " PO  (NUM): " ++ [0x661; 0x6F2; 0x200F; 0xFF13; 0x664])
  = u "PO NUM : 1234"
  ∧ advanced_po_extraction_v48 ucd
      (norm_advanced ucd
         (u " PO  (NUM): " ++ [0x661; 0x6F2; 0x200F; 0xFF13; 0x664]))
    = advanced_po_extraction_v48 ucd
        (u " PO  (NUM): " ++ [0x661; 0x6F2; 0x200F; 0xFF13; 0x664]).
Proof.
  split; [vm_compute; reflexivity|].
  apply (extraction_of_normalised_text ucd
           (u " PO  (NUM): " ++ [0x661; 0x6F2; 0x200F; 0xFF13; 0x664])
           ucd_ascii_not_Mn).
  vm_compute; reflexivity.
Defined.

(** X5: the normalised text has none of the characters that the
    normaliser replaces. *)
Theorem norm_advanced_punctuation (U : unicodedata) (s : str) (ch : char) :
  ch ∈ [0xA0; 0xFF1A; 0x2013; 0x2014; 0x640; 0x28; 0x29; 0x5B; 0x5D] →
  ch ∉ norm_advanced U s.
Proof.
  intros Hch Hin.
  pose proof (norm_advanced_folded U s) as Hf. rewrite Forall_forall in Hf.
  apply (Hf ch Hin).
  repeat (apply elem_of_cons in Hch as [->|Hch]; [decide_closed|]).
  by apply elem_of_nil in Hch.
Qed.

Lemma norm_advanced_punctuation_witness :
  norm_advanced ucd (u "PO (NUM) [7906]") = u "PO NUM 7906"
  ∧ 0x28 ∉ norm_advanced ucd (u "PO (NUM) [7906]").
Proof.
  split; [vm_compute; reflexivity|].
  apply (norm_advanced_punctuation ucd (u "PO (NUM) [7906]") 0x28).
  decide_closed.
Defined.

(** The result with the rule that gave it. *)
Lemma extraction_by_rule (U : unicodedata) (text : str) (rule : string) :
  (advanced_po_extraction_v48 U text).1.2 = u "json (" ++ u rule ++ u ")" →
  ∃ name rx m,
    (name, rx) ∈ patterns U
    ∧ u "json (" ++ u name ++ u ")" = u "json (" ++ u rule ++ u ")"
    ∧ search U rx (norm_advanced U text) = Some m
    ∧ (advanced_po_extraction_v48 U text).1.1 = default [] (group m 1).
Proof.
  destruct text as [|ch text]; [intros H; vm_compute in H; discriminate H|].
  unfold advanced_po_extraction_v48.
  destruct (first_match_spec U (patterns U) (norm_advanced U (ch :: text)))
    as [[-> _]|(ps1 & name & rx & ps2 & m & Hps & _ & Hm & ->)].
  - intros H. vm_compute in H. discriminate H.
  - cbn [fst snd]. intros Hsrc. exists name, rx, m.
    split; [|done]. rewrite Hps. apply elem_of_app. right. left.
Qed.

(** X6: a number found by the rule standalone-6digit is the last six
    characters of the normalised text. *)
Theorem standalone_number_ends_text (U : unicodedata) (text : str) :
  isspace U 0x0A = true →
  (advanced_po_extraction_v48 U text).1.2 = u "json (standalone-6digit)" →
  ∃ a, norm_advanced U text = a ++ (advanced_po_extraction_v48 U text).1.1
       ∧ length (advanced_po_extraction_v48 U text).1.1 = 6%nat.
Proof.
  intros Hnl Hsrc.
  destruct (extraction_by_rule U text "standalone-6digit" Hsrc)
    as (name & rx & m & Hin & Hname & Hm & ->).
  assert (rx = RX_STANDALONE_6DIGIT U) as ->.
  { unfold patterns in Hin.
    repeat (apply elem_of_cons in Hin as [[= -> ->]|Hin];
            [first [vm_compute in Hname; discriminate Hname | reflexivity]|]).
    by apply elem_of_nil in Hin. }
  clear Hin Hname Hsrc.
  apply search_sound in Hm as (c & c' & Hr & Hg & -> & s1 & Ht).
  unfold RX_STANDALONE_6DIGIT, re_compile, digits, times, star in Hr.
  cbn [seqs foldr run] in Hr.
  destruct Hr as (c1 & [-> _] & c2 & (c3 & Hdig & ->) & c4 & Hsp & c5
                  & [-> Hend] & ->).
  destruct Hdig as (taken & Htaken & Hlo & Hhi & _ & _ & Hg3).
  destruct Hsp as (ws & Hws & _ & _ & Hspace & _ & Hg4).
  cbn [after groups] in *. rewrite Hg4. cbn [group Nat.eqb default from_option id].
  rewrite (consumed_app _ _ _ Htaken).
  specialize (Hhi 6%nat eq_refl).
  assert (ws ++ after c4 = []) as Hnil.
  { destruct (ws ++ after c4) as [|x rest] eqn:E using rev_ind; [done|].
    exfalso. clear IHrest.
    assert (isspace U x = true) as Hx.
    { destruct (after c4) as [|y [|z t]] eqn:E4; [| |done].
      - rewrite app_nil_r in E. subst ws.
        by apply Forall_app in Hspace as [_ [? _]%Forall_cons].
      - apply N.eqb_eq in Hend. subst y.
        apply app_inj_tail in E as [_ <-]. done. }
    assert (last (norm_advanced U text) = Some x) as Hlast.
    { rewrite Ht, Htaken, Hws, ?E, !app_assoc. apply last_snoc. }
    rewrite <- norm_advanced_stripped in Hlast.
    apply strip_last in Hlast. congruence. }
  exists s1. split; [|lia].
  by rewrite Ht, Htaken, Hws, Hnil, app_nil_r.
Qed.

Lemma standalone_number_ends_text_witness :
  advanced_po_extraction_v48 ucd (u "Delivery (note)  173128 ")
  = (u "173128", u "json (standalone-6digit)", u "")
  ∧ ∃ a, norm_advanced ucd (u "Delivery (note)  173128 ")
         = a ++ (advanced_po_extraction_v48 ucd (u "Delivery (note)  173128 ")).1.1
         ∧ length (advanced_po_extraction_v48 ucd
                     (u "Delivery (note)  173128 ")).1.1 = 6%nat.
Proof.
  split; [vm_compute; reflexivity|].
  apply (standalone_number_ends_text ucd (u "Delivery (note)  173128 "));
    vm_compute; reflexivity.
Defined.

(** ** Records with members of another type *)

Section RecordFacts.
Variable U : unicodedata.
Variable P : runtime.

Lemma combined_text_parts d :
  combined_text P (JObj d)
  = (lines ← document_lines P d;
     py_join [0x0A] (lines ++ record_parts P d)).
Proof.
  unfold combined_text, document_lines, record_parts, member_part.
  cbn [py_in py_getitem].
  destruct (dict_get d (u "document")) as [x|];
    [rewrite has_Some|rewrite has_None]; cbn [mbind result_bind mret result_ret].
  - destruct (load_document P x) as [doc|e]; [|done].
    cbn [mbind result_bind].
    destruct (invoice_line_descriptions doc) as [lines|e]; [|done].
    cbn [mbind result_bind].
    destruct (dict_get d (u "issuerName")) as [v1|];
      [rewrite has_Some|rewrite has_None];
    (destruct (dict_get d (u "receiverName")) as [v2|];
      [rewrite has_Some|rewrite has_None]);
    (destruct (dict_get d (u "internalId")) as [v3|];
      [rewrite has_Some|rewrite has_None]);
    cbn [mbind result_bind mret result_ret];
    f_equal; rewrite <- ?app_assoc; simpl; by rewrite ?app_nil_r.
  - destruct (dict_get d (u "issuerName")) as [v1|];
      [rewrite has_Some|rewrite has_None];
    (destruct (dict_get d (u "receiverName")) as [v2|];
      [rewrite has_Some|rewrite has_None]);
    (destruct (dict_get d (u "internalId")) as [v3|];
      [rewrite has_Some|rewrite has_None]);
    cbn [mbind result_bind mret result_ret]; done.
Qed.

(** [join] refuses the first part that is not a str. *)
Lemma strs_from_not_str i parts v :
  v ∈ parts → not_str v →
  ∃ j w, not_str w ∧ w ∈ parts ∧ strs_from i parts = Raise (JoinItem j w).
Proof.
  intros Hin Hv. revert i.
  induction parts as [|x parts IH]; intros i; [by apply elem_of_nil in Hin|].
  destruct x as [| | |s| |];
    try (eexists i, _; split; [|split; [left|reflexivity]]; by intros s).
  apply elem_of_cons in Hin as [->|Hin]; [by destruct (Hv s)|].
  destruct (IH Hin (S i)) as (j & w & Hw & Hwin & Hr).
  exists j, w. split; [done|]. split; [by right|]. cbn. by rewrite Hr.
Qed.

Lemma py_join_not_str sep parts v :
  v ∈ parts → not_str v →
  ∃ j w, not_str w ∧ w ∈ parts ∧ py_join sep parts = Raise (JoinItem j w).
Proof.
  intros Hin Hv.
  destruct (strs_from_not_str 0 parts v Hin Hv) as (j & w & ? & ? & Hr).
  exists j, w. unfold py_join. by rewrite Hr.
Qed.

(** X7: the PO result of a record depends on its members document,
    issuerName, receiverName and internalId only. *)
Theorem extraction_reads_four_members (d d' : list (str * json)) :
  (∀ k, k ∈ ["document"; "issuerName"; "receiverName"; "internalId"]%string →
        dict_get d (u k) = dict_get d' (u k)) →
  extract_po_from_json U P (JObj d) = extract_po_from_json U P (JObj d').
Proof.
  intros Hsame. unfold extract_po_from_json. rewrite !combined_text_parts.
  unfold document_lines, record_parts, member_part.
  rewrite !(Hsame "document"%string), !(Hsame "issuerName"%string),
    !(Hsame "receiverName"%string), !(Hsame "internalId"%string);
    try compute_done.
  done.
Qed.

(** X8: a name that is there and is not a string makes the extraction
    fail, whatever the rest of the record holds. *)
Theorem name_not_str_aborts_extraction (d : list (str * json)) (k : string)
    (v : json) :
  k = "issuerName"%string ∨ k = "receiverName"%string →
  dict_get d (u k) = Some v →
  not_str v →
  ∃ e, extract_po_from_json U P (JObj d)
       = (u "", u "", u "extraction error: " ++ str_exn P e).
Proof.
  intros Hk Hv Hns. unfold extract_po_from_json. rewrite combined_text_parts.
  destruct (document_lines P d) as [lines|e]; [|by exists e].
  cbn [mbind result_bind].
  destruct (py_join_not_str [0x0A] (lines ++ record_parts P d) v)
    as (j & w & _ & _ & ->); [|done|by eexists].
  apply elem_of_app. right. unfold record_parts, member_part.
  destruct Hk as [-> | ->]; rewrite Hv.
  - left.
  - apply elem_of_app. right. left.
Qed.

(** The inner [try] of [parse_json_fields] up to the first three stores. *)
Lemma document_details_head d x dm fields :
  dict_get d (u "document") = Some x →
  load_document P x = Ok (JObj dm) →
  document_details P (JObj d) fields
  = (ds ← eval (invoice_line_descriptions (JObj dm));
     text ← eval (py_join (u "; ") ds);
     store "descriptions" (JStr text);;
     store_address P (JObj dm) "issuer" "issuer_address";;
     store_address P (JObj dm) "receiver" "receiver_address")
      (<[u "taxpayerActivityCode" :=
           default (JStr []) (dict_get dm (u "taxpayerActivityCode"))]>
         (<[u "documentTypeVersion" :=
              default (JStr []) (dict_get dm (u "documentTypeVersion"))]>
            (<[u "documentType" :=
                 default (JStr []) (dict_get dm (u "documentType"))]> fields))).
Proof.
  intros Hdoc Hload.
  assert (py_getitem (JObj d) (u "document") ≫= load_document P
          = Ok (JObj dm)) as Hres.
  { cbn [py_getitem]. rewrite Hdoc. exact Hload. }
  unfold document_details. rewrite Hres.
  rewrite bind_eval_ok. cbn [py_get].
  by rewrite bind_eval_ok, bind_store, bind_eval_ok, bind_store, bind_eval_ok,
    bind_store.
Qed.

(** X9: a description that is not a string costs the descriptions and both
    addresses, and the PO number. *)
Theorem description_not_str_drops_fields (d dm : list (str * json))
    (x v : json) (ds : list json) :
  dict_get d (u "document") = Some x →
  load_document P x = Ok (JObj dm) →
  invoice_line_descriptions (JObj dm) = Ok ds →
  v ∈ ds → not_str v →
  let fields := parse_json_fields U P (JObj d) in
  (∀ k, k ∈ ["documentType"; "documentTypeVersion";
             "taxpayerActivityCode"]%string →
        fields !! u k = Some (default (JStr []) (dict_get dm (u k))))
  ∧ (∀ k, k ∈ ["descriptions"; "issuer_address"; "receiver_address"]%string →
          fields !! u k = None)
  ∧ fields !! u "PO number" = Some (JStr (u ""))
  ∧ ∃ j w, not_str w
      ∧ fields !! u "PO note"
        = Some (JStr (u "extraction error: " ++ str_exn P (JoinItem j w))).
Proof.
  intros Hdoc Hload Hds Hv Hns fields.
  assert (∃ j w, not_str w ∧ extract_po_from_json U P (JObj d)
            = (u "", u "", u "extraction error: " ++ str_exn P (JoinItem j w)))
    as (j & w & Hw & Hpo).
  { unfold extract_po_from_json. rewrite combined_text_parts.
    unfold document_lines. rewrite Hdoc, Hload. cbn [mbind result_bind].
    rewrite Hds. cbn [mbind result_bind].
    destruct (py_join_not_str [0x0A] (ds ++ record_parts P d) v)
      as (j & w & Hw & _ & ->); [|done|by exists j, w].
    apply elem_of_app. by left. }
  destruct (py_join_not_str (u "; ") ds v Hv Hns) as (j' & w' & _ & _ & Hjoin).
  subst fields. unfold parse_json_fields. rewrite Hpo, Hdoc, has_Some.
  unfold try_pass. rewrite (document_details_head d x dm _ Hdoc Hload).
  rewrite Hds, bind_eval_ok, Hjoin. cbn [mbind block_bind eval fst].
  split; [|split; [|split]].
  - intros k Hk.
    repeat (apply elem_of_cons in Hk as [->|Hk]; [by lookup_inserted|]).
    by apply elem_of_nil in Hk.
  - intros k Hk.
    repeat (apply elem_of_cons in Hk as [->|Hk]; [by lookup_inserted|]).
    by apply elem_of_nil in Hk.
  - by lookup_inserted.
  - exists j, w. split; [done|]. by lookup_inserted.
Qed.

(** X10: when the document is [None], a [bool] or a number, none of the
    document fields is stored and the extraction fails on the first
    [in]. *)
Theorem scalar_document_drops_fields (d : list (str * json)) (x w : json) :
  dict_get d (u "document") = Some x →
  load_document P x = Ok w →
  scalar w →
  let fields := parse_json_fields U P (JObj d) in
  (∀ k, k ∈ document_fields → fields !! u k = None)
  ∧ fields !! u "PO number" = Some (JStr (u ""))
  ∧ fields !! u "PO note"
    = Some (JStr (u "extraction error: " ++ str_exn P (NotAContainer w))).
Proof.
  intros Hdoc Hload Hw fields.
  assert (extract_po_from_json U P (JObj d)
          = (u "", u "", u "extraction error: " ++ str_exn P (NotAContainer w)))
    as Hpo.
  { unfold extract_po_from_json. rewrite combined_text_parts.
    unfold document_lines. rewrite Hdoc, Hload. cbn [mbind result_bind].
    by destruct w. }
  subst fields. unfold parse_json_fields. rewrite Hpo, Hdoc, has_Some.
  assert (∀ f, try_pass (document_details P (JObj d)) f = f) as ->.
  { intros f. unfold try_pass, document_details. cbn [py_getitem].
    rewrite Hdoc. cbn [mbind result_bind]. rewrite Hload.
    rewrite bind_eval_ok. by destruct w. }
  split; [|split].
  - intros k Hk. unfold document_fields in Hk.
    repeat (apply elem_of_cons in Hk as [->|Hk]; [by lookup_inserted|]).
    by apply elem_of_nil in Hk.
  - by lookup_inserted.
  - by lookup_inserted.
Qed.

End RecordFacts.

Lemma extraction_reads_four_members_witness :
  extract_po_from_json ucd python (JObj sample_record)
  = extract_po_from_json ucd python
      (JObj [(u "internalId", JStr (u "173128")); (u "total", JNull);
             (u "issuerName", JStr (u "ACME"))]).
Proof.
  apply (extraction_reads_four_members ucd python sample_record
           [(u "internalId", JStr (u "173128")); (u "total", JNull);
            (u "issuerName", JStr (u "ACME"))]).
  intros k Hk.
  repeat (apply elem_of_cons in Hk as [->|Hk]; [reflexivity|]).
  by apply elem_of_nil in Hk.
Defined.

Lemma name_not_str_aborts_extraction_witness :
  extract_po_from_json ucd python
    (JObj [(u "issuerName", JNull); (u "internalId", JStr (u "173128"))])
  = (u "", u "",
     u "extraction error: sequence item 0: expected str instance, NoneType found")
  ∧ ∃ e, extract_po_from_json ucd python
           (JObj [(u "issuerName", JNull); (u "internalId", JStr (u "173128"))])
         = (u "", u "", u "extraction error: " ++ str_exn python e).
Proof.
  split; [vm_compute; reflexivity|].
  apply (name_not_str_aborts_extraction ucd python
           [(u "issuerName", JNull); (u "internalId", JStr (u "173128"))]
           "issuerName" JNull); [by left|vm_compute; reflexivity|by intros s].
Defined.

Lemma description_not_str_drops_fields_witness :
  let fields := parse_json_fields ucd python (JObj record_with_numeric_description) in
  fields !! u "PO note"
  = Some (JStr (u "extraction error: sequence item 1: expected str instance, int found"))
  ∧ fields !! u "documentType" = Some (JStr (u "I"))
  ∧ fields !! u "issuer_address" = None.
Proof.
  pose proof (description_not_str_drops_fields ucd python
                record_with_numeric_description
                [(u "documentType", JStr (u "I"));
                 (u "invoiceLines",
                  JArr [JObj [(u "description", JStr (u "Meals"))];
                        JObj [(u "description", JNum (Int 7906))]]);
                 (u "issuer",
                  JObj [(u "address", JObj [(u "street", JStr (u "Nile St"))])])]
                (JObj [(u "documentType", JStr (u "I"));
                 (u "invoiceLines",
                  JArr [JObj [(u "description", JStr (u "Meals"))];
                        JObj [(u "description", JNum (Int 7906))]]);
                 (u "issuer",
                  JObj [(u "address", JObj [(u "street", JStr (u "Nile St"))])])])
                (JNum (Int 7906))
                [JStr (u "Meals"); JNum (Int 7906)]
                eq_refl eq_refl eq_refl
                ltac:(right; left) ltac:(by intros s)) as (H1 & H2 & _ & _).
  split; [vm_compute; reflexivity|].
  split; [apply (H1 "documentType"%string); left
         |apply (H2 "issuer_address"%string); right; left].
Defined.

Lemma scalar_document_drops_fields_witness :
  let fields :=
    parse_json_fields ucd python
      (JObj [(u "document", JNull); (u "issuerName", JStr (u "PO NUM: 7906"))]) in
  (∀ k, k ∈ document_fields → fields !! u k = None)
  ∧ fields !! u "PO number" = Some (JStr (u ""))
  ∧ fields !! u "PO note"
    = Some (JStr (u "extraction error: "
                  ++ u "argument of type 'NoneType' is not iterable")).
Proof.
  apply (scalar_document_drops_fields ucd python
           [(u "document", JNull); (u "issuerName", JStr (u "PO NUM: 7906"))]
           JNull JNull eq_refl eq_refl I).
Defined.

(** ** Matching a text and the same text in another case *)

Section Recase.
Variable U : unicodedata.
Variable f : char → char.
Variable ok : atom → bool.
Hypothesis atom_blind :
  ∀ a ch, ok a = true → atom_match U a (f ch) = atom_match U a ch.
Hypothesis word_blind : ∀ ch, is_word U (f ch) = is_word U ch.
Hypothesis newline_blind : ∀ ch, (f ch =? 0x0A) = (ch =? 0x0A).

Lemma rep_greedy_map {A B} (φ : A → B) p lo hi
    (k : option char → str → option B) (k' : option char → str → option A)
    prev s :
  (∀ ch, p (f ch) = p ch) →
  (∀ prev s, k (f <$> prev) (f <$> s) = φ <$> k' prev s) →
  rep_greedy p lo hi k (f <$> prev) (f <$> s)
  = φ <$> rep_greedy p lo hi k' prev s.
Proof.
  intros Hp Hk. revert lo hi prev.
  induction s as [|ch s IH]; intros lo hi prev; cbn [rep_greedy fmap list_fmap].
  - destruct lo; [apply (Hk prev [])|done].
  - rewrite Hp.
    assert (match lo with
            | O => k (f <$> prev) (f ch :: (f <$> s))
            | S _ => None
            end
            = φ <$> match lo with O => k' prev (ch :: s) | S _ => None end)
      as Hstop.
    { destruct lo; [apply (Hk prev (ch :: s))|done]. }
    destruct (may_repeat hi && p ch); [|exact Hstop].
    specialize (IH (Nat.pred lo) (Nat.pred <$> hi) (Some ch)).
    cbn [fmap option_fmap option_map] in IH. rewrite IH.
    by destruct (rep_greedy p (Nat.pred lo) (Nat.pred <$> hi) k' (Some ch) s).
Qed.

Lemma rep_lazy_map {A B} (φ : A → B) p lo hi
    (k : option char → str → option B) (k' : option char → str → option A)
    prev s :
  (∀ ch, p (f ch) = p ch) →
  (∀ prev s, k (f <$> prev) (f <$> s) = φ <$> k' prev s) →
  rep_lazy p lo hi k (f <$> prev) (f <$> s)
  = φ <$> rep_lazy p lo hi k' prev s.
Proof.
  intros Hp Hk. revert lo hi prev.
  induction s as [|ch s IH]; intros lo hi prev; cbn [rep_lazy fmap list_fmap].
  - destruct lo; [|done].
    assert (k (f <$> prev) [] = φ <$> k' prev []) as -> by apply (Hk prev []).
    by destruct (k' prev []).
  - rewrite Hp.
    assert ((if may_repeat hi && p ch
             then rep_lazy p (Nat.pred lo) (Nat.pred <$> hi) k (Some (f ch))
                    (f <$> s)
             else None)
            = φ <$> (if may_repeat hi && p ch
                     then rep_lazy p (Nat.pred lo) (Nat.pred <$> hi) k'
                            (Some ch) s
                     else None)) as Hmore.
    { destruct (may_repeat hi && p ch); [|done].
      apply (IH (Nat.pred lo) (Nat.pred <$> hi) (Some ch)). }
    destruct lo; [|exact Hmore].
    assert (k (f <$> prev) (f ch :: (f <$> s)) = φ <$> k' prev (ch :: s))
      as -> by apply (Hk prev (ch :: s)).
    by destruct (k' prev (ch :: s)).
Qed.

Lemma at_boundary_map prev s :
  at_boundary U (f <$> prev) (f <$> s) = at_boundary U prev s.
Proof.
  unfold at_boundary. f_equal.
  - destruct prev; [apply word_blind|done].
  - destruct s; [done|apply word_blind].
Qed.

Lemma at_end_map s : at_end (f <$> s) = at_end s.
Proof. destruct s as [|ch [|? ?]]; [done| |done]. apply newline_blind. Qed.

Lemma rmatch_map {A B} (φ : A → B) r
    (k : cursor → option B) (k' : cursor → option A) c :
  all_atoms ok r = true →
  (∀ c, k (map_cursor f c) = φ <$> k' c) →
  rmatch U r k (map_cursor f c) = φ <$> rmatch U r k' c.
Proof.
  revert A B φ k k' c.
  induction r as [|a|a lo hi greedy|r1 IH1 r2 IH2|r1 IH1 r2 IH2|r1 IH1|n r1 IH1| |];
    intros A B φ k k' c Hok Hk; cbn [rmatch all_atoms] in *.
  - apply Hk.
  - cbn [map_cursor after]. destruct (after c) as [|ch s']; [done|].
    cbn [fmap list_fmap]. rewrite (atom_blind a ch Hok).
    destruct (atom_match U a ch); [|done].
    apply (Hk {| before := Some ch; after := s'; groups := groups c |}).
  - cbn [map_cursor before after groups].
    destruct greedy; [apply rep_greedy_map|apply rep_lazy_map];
      try (intros ch; by apply atom_blind);
      intros prev s;
      apply (Hk {| before := prev; after := s; groups := groups c |}).
  - apply andb_true_iff in Hok as [Hok1 Hok2].
    apply IH1; [done|]. intros c1. by apply IH2.
  - apply andb_true_iff in Hok as [Hok1 Hok2].
    rewrite (IH1 _ _ φ k k' c Hok1 Hk).
    destruct (rmatch U r1 k' c); [done|]. by apply IH2.
  - rewrite (IH1 _ _ φ k k' c Hok Hk).
    destruct (rmatch U r1 k' c); [done|]. apply Hk.
  - apply IH1; [done|]. intros c1.
    cbn [map_cursor before after groups].
    rewrite !length_fmap, <- fmap_take.
    apply (Hk {| before := before c1; after := after c1;
                 groups := (n, take (length (after c) - length (after c1))
                                    (after c)) :: groups c1 |}).
  - cbn [map_cursor before after]. rewrite at_boundary_map.
    destruct (at_boundary U (before c) (after c)); [apply Hk|done].
  - cbn [map_cursor after]. rewrite at_end_map.
    destruct (at_end (after c)); [apply Hk|done].
Qed.

Lemma match_at_map r prev s :
  all_atoms ok r = true →
  match_at U r (f <$> prev) (f <$> s) = map_groups f <$> match_at U r prev s.
Proof.
  intros Hok. unfold match_at.
  apply (rmatch_map (map_groups f) r _ _
           {| before := prev; after := s; groups := [] |} Hok).
  by intros c.
Qed.

Lemma search_from_map r prev s :
  all_atoms ok r = true →
  search_from U r (f <$> prev) (f <$> s)
  = map_groups f <$> search_from U r prev s.
Proof.
  intros Hok. revert prev.
  induction s as [|ch s IH]; intros prev; cbn [search_from fmap list_fmap].
  - change [] with (f <$> @nil char) at 1. rewrite (match_at_map r prev [] Hok).
    by destruct (match_at U r prev []).
  - change (f ch :: (f <$> s)) with (f <$> ch :: s).
    rewrite (match_at_map r prev (ch :: s) Hok).
    destruct (match_at U r prev (ch :: s)); [done|].
    apply (IH (Some ch)).
Qed.

Lemma search_map r text :
  all_atoms ok r = true →
  search U r (f <$> text) = map_groups f <$> search U r text.
Proof. apply (search_from_map r None). Qed.

Lemma group_map m n :
  group (map_groups f m) n = (λ d : str, f <$> d) <$> group m n.
Proof.
  induction m as [|[i s] m IH]; [done|]. cbn. by destruct (Nat.eqb i n).
Qed.

Hypothesis digits_fixed : ∀ ch, isdecimal U ch = true → f ch = ch.

Lemma first_match_map ps text :
  Forall (λ p, all_atoms ok p.2 = true ∧ sets_group1 p.2 = true) ps →
  first_match U ps (f <$> text) = first_match U ps text.
Proof.
  induction 1 as [|[name rx] ps [Hok Hsets] Hps IH]; [done|].
  cbn [first_match]. cbn [snd] in *. rewrite (search_map rx text Hok).
  destruct (search U rx text) as [m|] eqn:Hs; [|exact IH].
  cbn [fmap option_fmap option_map]. rewrite group_map.
  apply search_sound in Hs as (c & c' & Hr & _ & -> & _).
  destruct (run_sets U rx c c' Hsets Hr) as (d & -> & [_ Hdig]).
  cbn. do 2 f_equal.
  induction Hdig as [|ch d Hch Hd IHd]; [done|].
  cbn. by rewrite (digits_fixed ch Hch), IHd.
Qed.

End Recase.

(** ** The sample database and the case of ASCII letters *)

Lemma ascii_lower_other ch : ¬ is_ascii ch → ascii_lower ch = ch.
Proof.
  unfold is_ascii, ascii_lower, between. intros H.
  destruct (0x41 <=? ch) eqn:E1; [|done].
  destruct (ch <=? 0x5A) eqn:E2; [|done].
  apply N.leb_le in E2. lia.
Qed.

Lemma ascii_lower_all (P : char → Prop) :
  Forall (λ ch, P (ascii_lower ch) ↔ P ch) ascii_chars →
  ∀ ch, P (ascii_lower ch) ↔ P ch.
Proof.
  intros Hall ch. destruct (decide (is_ascii ch)) as [Hch|Hch].
  - revert ch Hch. by apply ascii_all.
  - by rewrite (ascii_lower_other ch Hch).
Qed.

Lemma ascii_lower_blind {A} (p : char → A) :
  Forall (λ ch, p (ascii_lower ch) = p ch) ascii_chars →
  ∀ ch, p (ascii_lower ch) = p ch.
Proof.
  intros Hall ch. destruct (decide (is_ascii ch)) as [Hch|Hch].
  - revert ch Hch. by apply ascii_all.
  - by rewrite (ascii_lower_other ch Hch).
Qed.

Lemma ascii_lower_is_ascii ch : is_ascii ch → is_ascii (ascii_lower ch).
Proof. revert ch. apply ascii_all. unfold is_ascii. decide_closed. Qed.

Lemma ascii_lower_not_letter ch c :
  ascii_letter c = false → (ascii_lower ch =? c) = (ch =? c).
Proof.
  unfold ascii_letter, ascii_lower, between. intros Hc.
  apply orb_false_iff in Hc as [H1 H2].
  destruct (0x41 <=? ch) eqn:E1; [|done].
  destruct (ch <=? 0x5A) eqn:E2; [|done]. cbn [andb].
  apply N.leb_le in E1, E2.
  assert (ch + 0x20 ≠ c ∧ ch ≠ c) as [Hn1 Hn2].
  { split; intros <-.
    - apply andb_false_iff in H2 as [H|H];
        [apply N.leb_gt in H|apply N.leb_gt in H]; lia.
    - apply andb_false_iff in H1 as [H|H];
        [apply N.leb_gt in H|apply N.leb_gt in H]; lia. }
  apply N.eqb_neq in Hn1, Hn2. by rewrite Hn1, Hn2.
Qed.

Lemma tolower_ascii_lower ch :
  sample_tolower (ascii_lower ch) = sample_tolower ch.
Proof. apply (ascii_lower_blind sample_tolower). decide_closed. Qed.

Lemma isdecimal_ascii_lower ch :
  sample_isdecimal (ascii_lower ch) = sample_isdecimal ch.
Proof. apply (ascii_lower_blind sample_isdecimal). decide_closed. Qed.

Lemma isspace_ascii_lower ch :
  sample_isspace (ascii_lower ch) = sample_isspace ch.
Proof. apply (ascii_lower_blind sample_isspace). decide_closed. Qed.

Lemma is_word_ascii_lower ch :
  is_word ucd (ascii_lower ch) = is_word ucd ch.
Proof. apply (ascii_lower_blind (is_word ucd)). decide_closed. Qed.

Lemma is_blank_ascii_lower ch : is_blank (ascii_lower ch) = is_blank ch.
Proof. apply (ascii_lower_blind is_blank). decide_closed. Qed.

Lemma newline_ascii_lower ch : (ascii_lower ch =? 0x0A) = (ch =? 0x0A).
Proof. by apply ascii_lower_not_letter. Qed.

Lemma isdecimal_not_letter ch :
  sample_isdecimal ch = true → ascii_lower ch = ch.
Proof.
  destruct (decide (is_ascii ch)) as [Hch|Hch];
    [|intros _; by apply ascii_lower_other].
  revert ch Hch.
  apply (ascii_all (λ ch, sample_isdecimal ch = true → ascii_lower ch = ch)).
  decide_closed.
Qed.

Lemma item_match_ascii_lower it ch :
  item_caseless it = true →
  item_match ucd it (ascii_lower ch) = item_match ucd it ch.
Proof.
  destruct it as [c| |]; cbn [item_caseless item_match isdecimal isspace ucd].
  - intros Hc. apply negb_true_iff in Hc. by apply ascii_lower_not_letter.
  - intros _. apply isdecimal_ascii_lower.
  - intros _. apply isspace_ascii_lower.
Qed.

Lemma atom_match_ascii_lower a ch :
  atom_caseless a = true →
  atom_match ucd a (ascii_lower ch) = atom_match ucd a ch.
Proof.
  destruct a as [c|lo| | | |neg items|neg items];
    cbn [atom_caseless atom_match isdecimal isspace tolower ucd]; intros Hok.
  - apply negb_true_iff in Hok. by apply ascii_lower_not_letter.
  - by rewrite tolower_ascii_lower.
  - by rewrite newline_ascii_lower.
  - apply isdecimal_ascii_lower.
  - apply isspace_ascii_lower.
  - f_equal. induction items as [|it items IH]; [done|].
    cbn [forallb existsb] in *. apply andb_true_iff in Hok as [Hit Hok].
    by rewrite (item_match_ascii_lower it ch Hit), IH.
  - by rewrite tolower_ascii_lower.
Qed.

Lemma rules_caseless :
  Forall (λ p, all_atoms atom_caseless p.2 = true ∧ sets_group1 p.2 = true)
    (patterns ucd).
Proof.
  apply Forall_forall. intros p Hin. split.
  - revert p Hin. apply Forall_forall. decide_closed.
  - pose proof (rules_set_group1 ucd) as Hall. rewrite Forall_forall in Hall.
    by apply Hall.
Qed.

(** The normaliser on an ASCII text and on its lower case. *)
Lemma sub_blanks_from_lower b s :
  sub_blanks_from b (ascii_lower <$> s) = ascii_lower <$> sub_blanks_from b s.
Proof.
  revert b. induction s as [|ch s IH]; intros b; [done|].
  cbn [fmap list_fmap sub_blanks_from]. rewrite is_blank_ascii_lower.
  destruct (is_blank ch); [destruct b|]; cbn [fmap list_fmap]; by rewrite IH.
Qed.

Lemma lstrip_by_lower s :
  lstrip_by sample_isspace (ascii_lower <$> s)
  = ascii_lower <$> lstrip_by sample_isspace s.
Proof.
  induction s as [|ch s IH]; [done|].
  cbn [fmap list_fmap lstrip_by]. rewrite isspace_ascii_lower.
  by destruct (sample_isspace ch).
Qed.

Lemma strip_lower s : strip ucd (ascii_lower <$> s) = ascii_lower <$> strip ucd s.
Proof.
  unfold strip. cbn [isspace ucd].
  by rewrite lstrip_by_lower, <- fmap_reverse, lstrip_by_lower, fmap_reverse.
Qed.

Lemma fold_chars_lower s :
  Forall is_ascii s →
  fold_chars (ascii_lower <$> s) = ascii_lower <$> fold_chars s.
Proof.
  induction 1 as [|ch s Hch Hs IH]; [done|].
  change (ch :: s) with ([ch] ++ s).
  rewrite fmap_app, !fold_chars_app, fmap_app, IH. f_equal.
  revert ch Hch.
  apply (ascii_all (λ ch, fold_chars (ascii_lower <$> [ch])
                          = ascii_lower <$> fold_chars [ch])).
  decide_closed.
Qed.

Lemma norm_advanced_ascii s :
  Forall is_ascii s →
  norm_advanced ucd s
  = match s with [] => [] | _ => strip ucd (sub_blanks (fold_chars s)) end.
Proof.
  intros Hs. rewrite norm_advanced_unfold. destruct s as [|ch s]; [done|].
  cbn [normalize_NFKC ucd]. rewrite (sample_NFKC_ascii _ Hs).
  assert (strip_combining ucd (ch :: s) = ch :: s) as ->; [|done].
  apply filter_all. eapply Forall_impl; [exact Hs|].
  intros x Hx. by apply ucd_ascii_not_Mn.
Qed.

Lemma norm_advanced_lower s :
  Forall is_ascii s →
  norm_advanced ucd (ascii_lower <$> s) = ascii_lower <$> norm_advanced ucd s.
Proof.
  intros Hs.
  assert (Forall is_ascii (ascii_lower <$> s)) as Hl.
  { apply Forall_fmap. eapply Forall_impl; [exact Hs|].
    intros ch. apply ascii_lower_is_ascii. }
  rewrite (norm_advanced_ascii _ Hl), (norm_advanced_ascii _ Hs).
  destruct s as [|ch s]; [done|]. cbn [fmap list_fmap].
  change (ascii_lower ch :: (ascii_lower <$> s))
    with (ascii_lower <$> ch :: s).
  unfold sub_blanks.
  by rewrite (fold_chars_lower _ Hs), sub_blanks_from_lower, strip_lower.
Qed.

Lemma extraction_of_lower s :
  Forall is_ascii s →
  advanced_po_extraction_v48 ucd (ascii_lower <$> s)
  = advanced_po_extraction_v48 ucd s.
Proof.
  intros Hs. destruct s as [|ch s]; [done|].
  unfold advanced_po_extraction_v48. cbn [fmap list_fmap].
  change (ascii_lower ch :: (ascii_lower <$> s))
    with (ascii_lower <$> ch :: s).
  rewrite (norm_advanced_lower _ Hs).
  apply (first_match_map ucd ascii_lower atom_caseless).
  - intros a x Hok. by apply atom_match_ascii_lower.
  - apply is_word_ascii_lower.
  - apply newline_ascii_lower.
  - apply isdecimal_not_letter.
  - apply rules_caseless.
Qed.

(** X11: two ASCII texts that differ in the case of their letters only
    give the same result. *)
Theorem extraction_ignores_case (t t' : str) :
  Forall is_ascii t → Forall is_ascii t' →
  ascii_lower <$> t = ascii_lower <$> t' →
  advanced_po_extraction_v48 ucd t = advanced_po_extraction_v48 ucd t'.
Proof.
  intros Ht Ht' Hsame.
  by rewrite <- (extraction_of_lower t Ht), Hsame, (extraction_of_lower t' Ht').
Qed.

Lemma extraction_ignores_case_witness :
  advanced_po_extraction_v48 ucd (u "Taxpayer NAME: 4711 / po Num 7906")
  = (u "4711", u "json (taxpayer-name-num)", u "")
  ∧ advanced_po_extraction_v48 ucd (u "Taxpayer NAME: 4711 / po Num 7906")
    = advanced_po_extraction_v48 ucd (u "TAXPAYER name: 4711 / PO nUM 7906").
Proof.
  split; [vm_compute; reflexivity|].
  apply (extraction_ignores_case (u "Taxpayer NAME: 4711 / po Num 7906")
           (u "TAXPAYER name: 4711 / PO nUM 7906"));
    [unfold is_ascii; decide_closed..|vm_compute; reflexivity].
Defined.

(** ** Following the matcher along the way it takes *)

Section MatchPath.
Variable U : unicodedata.
Context {A : Type}.
Implicit Types (k : cursor → option A) (c : cursor) (m : A).

Lemma path_eps k c m : k c = Some m → rmatch U Eps k c = Some m.
Proof. done. Qed.

Lemma path_seq r1 r2 k c m :
  rmatch U r1 (rmatch U r2 k) c = Some m → rmatch U (Seq r1 r2) k c = Some m.
Proof. done. Qed.

Lemma path_one a k c ch s m :
  after c = ch :: s →
  atom_match U a ch = true →
  k {| before := Some ch; after := s; groups := groups c |} = Some m →
  rmatch U (One a) k c = Some m.
Proof. intros Hs Ha Hk. cbn [rmatch]. by rewrite Hs, Ha. Qed.

Lemma path_group n r k c m :
  rmatch U r
    (λ c', k {| before := before c'; after := after c';
                groups := (n, consumed c c') :: groups c' |}) c = Some m →
  rmatch U (Group n r) k c = Some m.
Proof. done. Qed.

Lemma path_opt_skip r k c m :
  rmatch U r k c = None → k c = Some m → rmatch U (Opt r) k c = Some m.
Proof. intros Hr Hk. cbn [rmatch]. by rewrite Hr. Qed.

Lemma path_opt_take r k c m :
  rmatch U r k c = Some m → rmatch U (Opt r) k c = Some m.
Proof. intros Hr. cbn [rmatch]. by rewrite Hr. Qed.

Lemma fail_seq r1 r2 k c :
  rmatch U r1 (rmatch U r2 k) c = None → rmatch U (Seq r1 r2) k c = None.
Proof. done. Qed.

Lemma fail_one a k c ch s :
  after c = ch :: s → atom_match U a ch = false → rmatch U (One a) k c = None.
Proof. intros Hs Ha. cbn [rmatch]. by rewrite Hs, Ha. Qed.

(** A greedy repetition takes the whole run of characters that match,
    up to its bound, when what follows the repetition then matches. *)
Lemma rep_greedy_run (p : char → bool) lo hi
    (kk : option char → str → option A) prev taken s m :
  Forall (λ ch, p ch = true) taken →
  (lo ≤ length taken)%nat →
  (hi = Some (length taken)
   ∨ (∀ h, hi = Some h → (length taken ≤ h)%nat)
     ∧ (∀ ch, head s = Some ch → p ch = false)) →
  kk (from_option Some prev (last taken)) s = Some m →
  rep_greedy p lo hi kk prev (taken ++ s) = Some m.
Proof.
  intros Hall. revert lo hi prev.
  induction Hall as [|x taken Hx Hall IH]; intros lo hi prev Hlo Hhi Hk.
  - cbn [length] in Hlo. assert (lo = O) as -> by lia.
    cbn [app last from_option] in *.
    destruct s as [|ch s]; [done|]. cbn [rep_greedy].
    destruct Hhi as [-> |[_ Hhead]]; [done|].
    rewrite (Hhead ch eq_refl). by rewrite andb_false_r.
  - cbn [app rep_greedy]. rewrite Hx, andb_true_r.
    assert (may_repeat hi = true) as ->.
    { destruct hi as [[|h]|]; try done.
      destruct Hhi as [[=]|[Hh _]]. specialize (Hh O eq_refl).
      cbn [length] in Hh. lia. }
    rewrite (IH (Nat.pred lo) (Nat.pred <$> hi) (Some x)); [done|..].
    + cbn [length] in Hlo. lia.
    + destruct Hhi as [-> |[Hh Hhead]]; [by left|right].
      split; [|done]. intros h Hhi. destruct hi as [h'|]; [|done].
      injection Hhi as <-. specialize (Hh h' eq_refl).
      cbn [length] in Hh. lia.
    + rewrite last_cons in Hk. by destruct (last taken).
Qed.

Lemma path_rep a lo hi k c taken s m :
  after c = taken ++ s →
  Forall (λ ch, atom_match U a ch = true) taken →
  (lo ≤ length taken)%nat →
  (hi = Some (length taken)
   ∨ (∀ h, hi = Some h → (length taken ≤ h)%nat)
     ∧ (∀ ch, head s = Some ch → atom_match U a ch = false)) →
  k {| before := from_option Some (before c) (last taken); after := s;
       groups := groups c |} = Some m →
  rmatch U (Rep a lo hi true) k c = Some m.
Proof.
  intros Hs Hall Hlo Hhi Hk. cbn [rmatch]. rewrite Hs.
  by apply rep_greedy_run.
Qed.

End MatchPath.

Lemma search_from_here (U : unicodedata) r prev s m :
  match_at U r prev s = Some m → search_from U r prev s = Some m.
Proof. intros H. destruct s; simpl; by rewrite H. Qed.

Lemma isdecimal_not_space ch :
  sample_isdecimal ch = true → sample_isspace ch = false.
Proof.
  intros Hd. destruct (sample_isspace ch) eqn:Hs; [|done].
  unfold sample_isspace in Hs. apply bool_decide_eq_true_1 in Hs.
  revert ch Hs Hd.
  apply (proj1 (Forall_forall
                  (λ ch, sample_isdecimal ch = true → true = false) _)).
  decide_closed.
Qed.

(** Literal characters and other steps whose test can be evaluated. *)
Ltac path_known :=
  repeat lazymatch goal with
         | |- rmatch _ Eps _ _ = Some _ => apply path_eps
         | |- rmatch _ (Seq _ _) _ _ = Some _ => apply path_seq
         | |- rmatch _ (One _) _ _ = Some _ =>
             eapply path_one; [reflexivity|vm_compute; reflexivity|]
         end;
  cbv beta; cbn [after before groups].

(** The number of the first rule, once the matcher stands before it. *)
Lemma meals_number (prev : option char) (ds z : str) :
  length ds = 6%nat →
  Forall (λ ch, sample_isdecimal ch = true) ds →
  rmatch ucd (Seq (Group 1 (Rep Digit 4 (Some 6%nat) true)) Eps)
    (λ c, Some (groups c))
    {| before := prev; after := ds ++ z; groups := [] |}
  = Some [(1%nat, ds)].
Proof.
  intros Hlen Hdig. apply path_seq, path_group.
  eapply (path_rep ucd _ _ _ _ _ ds z); [reflexivity|done|lia| |].
  { left. by rewrite Hlen. }
  cbn [after before groups]. apply path_eps.
  unfold consumed. cbn [after]. do 3 f_equal. rewrite length_app.
  replace (length ds + length z - length z)%nat with (length ds) by lia.
  by rewrite take_app_length.
Qed.

Lemma meals_match (dal ds z : str) :
  dal = [] ∨ dal = [0x62F; 0x2E] ∨ dal = [0x62F; 0x2E; 0x20] →
  length ds = 6%nat →
  Forall (λ ch, sample_isdecimal ch = true) ds →
  search ucd (RX_ARABIC_MEALS_NUM ucd)
    (meals_phrase ++ [0x20] ++ dal ++ ds ++ z)
  = Some [(1%nat, ds)].
Proof.
  intros Hdal Hlen Hdig.
  assert (∀ ch, head (ds ++ z) = Some ch → sample_isdecimal ch = true)
    as Hhead.
  { destruct ds as [|d1 ds']; [done|]. intros ch [= <-].
    by apply Forall_cons in Hdig as [? _]. }
  unfold search. apply search_from_here.
  set (r := RX_ARABIC_MEALS_NUM ucd).
  vm_compute in r. subst r.
  unfold meals_phrase, match_at. cbn [app].
  path_known.
  (* the blank between the two words *)
  eapply (path_rep ucd _ _ _ _ _ [0x20]); [reflexivity|by repeat constructor|
    cbn; lia| |].
  { right. split; [done|]. intros ch [= <-]. reflexivity. }
  cbn [after before groups last from_option]. path_known.
  destruct Hdal as [-> |[-> | ->]]; cbn [app].
  - (* the blank before the number, and no DAL *)
    eapply (path_rep ucd _ _ _ _ _ [0x20]); [reflexivity|by repeat constructor|
      cbn; lia| |].
    { right. split; [done|]. intros ch Hch.
      by apply isdecimal_not_space, Hhead. }
    cbn [after before groups last from_option]. apply path_seq.
    apply path_opt_skip; [|by apply meals_number].
    do 2 apply fail_seq.
    destruct ds as [|d1 ds']; [done|]. eapply fail_one; [reflexivity|].
    cbn [atom_match]. apply N.eqb_neq. intros ->.
    by apply Forall_cons in Hdig as [? _].
  - (* DAL and its full stop, right before the number *)
    eapply (path_rep ucd _ _ _ _ _ [0x20]); [reflexivity|by repeat constructor|
      cbn; lia| |].
    { right. split; [done|]. intros ch [= <-]. reflexivity. }
    cbn [after before groups last from_option]. apply path_seq.
    apply path_opt_take. path_known.
    eapply (path_rep ucd _ _ _ _ _ []); [reflexivity|done|cbn; lia| |].
    { right. split; [done|]. intros ch Hch.
      by apply isdecimal_not_space, Hhead. }
    cbn [after before groups last from_option]. path_known.
    by apply meals_number.
  - (* DAL, its full stop and a blank *)
    eapply (path_rep ucd _ _ _ _ _ [0x20]); [reflexivity|by repeat constructor|
      cbn; lia| |].
    { right. split; [done|]. intros ch [= <-]. reflexivity. }
    cbn [after before groups last from_option]. apply path_seq.
    apply path_opt_take. path_known.
    eapply (path_rep ucd _ _ _ _ _ [0x20]); [reflexivity|by repeat constructor|
      cbn; lia| |].
    { right. split; [done|]. intros ch Hch.
      by apply isdecimal_not_space, Hhead. }
    cbn [after before groups last from_option]. path_known.
    by apply meals_number.
Qed.

(** X12: when the normalised text starts with the phrase of the first
    rule, a space, DAL with a full stop or not, and six decimal digits,
    these six digits are the PO number, whatever follows them, further
    digits included. *)
Theorem meals_number_is_cut (text dal ds z : str) :
  norm_advanced ucd text = meals_phrase ++ [0x20] ++ dal ++ ds ++ z →
  dal = [] ∨ dal = [0x62F; 0x2E] ∨ dal = [0x62F; 0x2E; 0x20] →
  length ds = 6%nat →
  Forall (λ ch, isdecimal ucd ch = true) ds →
  advanced_po_extraction_v48 ucd text = (ds, u "json (arabic-meals)", u "").
Proof.
  intros Hnorm Hdal Hlen Hdig. destruct text as [|ch text]; [done|].
  unfold advanced_po_extraction_v48. rewrite Hnorm.
  unfold patterns. cbn [first_match].
  by rewrite (meals_match dal ds z Hdal Hlen Hdig).
Qed.

Lemma meals_number_is_cut_witness :
  advanced_po_extraction_v48 ucd
    (meals_phrase ++ [0x20; 0x62F] ++ u ". 1734170815 (PO/7906)")
  = (u "173417", u "json (arabic-meals)", u "").
Proof.
  apply (meals_number_is_cut
           (meals_phrase ++ [0x20; 0x62F] ++ u ". 1734170815 (PO/7906)")
           [0x62F; 0x2E; 0x20] (u "173417") (u "0815 PO/7906")).
  - vm_compute; reflexivity.
  - by right; right.
  - reflexivity.
  - decide_closed.
Defined.

(** ** Rules that need a character *)

Section NeedsFacts.
Variable U : unicodedata.

Lemma run_needs a r c c' :
  needs a r = true → run U r c c' →
  ∃ t ch, after c = t ++ after c' ∧ ch ∈ t ∧ atom_match U a ch = true.
Proof.
  revert c c'.
  induction r as [|a'|a' lo hi greedy|r1 IH1 r2 IH2|r1 IH1 r2 IH2|r1 IH1|n r1 IH1| |];
    intros c c' Hn Hr; cbn [needs] in Hn; simpl in Hr; try done.
  - apply bool_decide_eq_true_1 in Hn as ->.
    destruct Hr as (ch & Hs & Hm & _). exists [ch], ch.
    split; [done|]. split; [left|done].
  - apply andb_true_iff in Hn as [Ha Hlo].
    apply bool_decide_eq_true_1 in Ha as ->. apply Nat.leb_le in Hlo.
    destruct Hr as (taken & Hs & Hlen & _ & Hall & _).
    destruct taken as [|ch taken]; [simpl in Hlen; lia|].
    exists (ch :: taken), ch. split; [done|]. split; [left|].
    by apply Forall_cons in Hall as [? _].
  - destruct Hr as (c1 & H1 & H2).
    destruct (run_suffix U _ _ _ H1) as [t1 Ht1].
    destruct (run_suffix U _ _ _ H2) as [t2 Ht2].
    apply orb_true_iff in Hn as [Hn|Hn].
    + destruct (IH1 c c1 Hn H1) as (t & ch & Ht & Hin & Hm).
      exists (t ++ t2), ch. split; [by rewrite Ht, Ht2, app_assoc|].
      split; [|done]. apply elem_of_app. by left.
    + destruct (IH2 c1 c' Hn H2) as (t & ch & Ht & Hin & Hm).
      exists (t1 ++ t), ch. split; [by rewrite Ht1, Ht, app_assoc|].
      split; [|done]. apply elem_of_app. by right.
  - apply andb_true_iff in Hn as [Hn1 Hn2]. destruct Hr; eauto.
  - destruct Hr as (c1 & H1 & ->). cbn [after]. eauto.
Qed.

(** A rule that needs a character finds nothing in a text without it. *)
Lemma search_needs a r text :
  needs a r = true →
  Forall (λ ch, atom_match U a ch = false) text →
  search U r text = None.
Proof.
  intros Hn Hall. destruct (search U r text) as [m|] eqn:H; [|done].
  apply search_sound in H as (c & c' & Hr & _ & _ & s1 & ->).
  destruct (run_needs a r c c' Hn Hr) as (t & ch & Ht & Hin & Hm).
  rewrite Ht in Hall. rewrite Forall_forall in Hall.
  rewrite Hall in Hm; [done|].
  apply elem_of_app. right. apply elem_of_app. by left.
Qed.

Context {A : Type}.

Lemma path_boundary (k : cursor → option A) c m :
  at_boundary U (before c) (after c) = true → k c = Some m →
  rmatch U WordB k c = Some m.
Proof. intros Hb Hk. cbn [rmatch]. by rewrite Hb. Qed.

Lemma path_end (k : cursor → option A) c m :
  at_end (after c) = true → k c = Some m → rmatch U EndS k c = Some m.
Proof. intros Hb Hk. cbn [rmatch]. by rewrite Hb. Qed.

End NeedsFacts.

Lemma search_from_skip (U : unicodedata) r prev ch s :
  match_at U r prev (ch :: s) = None →
  search_from U r prev (ch :: s) = search_from U r (Some ch) s.
Proof. intros H. cbn [search_from]. by rewrite H. Qed.

(** ASCII digits in the sample database. *)
Lemma ascii_digit_all (P : char → Prop) :
  Forall P (u "0123456789") → ∀ ch, is_ascii_digit ch = true → P ch.
Proof.
  intros Hall ch Hch. rewrite Forall_forall in Hall. apply Hall.
  unfold is_ascii_digit in Hch. apply andb_true_iff in Hch as [H1 H2].
  apply N.leb_le in H1, H2.
  assert (ch = 0x30 ∨ ch = 0x31 ∨ ch = 0x32 ∨ ch = 0x33 ∨ ch = 0x34
          ∨ ch = 0x35 ∨ ch = 0x36 ∨ ch = 0x37 ∨ ch = 0x38 ∨ ch = 0x39)
    as Hc by lia.
  repeat (destruct Hc as [->|Hc]; [compute_done|]). subst. compute_done.
Qed.

Lemma ascii_digits_Forall (P : char → Prop) ds :
  Forall P (u "0123456789") →
  Forall (λ ch, is_ascii_digit ch = true) ds → Forall P ds.
Proof.
  intros HP Hds. eapply Forall_impl; [exact Hds|].
  intros ch. by apply ascii_digit_all.
Qed.

(** The text of a record that has an internal id only. *)
Lemma ascii_digits_spaced ds b :
  Forall (λ ch, is_ascii_digit ch = true) ds → single_spaced b ds.
Proof.
  intros Hds. revert b.
  induction Hds as [|ch ds Hch Hds IH]; intros b; [done|].
  cbn [single_spaced].
  assert (is_blank ch = false) as ->.
  { apply (ascii_digit_all (λ ch, is_blank ch = false)); [decide_closed|done]. }
  split; [done|apply IH].
Qed.

Lemma internal_id_text_normal (ds : str) :
  ds ≠ [] →
  Forall (λ ch, is_ascii_digit ch = true) ds →
  norm_advanced ucd (u "Internal ID: " ++ ds) = u "Internal ID: " ++ ds.
Proof.
  intros Hne Hds.
  assert (Forall is_ascii (u "Internal ID: " ++ ds)) as Hascii.
  { apply Forall_app. split; [unfold is_ascii; decide_closed|].
    apply ascii_digits_Forall; [unfold is_ascii; decide_closed|done]. }
  apply norm_advanced_fixed.
  - cbn [normalize_NFKC ucd]. by apply sample_NFKC_ascii.
  - eapply Forall_impl; [exact Hascii|]. intros ch. apply ucd_ascii_not_Mn.
  - apply Forall_app. split; [decide_closed|].
    apply ascii_digits_Forall; [decide_closed|done].
  - change (u "Internal ID: " ++ ds) with (u "Internal ID:" ++ 0x20 :: ds).
    cbn. repeat (split; [done|]). by apply ascii_digits_spaced.
  - unfold strip.
    change (lstrip_by (isspace ucd) (u "Internal ID: " ++ ds))
      with (u "Internal ID: " ++ ds).
    rewrite lstrip_by_id; [apply reverse_involutive|].
    intros ch. rewrite head_reverse. clear Hascii.
    destruct ds as [|d ds' _] using rev_ind; [done|].
    rewrite app_assoc, last_snoc. intros [= <-].
    apply Forall_app in Hds as [_ [Hd _]%Forall_cons].
    apply (ascii_digit_all (λ ch, isspace ucd ch = false));
      [decide_closed|done].
Qed.

(** The rule standalone-6digit on a text that ends with six digits after
    a space. *)
Lemma standalone_match (ds : str) :
  length ds = 6%nat →
  Forall (λ ch, is_ascii_digit ch = true) ds →
  match_at ucd (RX_STANDALONE_6DIGIT ucd) (Some 0x20) ds = Some [(1%nat, ds)].
Proof.
  intros Hlen Hds.
  set (r := RX_STANDALONE_6DIGIT ucd). vm_compute in r. subst r.
  unfold match_at. apply path_seq, path_boundary.
  { cbn [before after]. destruct ds as [|d ds']; [done|].
    apply Forall_cons in Hds as [Hd _]. cbn.
    apply (ascii_digit_all (λ ch, is_word ucd ch = true)); [decide_closed|done]. }
  apply path_seq, path_group.
  eapply (path_rep ucd _ _ _ _ _ ds []);
    [cbn [after]; by rewrite app_nil_r| |lia|left; by rewrite Hlen|].
  { apply ascii_digits_Forall; [decide_closed|done]. }
  cbv beta. cbn [after before groups].
  apply path_seq.
  eapply (path_rep ucd _ _ _ _ _ [] []); [reflexivity|done|cbn; lia| |].
  { right. split; [done|]. intros ch [=]. }
  cbn [after before groups]. apply path_seq, path_end; [done|].
  apply path_eps. unfold consumed. cbn [after groups length].
  by rewrite Nat.sub_0_r, firstn_all.
Qed.

Lemma internal_id_search (ds : str) :
  length ds = 6%nat →
  Forall (λ ch, is_ascii_digit ch = true) ds →
  search ucd (RX_STANDALONE_6DIGIT ucd) (u "Internal ID: " ++ ds)
  = Some [(1%nat, ds)].
Proof.
  intros Hlen Hds. unfold search. cbn [app u List.map list_ascii_of_string].
  repeat (rewrite search_from_skip by (vm_compute; reflexivity)).
  apply search_from_here. by apply standalone_match.
Qed.

(** X13: a record that has an internal id of six ASCII digits, and neither
    a document nor a name, gets its internal id as its PO number. *)
Theorem internal_id_taken_for_po (d : list (str * json)) (ds : str) :
  dict_get d (u "document") = None →
  dict_get d (u "issuerName") = None →
  dict_get d (u "receiverName") = None →
  dict_get d (u "internalId") = Some (JStr ds) →
  length ds = 6%nat →
  Forall (λ ch, is_ascii_digit ch = true) ds →
  extract_po_from_json ucd python (JObj d)
  = (ds, u "json (standalone-6digit)", u "").
Proof.
  intros Hdoc Hissuer Hreceiver Hid Hlen Hds.
  unfold extract_po_from_json. rewrite combined_text_parts.
  unfold document_lines, record_parts, member_part.
  rewrite Hdoc, Hissuer, Hreceiver, Hid.
  cbn [mbind result_bind app py_join strs_from mret result_ret join
       format_value python sample_format_value].
  unfold advanced_po_extraction_v48.
  change (u "Internal ID: " ++ ds) with (0x49 :: (u "nternal ID: " ++ ds)).
  cbv iota.
  change (0x49 :: (u "nternal ID: " ++ ds)) with (u "Internal ID: " ++ ds).
  rewrite internal_id_text_normal; [|by destruct ds|done].
  assert (∀ a, Forall (λ ch, atom_match ucd a ch = false) (u "0123456789") →
               Forall (λ ch, atom_match ucd a ch = false) (u "Internal ID: ") →
               Forall (λ ch, atom_match ucd a ch = false)
                 (u "Internal ID: " ++ ds)) as Hno.
  { intros a H1 H2. apply Forall_app. split; [done|].
    by apply ascii_digits_Forall. }
  unfold patterns. cbn [first_match].
  rewrite (search_needs ucd (Lit 0x648)); [|reflexivity|apply Hno; decide_closed].
  rewrite (search_needs ucd (LitIgnore 0x70));
    [|reflexivity|apply Hno; decide_closed].
  rewrite (search_needs ucd (LitIgnore 0x70));
    [|reflexivity|apply Hno; decide_closed].
  rewrite (search_needs ucd (Lit 0x2F)); [|reflexivity|apply Hno; decide_closed].
  rewrite (search_needs ucd (Lit 0x2F)); [|reflexivity|apply Hno; decide_closed].
  by rewrite internal_id_search.
Qed.

Lemma internal_id_taken_for_po_witness :
  extract_po_from_json ucd python
    (JObj [(u "uuid", JStr (u "ABC")); (u "internalId", JStr (u "173128"))])
  = (u "173128", u "json (standalone-6digit)", u "").
Proof.
  apply (internal_id_taken_for_po
           [(u "uuid", JStr (u "ABC")); (u "internalId", JStr (u "173128"))]
           (u "173128")); try reflexivity.
  decide_closed.
Defined.

(** ** Numbers in the digits of the table *)

Lemma sample_NFKC_plain s :
  Forall (λ c, c ∈ plain_chars) s → sample_NFKC s = s.
Proof. apply sample_NFKC_inert; decide_closed. Qed.

Lemma range_enum (lo : N) (n : nat) (ch : char) :
  lo ≤ ch < lo + N.of_nat n → ch ∈ ((λ i, lo + N.of_nat i) <$> seq 0 n).
Proof.
  intros H. apply list_elem_of_fmap. exists (N.to_nat (ch - lo)).
  split; [rewrite N2Nat.id; lia|]. apply elem_of_seq. lia.
Qed.

Lemma table_digit_all (P : char → Prop) :
  Forall P table_digits → ∀ ch, table_digit ch = true → P ch.
Proof.
  intros Hall ch Hch. rewrite Forall_forall in Hall. apply Hall.
  unfold table_digit, is_ascii_digit, between in Hch.
  assert (0x30 ≤ ch < 0x30 + N.of_nat 10 ∨ 0x660 ≤ ch < 0x660 + N.of_nat 10
          ∨ 0x6F0 ≤ ch < 0x6F0 + N.of_nat 10) as Hc.
  { apply orb_true_iff in Hch as [Hch|Hch];
      [apply orb_true_iff in Hch as [Hch|Hch]|];
      apply andb_true_iff in Hch as [H1 H2];
      apply N.leb_le in H1, H2; lia. }
  clear Hch Hall.
  destruct Hc as [Hc|[Hc|Hc]]; apply range_enum in Hc;
    revert ch Hc; apply Forall_forall; decide_closed.
Qed.

Lemma table_digits_Forall (P : char → Prop) ds :
  Forall P table_digits →
  Forall (λ ch, table_digit ch = true) ds → Forall P ds.
Proof.
  intros HP Hds. eapply Forall_impl; [exact Hds|].
  intros ch. by apply table_digit_all.
Qed.

(** The table turns each of these digits into an ASCII digit. *)
Lemma translate_table_digits ds :
  Forall (λ ch, table_digit ch = true) ds →
  fold_chars ds = translate ARABIC_DIGITS ds
  ∧ Forall (λ ch, is_ascii_digit ch = true) (translate ARABIC_DIGITS ds).
Proof.
  induction 1 as [|ch ds Hch Hds [IH1 IH2]]; [done|].
  change (ch :: ds) with ([ch] ++ ds).
  rewrite fold_chars_app, translate_app, IH1.
  assert (fold_chars [ch] = translate ARABIC_DIGITS [ch]
          ∧ Forall (λ ch, is_ascii_digit ch = true)
              (translate ARABIC_DIGITS [ch])) as [-> Hd].
  { revert ch Hch.
    apply (table_digit_all
             (λ ch, fold_chars [ch] = translate ARABIC_DIGITS [ch]
                    ∧ Forall (λ ch, is_ascii_digit ch = true)
                        (translate ARABIC_DIGITS [ch]))).
    decide_closed. }
  split; [done|]. by apply Forall_app.
Qed.

Lemma strip_keeps (U : unicodedata) t :
  (∀ ch, head t = Some ch → isspace U ch = false) →
  (∀ ch, last t = Some ch → isspace U ch = false) →
  strip U t = t.
Proof.
  intros Hh Hl. unfold strip. rewrite (lstrip_by_id _ t Hh).
  rewrite lstrip_by_id; [apply reverse_involutive|].
  intros ch. rewrite head_reverse. apply Hl.
Qed.

Lemma single_spaced_digits b label ds :
  single_spaced b label →
  Forall (λ ch, is_ascii_digit ch = true) ds →
  single_spaced b (label ++ ds).
Proof.
  intros Hl Hds. revert b Hl.
  induction label as [|ch label IH]; intros b Hl.
  - by apply ascii_digits_spaced.
  - cbn [app single_spaced] in *. destruct Hl as [? Hl]. split; [done|].
    by apply IH.
Qed.

Lemma last_digits label ds ch :
  ds ≠ [] → Forall (λ ch, is_ascii_digit ch = true) ds →
  last (label ++ ds) = Some ch → isspace ucd ch = false.
Proof.
  intros Hne Hds. destruct ds as [|d ds' _] using rev_ind; [done|].
  rewrite app_assoc, last_snoc. intros [= <-].
  apply Forall_app in Hds as [_ [Hd _]%Forall_cons].
  apply (ascii_digit_all (λ ch, isspace ucd ch = false)); [decide_closed|done].
Qed.

(** The normal form of "PO/" with a number in digits of the table. *)
Lemma po_slash_text_normal (ds : str) :
  ds ≠ [] →
  Forall (λ ch, table_digit ch = true) ds →
  norm_advanced ucd (u "PO/" ++ ds) = u "PO/" ++ translate ARABIC_DIGITS ds.
Proof.
  intros Hne Hds.
  destruct (translate_table_digits ds Hds) as [Hfold Hascii].
  assert (Forall (λ c, c ∈ plain_chars) (u "PO/" ++ ds)) as Hplain.
  { apply Forall_app. split; [decide_closed|].
    apply table_digits_Forall; [decide_closed|done]. }
  rewrite norm_advanced_unfold.
  change (u "PO/" ++ ds) with (0x50 :: (u "O/" ++ ds)). cbv iota.
  change (0x50 :: (u "O/" ++ ds)) with (u "PO/" ++ ds).
  cbn [normalize_NFKC ucd]. rewrite (sample_NFKC_plain _ Hplain).
  assert (strip_combining ucd (u "PO/" ++ ds) = u "PO/" ++ ds) as ->.
  { apply filter_all. eapply Forall_impl; [exact Hplain|].
    intros ch Hch. revert ch Hch. apply Forall_forall. decide_closed. }
  rewrite fold_chars_app, Hfold.
  change (fold_chars (u "PO/")) with (u "PO/").
  unfold sub_blanks. rewrite single_spaced_fixed.
  - apply strip_keeps.
    + by intros ch [= <-].
    + intros ch.
      apply (last_digits (u "PO/") (translate ARABIC_DIGITS ds)); [|done].
      destruct ds; [done|]. unfold translate. by cbn.
  - apply single_spaced_digits; [|done]. by cbn.
Qed.

Lemma po_slash_match (ds : str) :
  (4 ≤ length ds ≤ 6)%nat →
  Forall (λ ch, is_ascii_digit ch = true) ds →
  search ucd (RX_PO_FORWARD_SLASH ucd) (u "PO/" ++ ds) = Some [(1%nat, ds)].
Proof.
  intros Hlen Hds. unfold search. apply search_from_here.
  set (r := RX_PO_FORWARD_SLASH ucd). vm_compute in r. subst r.
  unfold match_at. apply path_seq, path_boundary; [done|].
  change (u "PO/") with [0x50; 0x4F; 0x2F]. cbn [app].
  path_known.
  eapply (path_rep ucd _ _ _ _ _ []); [reflexivity|done|cbn; lia| |].
  { right. split; [done|]. intros ch [= <-]. reflexivity. }
  cbn [after before groups last from_option]. path_known.
  eapply (path_rep ucd _ _ _ _ _ [] ds); [reflexivity|done|cbn; lia| |].
  { right. split; [done|]. intros ch Hh.
    destruct ds as [|d ds']; [done|]. injection Hh as <-.
    apply Forall_cons in Hds as [Hd _].
    apply (ascii_digit_all (λ ch, atom_match ucd Space ch = false));
      [decide_closed|done]. }
  cbn [after before groups last from_option]. path_known.
  apply path_group.
  eapply (path_rep ucd _ _ _ _ _ ds []);
    [cbn [after]; by rewrite app_nil_r| |lia| |].
  { apply ascii_digits_Forall; [decide_closed|done]. }
  { right. split; [|done]. intros h [= <-]. lia. }
  cbv beta. cbn [after before groups]. path_known.
  apply path_boundary.
  { cbn [before after]. destruct ds as [|d ds' _] using rev_ind;
      [simpl in Hlen; lia|].
    rewrite last_snoc. unfold at_boundary. cbn [from_option head].
    apply Forall_app in Hds as [_ [Hd _]%Forall_cons].
    assert (is_word ucd d = true) as ->; [|done].
    apply (ascii_digit_all (λ ch, is_word ucd ch = true)); [decide_closed|done]. }
  apply path_eps. unfold consumed. cbn [after groups length].
  by rewrite Nat.sub_0_r, firstn_all.
Qed.

(** X14: a number of four to six digits after "PO/", written in ASCII,
    Arabic-Indic or Extended Arabic-Indic digits, is returned in ASCII
    digits, digit for digit by the table [ARABIC_DIGITS]. *)
Theorem table_digits_read_as_ascii (ds : str) :
  (4 ≤ length ds ≤ 6)%nat →
  Forall (λ ch, table_digit ch = true) ds →
  advanced_po_extraction_v48 ucd (u "PO/" ++ ds)
  = (translate ARABIC_DIGITS ds, u "json (po-forward-slash)", u "")
  ∧ Forall (λ ch, is_ascii_digit ch = true) (translate ARABIC_DIGITS ds).
Proof.
  intros Hlen Hds.
  destruct (translate_table_digits ds Hds) as [_ Hascii].
  split; [|done].
  unfold advanced_po_extraction_v48.
  change (u "PO/" ++ ds) with (0x50 :: (u "O/" ++ ds)). cbv iota.
  change (0x50 :: (u "O/" ++ ds)) with (u "PO/" ++ ds).
  rewrite po_slash_text_normal; [|destruct ds; [simpl in Hlen; lia|done]|done].
  set (ds' := translate ARABIC_DIGITS ds) in *.
  assert (length ds' = length ds) as Hlen'.
  { subst ds'. unfold translate. by rewrite length_map. }
  assert (∀ a, Forall (λ ch, atom_match ucd a ch = false) (u "0123456789") →
               Forall (λ ch, atom_match ucd a ch = false) (u "PO/") →
               Forall (λ ch, atom_match ucd a ch = false) (u "PO/" ++ ds'))
    as Hno.
  { intros a H1 H2. apply Forall_app. split; [done|].
    by apply ascii_digits_Forall. }
  unfold patterns. cbn [first_match].
  rewrite (search_needs ucd (Lit 0x648)); [|reflexivity|apply Hno; decide_closed].
  rewrite (search_needs ucd (Lit 0x3A)); [|reflexivity|apply Hno; decide_closed].
  rewrite po_slash_match; [done|lia|done].
Qed.

Lemma table_digits_read_as_ascii_witness :
  advanced_po_extraction_v48 ucd (u "PO/" ++ [0x661; 0x6F2; 0x33; 0x664])
  = (u "1234", u "json (po-forward-slash)", u "")
  ∧ Forall (λ ch, is_ascii_digit ch = true) (u "1234").
Proof.
  apply (table_digits_read_as_ascii [0x661; 0x6F2; 0x33; 0x664]).
  - simpl. lia.
  - decide_closed.
Defined.

(** ** A number with a date right after it *)

(** A text of digits and slashes is its own normal form. *)
Lemma date_text_normal (t : str) :
  Forall (λ ch, ch ∈ date_chars) t → norm_advanced ucd t = t.
Proof.
  intros Ht.
  assert (∀ P : char → Prop, Forall P date_chars → Forall P t) as Hall.
  { intros P HP. eapply Forall_impl; [exact Ht|].
    rewrite Forall_forall in HP. exact HP. }
  apply norm_advanced_fixed.
  - cbn [normalize_NFKC ucd]. apply sample_NFKC_ascii, Hall.
    unfold is_ascii. decide_closed.
  - apply Hall. decide_closed.
  - apply Hall. decide_closed.
  - assert (∀ b, single_spaced b t) as Hsp; [|apply Hsp].
    assert (Forall (λ ch, is_blank ch = false) t) as Hb
      by (apply Hall; decide_closed).
    clear Ht Hall.
    induction Hb as [|ch t' Hch Hb IH]; intros b; [done|].
    cbn [single_spaced]. rewrite Hch. split; [done|apply IH].
  - assert (Forall (λ ch, isspace ucd ch = false) t) as Hs
      by (apply Hall; decide_closed).
    apply strip_keeps.
    + intros ch Hh. destruct t as [|x t']; [done|]. injection Hh as <-.
      by apply Forall_cons in Hs as [? _].
    + intros ch Hl. apply last_Some_elem_of in Hl.
      rewrite Forall_forall in Hs. by apply Hs.
Qed.

(** [\d{lo,hi}] on a run of digits that a slash or the end of the text
    follows. *)
Lemma path_digits {A} lo hi (k : cursor → option A) c ds s m :
  after c = ds ++ s →
  Forall (λ ch, is_ascii_digit ch = true) ds →
  (lo ≤ length ds ≤ hi)%nat →
  (length ds = hi ∨ s = [] ∨ ∃ s', s = 0x2F :: s') →
  k {| before := from_option Some (before c) (last ds); after := s;
       groups := groups c |} = Some m →
  rmatch ucd (Rep Digit lo (Some hi) true) k c = Some m.
Proof.
  intros Hs Hds Hlen Hnext Hk.
  eapply (path_rep ucd _ _ _ _ _ ds s); [done| |lia| |done].
  - apply ascii_digits_Forall; [decide_closed|done].
  - destruct Hnext as [<- |[-> |[s' ->]]]; [by left|right..].
    + split; [intros h [= <-]; lia|done].
    + split; [intros h [= <-]; lia|]. intros ch [= <-]. reflexivity.
Qed.

Lemma concat_date_match (ds day month year : str) :
  length ds = 6%nat →
  (1 ≤ length day ≤ 2)%nat → (1 ≤ length month ≤ 2)%nat →
  length year = 4%nat →
  Forall (λ ch, is_ascii_digit ch = true) (ds ++ day ++ month ++ year) →
  search ucd (RX_NUM_CONCAT_DATE ucd)
    (ds ++ day ++ u "/" ++ month ++ u "/" ++ year)
  = Some [(1%nat, ds)].
Proof.
  intros Hlen Hday Hmonth Hyear Hdig.
  apply Forall_app in Hdig as [Hds Hdig].
  apply Forall_app in Hdig as [Hdday Hdig].
  apply Forall_app in Hdig as [Hdmonth Hdyear].
  unfold search. apply search_from_here.
  set (r := RX_NUM_CONCAT_DATE ucd). vm_compute in r. subst r.
  unfold match_at. apply path_seq, path_boundary.
  { cbn [before after]. destruct ds as [|d ds']; [done|].
    apply Forall_cons in Hds as [Hd _]. unfold at_boundary.
    cbn [app head from_option].
    assert (is_word ucd d = true) as ->; [|done].
    apply (ascii_digit_all (λ ch, is_word ucd ch = true)); [decide_closed|done]. }
  apply path_seq, path_group.
  eapply (path_digits _ _ _ _ ds); [reflexivity|done|lia|by left|].
  cbv beta. cbn [after before groups].
  change (u "/") with [0x2F]. cbn [app].
  apply path_seq, path_seq.
  eapply (path_digits _ _ _ _ day); [reflexivity|done|lia|right; right; by eexists|].
  cbn [after before groups]. path_known.
  eapply (path_digits _ _ _ _ month); [reflexivity|done|lia|right; right; by eexists|].
  cbn [after before groups]. path_known.
  eapply (path_digits _ _ _ _ year []);
    [cbn [after]; by rewrite app_nil_r|done|lia|by left|].
  cbn [after before groups]. path_known.
  apply path_boundary.
  { cbn [before after]. destruct year as [|d year' _] using rev_ind; [done|].
    rewrite last_snoc. unfold at_boundary. cbn [from_option head].
    apply Forall_app in Hdyear as [_ [Hd _]%Forall_cons].
    assert (is_word ucd d = true) as ->; [|done].
    apply (ascii_digit_all (λ ch, is_word ucd ch = true)); [decide_closed|done]. }
  apply path_eps. unfold consumed. cbn [after groups].
  do 3 f_equal. rewrite length_app.
  match goal with
  | |- take (_ + ?n - ?n) _ = _ =>
      replace (length ds + n - n)%nat with (length ds) by lia
  end.
  by rewrite take_app_length.
Qed.

(** X21: a number of six ASCII digits with a date right after it, the day
    and the month in one or two digits and the year in four, is the PO
    number: the first six digits go to the number and the rest to the
    day. *)
Theorem number_glued_to_date (ds day month year : str) :
  length ds = 6%nat →
  (1 ≤ length day ≤ 2)%nat → (1 ≤ length month ≤ 2)%nat →
  length year = 4%nat →
  Forall (λ ch, is_ascii_digit ch = true) (ds ++ day ++ month ++ year) →
  advanced_po_extraction_v48 ucd
    (ds ++ day ++ u "/" ++ month ++ u "/" ++ year)
  = (ds, u "json (num-concat-date)", u "").
Proof.
  intros Hlen Hday Hmonth Hyear Hdig.
  set (t := ds ++ day ++ u "/" ++ month ++ u "/" ++ year).
  assert (Forall (λ ch, ch ∈ date_chars) t) as Ht.
  { assert (∀ l, Forall (λ ch, is_ascii_digit ch = true) l →
                 Forall (λ ch, ch ∈ date_chars) l) as Hd.
    { intros l. apply ascii_digits_Forall. decide_closed. }
    apply Forall_app in Hdig as [Hds Hdig].
    apply Forall_app in Hdig as [Hdday Hdig].
    apply Forall_app in Hdig as [Hdmonth Hdyear].
    subst t. repeat (apply Forall_app; split); auto; decide_closed. }
  assert (t ≠ []) as Hne. { subst t. by destruct ds. }
  unfold advanced_po_extraction_v48.
  destruct t as [|ch t'] eqn:Et; [done|]. rewrite <- Et in *.
  rewrite (date_text_normal t Ht).
  assert (∀ a, Forall (λ ch, atom_match ucd a ch = false) date_chars →
               Forall (λ ch, atom_match ucd a ch = false) t) as Hno.
  { intros a Ha. eapply Forall_impl; [exact Ht|].
    rewrite Forall_forall in Ha. exact Ha. }
  unfold patterns. cbn [first_match].
  rewrite (search_needs ucd (Lit 0x648)); [|reflexivity|apply Hno; decide_closed].
  rewrite (search_needs ucd (Lit 0x3A)); [|reflexivity|apply Hno; decide_closed].
  rewrite (search_needs ucd (LitIgnore 0x70));
    [|reflexivity|apply Hno; decide_closed].
  subst t. by rewrite concat_date_match.
Qed.

Lemma number_glued_to_date_witness :
  advanced_po_extraction_v48 ucd (u "17418015/8/2025")
  = (u "174180", u "json (num-concat-date)", u "").
Proof.
  apply (number_glued_to_date (u "174180") (u "15") (u "8") (u "2025"));
    [reflexivity|simpl; lia|simpl; lia|reflexivity|decide_closed].
Defined.

(** ** The label PO NUM and the rules after it *)

Lemma ucd_ascii_classes : ascii_classes ucd.
Proof.
  intros c Hc. revert c Hc.
  apply (ascii_all (λ c, isspace ucd c = ascii_space c
                         ∧ isdecimal ucd c = is_ascii_digit c
                         ∧ isalnum ucd c = ascii_alnum c)).
  decide_closed.
Qed.

Lemma ucd_decimals_alnum : decimals_alnum ucd.
Proof.
  intros c. cbn [isdecimal isalnum ucd].
  unfold sample_isdecimal, sample_isalnum.
  destruct (sample_category c) as [|x s] eqn:E; [done|].
  intros H. apply String.eqb_eq in H. by injection H as -> ->.
Qed.

(** The part of a text before its first colon. *)
Lemma first_colon (w1 w2 r1 r2 : str) :
  w1 ++ 0x3A :: r1 = w2 ++ 0x3A :: r2 → 0x3A ∉ w1 → 0x3A ∉ w2 → w1 = w2.
Proof.
  revert w2. induction w1 as [|x w1 IH]; intros [|y w2] H H1 H2.
  - done.
  - injection H as <- _. exfalso. apply H2. left.
  - injection H as -> _. exfalso. apply H1. left.
  - injection H as -> H. f_equal. apply IH; [done|..].
    + intros ?. apply H1. by right.
    + intros ?. apply H2. by right.
Qed.

(** A search goes past the positions where the rule does not match. *)
Lemma search_from_past (U : unicodedata) r (a rest : str) prev :
  (∀ prev' a1 x a2, a = a1 ++ x :: a2 →
     match_at U r prev' (x :: a2 ++ rest) = None) →
  search_from U r prev (a ++ rest)
  = search_from U r (from_option Some prev (last a)) rest.
Proof.
  revert prev. induction a as [|y a IH]; intros prev Hno; [done|].
  cbn [app]. rewrite search_from_skip by apply (Hno prev [] y a eq_refl).
  rewrite IH.
  - rewrite last_cons. by destruct (last a).
  - intros prev' a1 x a2 ->. by apply (Hno prev' (y :: a1) x a2).
Qed.

Section Label.
Variable U : unicodedata.
Hypothesis Hcases : ascii_cases U.
Hypothesis Hclasses : ascii_classes U.
Hypothesis Hdecimals : decimals_alnum U.

Lemma tolower_ascii c : c < 0x80 → tolower U c = ascii_lower c.
Proof. intros Hc. by destruct (Hcases c Hc). Qed.

Lemma isspace_ascii c : c < 0x80 → isspace U c = ascii_space c.
Proof. intros Hc. by destruct (Hclasses c Hc). Qed.

Lemma isdecimal_ascii c : c < 0x80 → isdecimal U c = is_ascii_digit c.
Proof. intros Hc. by destruct (Hclasses c Hc) as (_ & ? & _). Qed.

Lemma is_word_ascii c :
  c < 0x80 → is_word U c = ascii_alnum c || (c =? 0x5F).
Proof.
  intros Hc. unfold is_word. by destruct (Hclasses c Hc) as (_ & _ & ->).
Qed.

Lemma not_word_not_decimal ch : is_word U ch = false → isdecimal U ch = false.
Proof.
  unfold is_word. intros H. apply orb_false_iff in H as [H _].
  destruct (isdecimal U ch) eqn:E; [|done].
  by rewrite (Hdecimals ch E) in H.
Qed.

(** The rule as [re.compile] leaves it. *)
Lemma po_num_colon_compiled :
  RX_PO_NUM_COLON U
  = seqs [WordB; seqs [One (LitIgnore 0x70); One (LitIgnore 0x6F)];
          star Space;
          seqs [One (LitIgnore 0x6E); One (LitIgnore 0x75);
                One (LitIgnore 0x6D)];
          star Space; seqs [One (Lit 0x3A)]; star Space;
          Group 1 (digits 4 6); WordB].
Proof.
  unfold RX_PO_NUM_COLON, re_compile, lit, chars.
  change (u "PO") with [0x50; 0x4F]. change (u "NUM") with [0x4E; 0x55; 0x4D].
  change (u ":") with [0x3A].
  cbn [seqs List.map foldr ignorecase star digits times].
  rewrite !(ignorecase_ascii_lit U _ Hcases) by reflexivity.
  reflexivity.
Qed.

Ltac ascii_fact :=
  cbn [atom_match];
  rewrite ?tolower_ascii, ?isspace_ascii, ?isdecimal_ascii, ?is_word_ascii
    by reflexivity;
  reflexivity.

(** Literal characters of the label. *)
Ltac path_letters :=
  repeat lazymatch goal with
         | |- rmatch _ Eps _ _ = Some _ => apply path_eps
         | |- rmatch _ (Seq _ _) _ _ = Some _ => apply path_seq
         | |- rmatch _ (One _) _ _ = Some _ =>
             eapply path_one; [reflexivity|ascii_fact|]
         end;
  cbv beta; cbn [after before groups].

(** The label at a word boundary, with the end of a word after its
    number. *)
Lemma label_match (prev : option char) (b : str) :
  from_option (is_word U) false prev = false →
  (∀ ch, head b = Some ch → is_word U ch = false) →
  match_at U (RX_PO_NUM_COLON U) prev (u "PO NUM: 7906" ++ b)
  = Some [(1%nat, u "7906")].
Proof.
  intros Hprev Hb. rewrite po_num_colon_compiled.
  change (u "PO NUM: 7906")
    with [0x50; 0x4F; 0x20; 0x4E; 0x55; 0x4D; 0x3A; 0x20;
          0x37; 0x39; 0x30; 0x36].
  unfold match_at, seqs, star, digits, times. cbn [foldr app].
  apply path_seq, path_boundary.
  { unfold at_boundary. cbn [before after head from_option].
    rewrite Hprev. by rewrite is_word_ascii. }
  path_letters.
  eapply (path_rep U Space 0 None _ _ [0x20]); cbn [after];
    [reflexivity|repeat constructor; ascii_fact|cbn; lia| |].
  { right. split; [done|]. intros ch [= <-]. ascii_fact. }
  cbn [last from_option before groups]. path_letters.
  eapply (path_rep U Space 0 None _ _ []); cbn [after];
    [reflexivity|constructor|cbn; lia| |].
  { right. split; [done|]. intros ch [= <-]. ascii_fact. }
  cbn [last from_option before groups]. path_letters.
  eapply (path_rep U Space 0 None _ _ [0x20]); cbn [after];
    [reflexivity|repeat constructor; ascii_fact|cbn; lia| |].
  { right. split; [done|]. intros ch [= <-]. ascii_fact. }
  cbn [last from_option before groups].
  apply path_seq, path_group.
  eapply (path_rep U Digit 4 (Some 6%nat) _ _ [0x37; 0x39; 0x30; 0x36] b);
    cbn [after]; [reflexivity|repeat constructor; ascii_fact|cbn; lia| |].
  { right. split; [intros h [= <-]; cbn; lia|].
    intros ch Hch. cbn [atom_match]. by apply not_word_not_decimal, Hb. }
  cbn [last from_option before after groups].
  apply path_seq, path_boundary.
  { unfold at_boundary. cbn [before after from_option].
    rewrite is_word_ascii by reflexivity.
    destruct b as [|ch b']; [done|]. cbn [head from_option].
    by rewrite (Hb ch eq_refl). }
  apply path_eps. cbn [groups].
  by rewrite (consumed_app _ _ [0x37; 0x39; 0x30; 0x36]).
Qed.

(** Before the label, and with no colon before it, the rule matches
    nowhere: what the rule reads up to its colon ends in P, O, white
    space, N, U, M and white space, and the text before the colon of the
    label ends in "PO NUM". *)
Lemma label_first (prev : option char) (x : char) (a2 b : str) :
  0x3A ∉ x :: a2 →
  match_at U (RX_PO_NUM_COLON U) prev (x :: a2 ++ u "PO NUM: 7906" ++ b)
  = None.
Proof.
  intros Hcolon.
  destruct (match_at U (RX_PO_NUM_COLON U) prev
              (x :: a2 ++ u "PO NUM: 7906" ++ b)) as [m|] eqn:Hm; [|done].
  exfalso. unfold match_at in Hm. rewrite po_num_colon_compiled in Hm.
  apply rmatch_sound in Hm as (c' & Hr & _).
  unfold seqs, star, digits, times in Hr. cbn [foldr run] in Hr.
  destruct Hr as (c1 & [-> _]
                  & c2 & (c2a & (p & Hp & Hpm & _)
                          & c2b & (o & Ho & Hom & _) & ->)
                  & c3 & (sp1 & Hsp1 & _ & _ & Hsp1s & _)
                  & c4 & (c4a & (n & Hn & Hnm & _)
                          & c4b & (v & Hv & Hvm & _)
                          & c4c & (m' & Hm' & Hmm & _) & ->)
                  & c5 & (sp2 & Hsp2 & _ & _ & Hsp2s & _)
                  & c9 & (c6a & (col & Hcol & Hcolm & _) & ->) & _).
  cbn [after] in Hp. rewrite Ho, Hsp1, Hn, Hv, Hm', Hsp2, Hcol in Hp.
  cbn [atom_match] in Hpm, Hom, Hnm, Hvm, Hmm, Hcolm.
  apply N.eqb_eq in Hcolm as ->.
  assert (∀ lo ch, (tolower U ch =? lo) = true → 0x3A = ch → lo = 0x3A)
    as Hletter.
  { intros lo ch Hlo <-. rewrite tolower_ascii in Hlo by reflexivity.
    by apply N.eqb_eq in Hlo. }
  assert (∀ sp, Forall (λ ch, atom_match U Space ch = true) sp → 0x3A ∉ sp)
    as Hspaces.
  { intros sp Hsp Hin. rewrite Forall_forall in Hsp.
    specialize (Hsp _ Hin). cbn [atom_match] in Hsp.
    by rewrite isspace_ascii in Hsp by reflexivity. }
  assert (x :: a2 ++ u "PO NUM" = p :: o :: sp1 ++ n :: v :: m' :: sp2) as Heq.
  { apply (first_colon _ _ (u " 7906" ++ b) (after c6a)).
    - etransitivity; [|etransitivity; [exact Hp|]].
      + cbn [app]. f_equal. by rewrite <- app_assoc.
      + cbn [app]. do 2 f_equal. by rewrite <- app_assoc.
    - intros Hin. apply elem_of_cons in Hin as [<-|Hin]; [apply Hcolon; left|].
      apply elem_of_app in Hin as [Hin|Hin]; [apply Hcolon; by right|].
      revert Hin. decide_closed.
    - intros Hin.
      apply elem_of_cons in Hin as [Hin|Hin];
        [by apply (Hletter _ _ Hpm) in Hin|].
      apply elem_of_cons in Hin as [Hin|Hin];
        [by apply (Hletter _ _ Hom) in Hin|].
      apply elem_of_app in Hin as [Hin|Hin]; [by apply (Hspaces sp1)|].
      apply elem_of_cons in Hin as [Hin|Hin];
        [by apply (Hletter _ _ Hnm) in Hin|].
      apply elem_of_cons in Hin as [Hin|Hin];
        [by apply (Hletter _ _ Hvm) in Hin|].
      apply elem_of_cons in Hin as [Hin|Hin];
        [by apply (Hletter _ _ Hmm) in Hin|].
      by apply (Hspaces sp2). }
  assert (∀ sp ch, Forall (λ ch, atom_match U Space ch = true) (sp ++ [ch]) →
                   ascii_space ch = true ∨ 0x80 ≤ ch) as Hlast.
  { intros sp ch Hsp. apply Forall_app in Hsp as [_ [Hsp _]%Forall_cons].
    cbn [atom_match] in Hsp.
    destruct (decide (ch < 0x80)) as [Hch|Hch]; [left|right; lia].
    by rewrite isspace_ascii in Hsp. }
  (* no white space after NUM *)
  destruct sp2 as [|s sp2 _] using rev_ind.
  2:{ change (u "PO NUM") with (u "PO NU" ++ [0x4D]) in Heq.
      rewrite !app_comm_cons, !app_assoc in Heq.
      apply app_inj_tail in Heq as [_ <-].
      destruct (Hlast _ _ Hsp2s) as [H|H]; [done|lia]. }
  change (u "PO NUM") with (u "PO " ++ [0x4E; 0x55; 0x4D]) in Heq.
  change (n :: v :: m' :: []) with ([n; v; m'] ++ []) in Heq.
  rewrite app_nil_r in Heq.
  change (p :: o :: sp1 ++ [n; v; m']) with ((p :: o :: sp1) ++ [n; v; m']) in Heq.
  rewrite app_comm_cons, app_assoc in Heq.
  apply app_inj_2 in Heq as [Heq _]; [|done].
  (* the white space after PO is the one space *)
  destruct sp1 as [|s sp1 _] using rev_ind.
  { apply (f_equal length) in Heq. simpl in Heq.
    rewrite length_app in Heq. simpl in Heq. lia. }
  change (u "PO ") with (u "PO" ++ [0x20]) in Heq.
  rewrite !app_comm_cons, !app_assoc in Heq.
  apply app_inj_tail in Heq as [Heq _].
  destruct sp1 as [|s' sp1 _] using rev_ind.
  { apply (f_equal length) in Heq. simpl in Heq.
    rewrite length_app in Heq. simpl in Heq. lia. }
  change (u "PO") with (u "P" ++ [0x4F]) in Heq.
  rewrite !app_comm_cons, !app_assoc in Heq.
  apply app_inj_tail in Heq as [_ <-].
  apply Forall_app in Hsp1s as [Hsp1s _].
  destruct (Hlast _ _ Hsp1s) as [H|H]; [done|lia].
Qed.

Lemma label_search (a b : str) :
  (∀ ch, last a = Some ch → is_word U ch = false) →
  (∀ ch, head b = Some ch → is_word U ch = false) →
  0x3A ∉ a →
  search U (RX_PO_NUM_COLON U) (a ++ u "PO NUM: 7906" ++ b)
  = Some [(1%nat, u "7906")].
Proof.
  intros Ha Hb Hcolon. unfold search. rewrite search_from_past.
  - apply search_from_here, label_match; [|done].
    destruct (last a) as [ch|]; [|done]. by apply Ha.
  - intros prev a1 x a2 ->. apply label_first.
    intros Hin. apply Hcolon, elem_of_app. by right.
Qed.

End Label.




(** ** The fields of the document *)

Section DocumentFacts.
Variable U : unicodedata.
Variable P : runtime.

Lemma store_address_ok dm party field fields :
  party_ok dm party →
  store_address P (JObj dm) party field fields
  = (match party_address dm party with
     | Some am => <[u field := JStr (address_text P am)]> fields
     | None => fields
     end, Ok ()).
Proof.
  unfold party_ok, party_address, store_address. cbn [py_in py_getitem].
  destruct (dict_get dm (u party)) as [v|]; [|intros _; by rewrite has_None].
  rewrite has_Some. destruct v as [| | | | |pm]; try done.
  rewrite bind_eval_ok. cbn [mbind result_bind py_in py_getitem].
  destruct (dict_get pm (u "address")) as [w|];
    [|intros _; by rewrite has_None].
  rewrite has_Some. by destruct w as [| | | | |am].
Qed.

(** The inner [try] on a document that is well formed. *)
Lemma document_details_ok d x dm fields :
  dict_get d (u "document") = Some x →
  load_document P x = Ok (JObj dm) →
  (∀ v, dict_get dm (u "invoiceLines") = Some v → ∃ lines, v = JArr lines) →
  Forall line_with_text (invoice_lines dm) →
  party_ok dm "issuer" →
  party_ok dm "receiver" →
  try_pass (document_details P (JObj d)) fields
  = let fields :=
      <[u "descriptions" :=
          JStr (join (u "; ") (descriptions (invoice_lines dm)))]>
        (<[u "taxpayerActivityCode" :=
             default (JStr []) (dict_get dm (u "taxpayerActivityCode"))]>
           (<[u "documentTypeVersion" :=
                default (JStr []) (dict_get dm (u "documentTypeVersion"))]>
              (<[u "documentType" :=
                   default (JStr []) (dict_get dm (u "documentType"))]>
                 fields))) in
    let fields :=
      match party_address dm "issuer" with
      | Some am => <[u "issuer_address" := JStr (address_text P am)]> fields
      | None => fields
      end in
    match party_address dm "receiver" with
    | Some am => <[u "receiver_address" := JStr (address_text P am)]> fields
    | None => fields
    end.
Proof.
  intros Hdoc Hload Harr Hlines Hissuer Hreceiver. unfold try_pass.
  rewrite (document_details_head P d x dm _ Hdoc Hload).
  rewrite (invoice_line_descriptions_text dm Harr Hlines), bind_eval_ok.
  rewrite py_join_strs, bind_eval_ok, bind_store.
  unfold mbind, block_bind.
  rewrite (store_address_ok dm "issuer" "issuer_address" _ Hissuer).
  by rewrite (store_address_ok dm "receiver" "receiver_address" _ Hreceiver).
Qed.

(** X15: what [parse_json_fields] stores for a document that is well
    formed: the descriptions in order, joined by "; ", and the address
    of each party that has one. *)
Theorem document_fields_stored (d dm : list (str * json)) (x : json) :
  dict_get d (u "document") = Some x →
  load_document P x = Ok (JObj dm) →
  (∀ v, dict_get dm (u "invoiceLines") = Some v → ∃ lines, v = JArr lines) →
  Forall line_with_text (invoice_lines dm) →
  party_ok dm "issuer" →
  party_ok dm "receiver" →
  let fields := parse_json_fields U P (JObj d) in
  fields !! u "descriptions"
  = Some (JStr (join (u "; ") (descriptions (invoice_lines dm))))
  ∧ fields !! u "issuer_address"
    = (λ am, JStr (address_text P am)) <$> party_address dm "issuer"
  ∧ fields !! u "receiver_address"
    = (λ am, JStr (address_text P am)) <$> party_address dm "receiver".
Proof.
  intros Hdoc Hload Harr Hlines Hissuer Hreceiver fields. subst fields.
  unfold parse_json_fields.
  destruct (extract_po_from_json U P (JObj d)) as [[po src] note].
  rewrite Hdoc, has_Some.
  rewrite (document_details_ok d x dm _ Hdoc Hload Harr Hlines Hissuer Hreceiver).
  cbv zeta.
  destruct (party_address dm "issuer") as [ia|],
    (party_address dm "receiver") as [ra|]; cbn [fmap option_fmap option_map];
    (split; [|split]); by lookup_inserted.
Qed.

End DocumentFacts.

Lemma document_fields_stored_witness :
  let fields := parse_json_fields ucd python (JObj record_with_address) in
  fields !! u "descriptions" = Some (JStr (u "Meals; PO NUM: 7906"))
  ∧ fields !! u "issuer_address" = Some (JStr (u "Nile St   Cairo"))
  ∧ fields !! u "receiver_address" = None.
Proof.
  apply (document_fields_stored ucd python record_with_address
           [(u "invoiceLines",
             JArr [JObj [(u "description", JStr (u "Meals"))];
                   JObj [(u "quantity", JNum (Int 2))];
                   JObj [(u "description", JStr (u "PO NUM: 7906"))]]);
            (u "issuer",
             JObj [(u "address",
                    JObj [(u "street", JStr (u "Nile St"));
                          (u "governate", JStr (u "Cairo"))])]);
            (u "receiver", JObj [(u "name", JStr (u "ACME"))])]
           (JObj [(u "invoiceLines",
             JArr [JObj [(u "description", JStr (u "Meals"))];
                   JObj [(u "quantity", JNum (Int 2))];
                   JObj [(u "description", JStr (u "PO NUM: 7906"))]]);
            (u "issuer",
             JObj [(u "address",
                    JObj [(u "street", JStr (u "Nile St"));
                          (u "governate", JStr (u "Cairo"))])]);
            (u "receiver", JObj [(u "name", JStr (u "ACME"))])])).
  - reflexivity.
  - reflexivity.
  - intros v H. vm_compute in H. injection H as <-. eexists; reflexivity.
  - repeat constructor; eexists; (split; [reflexivity|]);
      intros v H; vm_compute in H; first [discriminate H | injection H as <-];
      eexists; reflexivity.
  - exact I.
  - exact I.
Defined.

(** ** The report *)

Section ReportFacts.
Variable U : unicodedata.
Variable P : runtime.
Variable D : pandas.

Lemma parse_json_fields_error d :
  parse_json_fields U P (JObj d) !! u "error" = None.
Proof.
  unfold parse_json_fields.
  destruct (extract_po_from_json U P (JObj d)) as [[po src] note].
  lookup_inserted.
  destruct (bool_decide (is_Some (dict_get d (u "document")))).
  - unfold try_pass.
    rewrite (writes_only_lookup _ _ _ _ (document_details_writes P (JObj d)))
      by compute_done.
    by lookup_inserted.
  - by lookup_inserted.
Qed.

Lemma parse_json_fields_po d :
  fields_get (parse_json_fields U P (JObj d)) "PO number"
  = JStr (extract_po_from_json U P (JObj d)).1.1.
Proof.
  unfold fields_get, parse_json_fields.
  destruct (extract_po_from_json U P (JObj d)) as [[po src] note].
  by lookup_inserted.
Qed.

(** The three ways in which [extract_po_from_json] ends. *)
Lemma extract_po_from_json_shape json_data :
  (∃ name rx po,
     (name, rx) ∈ patterns U ∧ po_digits U po
     ∧ extract_po_from_json U P json_data
       = (po, u "json (" ++ u name ++ u ")", u ""))
  ∨ extract_po_from_json U P json_data = (u "", u "", u "no PO found")
  ∨ ∃ e, extract_po_from_json U P json_data
         = (u "", u "", u "extraction error: " ++ str_exn P e).
Proof.
  unfold extract_po_from_json.
  destruct (combined_text P json_data) as [text|e]; [|right; right; by exists e].
  destruct text as [|ch text]; [right; by left|].
  unfold advanced_po_extraction_v48.
  destruct (first_match_spec U (patterns U) (norm_advanced U (ch :: text)))
    as [[-> _]|(ps1 & name & rx & ps2 & m & Hps & _ & Hm & ->)];
    [right; by left|left].
  assert ((name, rx) ∈ patterns U) as Hin.
  { rewrite Hps. apply elem_of_app. right. left. }
  destruct (group1_of_rule U name rx _ m Hin Hm) as (po & -> & Hpo).
  by exists name, rx, po.
Qed.

(** X16: the metric "PO Number Found" says "Yes" exactly when a rule gave
    the PO number, that is when the PO note is empty. *)
Theorem po_found_iff_rule_matched (d : list (str * json)) :
  let fields := parse_json_fields U P (JObj d) in
  (po_found fields = u "Yes" ∨ po_found fields = u "No")
  ∧ (po_found fields = u "Yes"
     ↔ (extract_po_from_json U P (JObj d)).2 = u "")
  ∧ (po_found fields = u "Yes"
     ↔ ∃ name rx, (name, rx) ∈ patterns U
         ∧ (extract_po_from_json U P (JObj d)).1.2
           = u "json (" ++ u name ++ u ")").
Proof.
  intros fields. subst fields. unfold po_found.
  rewrite parse_json_fields_po.
  destruct (extract_po_from_json_shape (JObj d))
    as [(name & rx & po & Hin & [Hlen Hdig] & ->)| [-> |[e ->]]];
    cbn [fst snd truthy].
  - destruct po as [|ch po]; [simpl in Hlen; lia|].
    split; [by left|]. split; [done|]. split; [|done].
    intros _. by exists name, rx.
  - split; [by right|]. split; [split; intros H; discriminate H|].
    split; [intros H; discriminate H|].
    intros (name & rx & _ & H). discriminate H.
  - split; [by right|]. split; [split; intros H; discriminate H|].
    split; [intros H; discriminate H|].
    intros (name & rx & _ & H). discriminate H.
Qed.

(** The lines of a tab whose values came with the record, and of any
    tab: an [Index] among the values stops the run. *)
Lemma tab_lines_spec (info : list (string * value)) :
  tab_lines D info
  = if forallb (λ kv, is_plain kv.2) info
    then Ok (filter (λ kv, match kv.2 with
                           | Plain j => truthy j
                           | Index _ => false
                           end = true) info)
    else Raise (index_bool D).
Proof.
  induction info as [|[k v] info IH]; [done|].
  cbn [tab_lines forallb snd]. destruct v as [j|labels]; cbn [truth is_plain].
  - cbn [mbind result_bind andb]. rewrite IH.
    destruct (forallb (λ kv, is_plain kv.2) info); [|done].
    cbn [mbind result_bind mret result_ret].
    rewrite filter_cons. cbn [snd].
    destruct (truthy j); [by rewrite decide_True|].
    by rewrite decide_False.
  - done.
Qed.

Lemma tab_lines_plain (info : list (string * json)) :
  forallb (λ kv : string * value, is_plain kv.2) (plain info) = true.
Proof. induction info as [|kv info IH]; [done|]. exact IH. Qed.

(** X17: for a JSON object [main] makes the six tabs and the table of 24
    rows, unless [format_datetime] returned an [Index] for one of the
    three dates: then the test of the value in the tab of the dates
    raises, and the run stops there.  For any other value but [None]
    [main] shows the error of [parse_json_fields], and for [None] it
    shows nothing. *)
Theorem main_takes_objects_only (json_data : json) :
  match json_data with
  | JObj d =>
      let fields := parse_json_fields U P json_data in
      if forallb (λ kv, is_plain kv.2) (dates_info D fields)
      then ∃ tabs,
             main U P D json_data
             = Some (Results (po_found fields) tabs (df_data P D fields))
             ∧ length tabs = 6%nat
             ∧ length (df_data P D fields) = 24%nat
      else main U P D json_data = Some (Uncaught (index_bool D))
  | JNull => main U P D json_data = None
  | _ =>
      main U P D json_data
      = Some (ErrorShown
                (u "Error processing JSON: "
                 ++ format_value P
                      (JStr (str_exn P (NoAttribute json_data "get")))))
  end.
Proof.
  destruct json_data as [|b|n|s|items|d]; try reflexivity.
  cbv zeta. unfold main. rewrite parse_json_fields_error.
  set (fields := parse_json_fields U P (JObj d)).
  unfold categories, mapM. cbn [fmap list_fmap snd mbind result_bind].
  rewrite !tab_lines_spec, !tab_lines_plain.
  cbn [mbind result_bind mret result_ret].
  destruct (forallb (λ kv, is_plain kv.2) (dates_info D fields)); [|done].
  cbn [mbind result_bind mret result_ret].
  eexists. split; [reflexivity|]. split; reflexivity.
Qed.

End ReportFacts.

(** ** The login *)

(** X18: [save_to_google_sheets] sends the email and the password as they
    are, and what it returns is true only when the answer has status 200
    and is an object with a true member "success". *)
Theorem save_to_google_sheets_result (N : network) (email password : str) :
  let sent := {| url := web_app_url;
                 data := [(u "user", JStr email); (u "pass", JStr password);
                          (u "time", JStr (now N))] |} in
  (save_to_google_sheets N email password).2 = [sent]
  ∧ (truthy (save_to_google_sheets N email password).1 = true
     ↔ ∃ response members v,
         requests_post N sent = Ok response
         ∧ status_code response = 200%Z
         ∧ response_json response = Ok (JObj members)
         ∧ dict_get members (u "success") = Some v
         ∧ truthy v = true).
Proof.
  intros sent. split; [done|].
  unfold save_to_google_sheets. fold sent. cbn [fst].
  destruct (requests_post N sent) as [response|e] eqn:Hpost;
    cbn [mbind result_bind].
  2:{ split; [done|]. by intros (? & ? & ? & [=] & _). }
  destruct (status_code response =? 200)%Z eqn:Hstatus.
  2:{ split; [done|]. intros (r & ? & ? & [= <-] & H & _).
      apply Z.eqb_neq in Hstatus. done. }
  apply Z.eqb_eq in Hstatus.
  destruct (response_json response) as [result|e] eqn:Hjson;
    cbn [mbind result_bind].
  2:{ split; [done|]. intros (r & ? & ? & [= <-] & _ & H & _).
      rewrite Hjson in H. done. }
  destruct result as [|b|n|s|items|members]; cbn [py_get_or];
    try (split; [done|]; intros (r & ? & ? & [= <-] & _ & H & _);
         rewrite Hjson in H; done).
  destruct (dict_get members (u "success")) as [v|] eqn:Hv;
    cbn [default from_option id].
  - split.
    + intros Ht. by exists response, members, v.
    + intros (r & ms & v' & [= <-] & _ & H & Hv' & Ht).
      rewrite Hjson in H. injection H as <-. rewrite Hv in Hv'.
      by injection Hv' as <-.
  - split; [done|].
    intros (r & ms & v' & [= <-] & _ & H & Hv' & _).
    rewrite Hjson in H. injection H as <-. rewrite Hv in Hv'. done.
Qed.

(** X19: any email and password that are not empty open the session,
    whatever the network answers: the run stores both in the session
    state, marks the session as open and leaves the other keys as they
    were, sends the two, and the next run passes the login whatever the
    form holds. *)
Theorem login_accepts_any_credentials (N N' : network)
    (session_state : gmap str json) (form form' : login_form) :
  truthy (default JNull (session_state !! u "authenticated")) = false →
  login_button form = true →
  email form ≠ [] → password form ≠ [] →
  ∃ session_state',
    show_login_popup N session_state form
    = (session_state', (save_to_google_sheets N (email form) (password form)).2,
       Rerun)
    ∧ session_state' !! u "user_email" = Some (JStr (email form))
    ∧ session_state' !! u "user_password" = Some (JStr (password form))
    ∧ session_state' !! u "authenticated" = Some (JBool true)
    ∧ (∀ k, k ∉ [u "user_email"; u "user_password"; u "authenticated"] →
            session_state' !! k = session_state !! k)
    ∧ show_login_popup N' session_state' form'
      = (session_state', [], Returned true).
Proof.
  intros Hauth Hbutton Hemail Hpassword.
  unfold show_login_popup at 1.
  set (s0 := match session_state !! u "authenticated" with
             | None => <[u "authenticated" := JBool false]> session_state
             | Some _ => session_state
             end).
  assert (truthy (default JNull (s0 !! u "authenticated")) = false) as ->.
  { subst s0. destruct (session_state !! u "authenticated") eqn:E.
    - by rewrite E in *.
    - by rewrite lookup_insert_eq. }
  assert (∀ k, k ≠ u "authenticated" → s0 !! k = session_state !! k) as Hs0.
  { intros k Hk. subst s0. destruct (session_state !! u "authenticated"); [done|].
    by rewrite lookup_insert_ne. }
  rewrite Hbutton. cbn [negb truthy].
  destruct (email form) as [|e1 e]; [done|].
  destruct (password form) as [|p1 p]; [done|]. cbn [andb].
  eexists. split; [reflexivity|]. split; [|split; [|split; [|split]]].
  - rewrite !lookup_insert_ne by keys_differ. apply lookup_insert_eq.
  - rewrite lookup_insert_ne by keys_differ. apply lookup_insert_eq.
  - apply lookup_insert_eq.
  - intros k Hk.
    assert (u "user_email" ≠ k ∧ u "user_password" ≠ k
            ∧ u "authenticated" ≠ k) as (H1 & H2 & H3).
    { split; [|split]; intros <-; apply Hk;
        [left|right; left|right; right; left]. }
    rewrite !lookup_insert_ne by done. apply Hs0. by intros ->.
  - unfold show_login_popup. by rewrite !lookup_insert_eq.
Qed.

Lemma login_accepts_any_credentials_witness :
  ∃ session_state',
    show_login_popup
      {| requests_post := λ _, Raise (OtherError (u "no network"));
         now := u "2025-08-15 10:00:00" |}
      ∅ {| login_button := true; email := u "a"; password := u "b" |}
    = (session_state',
       [ {| url := web_app_url;
            data := [(u "user", JStr (u "a")); (u "pass", JStr (u "b"));
                     (u "time", JStr (u "2025-08-15 10:00:00"))] |} ],
       Rerun)
    ∧ session_state' !! u "user_email" = Some (JStr (u "a"))
    ∧ session_state' !! u "user_password" = Some (JStr (u "b"))
    ∧ session_state' !! u "authenticated" = Some (JBool true)
    ∧ (∀ k, k ∉ [u "user_email"; u "user_password"; u "authenticated"] →
            session_state' !! k = (∅ : gmap str json) !! k)
    ∧ show_login_popup
        {| requests_post := λ _, Raise (OtherError (u "no network"));
           now := u "2025-08-15 10:00:01" |}
        session_state'
        {| login_button := false; email := u ""; password := u "" |}
      = (session_state', [], Returned true).
Proof.
  apply (login_accepts_any_credentials
           {| requests_post := λ _, Raise (OtherError (u "no network"));
              now := u "2025-08-15 10:00:00" |}
           {| requests_post := λ _, Raise (OtherError (u "no network"));
              now := u "2025-08-15 10:00:01" |}
           ∅ {| login_button := true; email := u "a"; password := u "b" |}
           {| login_button := false; email := u ""; password := u "" |});
    done.
Defined.

(** X20: without a login with both fields filled in, a session that is not
    open stays closed, and nothing is sent. *)
Theorem login_needs_both_fields (N : network)
    (session_state : gmap str json) (form : login_form) :
  truthy (default JNull (session_state !! u "authenticated")) = false →
  login_button form = false ∨ email form = [] ∨ password form = [] →
  ∃ session_state',
    show_login_popup N session_state form
    = (session_state', [], Returned false)
    ∧ session_state' !! u "authenticated"
      = Some (default (JBool false) (session_state !! u "authenticated"))
    ∧ truthy (default JNull (session_state' !! u "authenticated")) = false.
Proof.
  intros Hauth Hform. unfold show_login_popup.
  set (s0 := match session_state !! u "authenticated" with
             | None => <[u "authenticated" := JBool false]> session_state
             | Some _ => session_state
             end).
  assert (s0 !! u "authenticated"
          = Some (default (JBool false) (session_state !! u "authenticated")))
    as Hs0.
  { subst s0. destruct (session_state !! u "authenticated") eqn:E; [done|].
    by rewrite lookup_insert_eq. }
  assert (truthy (default JNull (s0 !! u "authenticated")) = false) as Hclosed.
  { rewrite Hs0. by destruct (session_state !! u "authenticated"). }
  rewrite Hclosed. cbn [negb].
  exists s0.
  destruct (login_button form); [|done].
  destruct Hform as [?|[-> | ->]]; [done|done|].
  cbn [truthy]. by rewrite andb_false_r.
Qed.

Lemma login_needs_both_fields_witness :
  ∃ session_state',
    show_login_popup
      {| requests_post := λ _, Raise (OtherError (u "no network"));
         now := u "2025-08-15 10:00:00" |}
      ∅ {| login_button := true; email := u "a"; password := u "" |}
    = (session_state', [], Returned false)
    ∧ session_state' !! u "authenticated" = Some (JBool false)
    ∧ truthy (default JNull (session_state' !! u "authenticated")) = false.
Proof.
  exact (login_needs_both_fields
           {| requests_post := λ _, Raise (OtherError (u "no network"));
              now := u "2025-08-15 10:00:00" |}
           ∅ {| login_button := true; email := u "a"; password := u "" |}
           eq_refl (or_intror (or_intror eq_refl))).
Defined.
